(** * InvoiceTracker: the AI orchestration core

    A shallow embedding of the backend's orchestration core and the proofs
    of its specified properties:

    - [PyStr]: the operations of Python's [str] the code relies on;
    - [Py]: Python values, exceptions and the operations on dicts;
    - [Embeddings]: [EmbeddingGenerator.chunk_text]
      (app/core/langchain/embeddings.py);
    - [Gateway]: [GroqClient] (app/core/llm/groq_client.py);
    - [Effects]: programs that call services and may raise;
    - [Services]: the calls of the nodes to the gateway, the document
      store and the tools;
    - [Retrieval]: [EmbeddingRepository] and [RAGPipeline]
      (app/db/repositories/embedding_repo.py, app/core/langchain/rag.py);
    - [Orchestrator]: the nodes and the graph of the agent
      (app/core/langgraph/nodes.py, graph.py, state.py);
    - [ExportTool]: the export of invoices
      (app/core/tools/export_tool.py);
    - [MCP], [RagServer]: the base of the tool servers and the server of
      the retrieval tools (app/mcp/base.py, app/mcp/rag_server.py);
    - [Chat]: [ChatService] (app/services/chat_service.py) with the
      models of its requests and responses (app/db/models.py).

    Python strings are modelled as [string], restricted to the code points
    0..255 (one [ascii] per code point); integers are [Z]. The fixed
    messages of the nodes that hold characters beyond that range are kept
    as their UTF-8 bytes; no property below looks inside them. *)

From Stdlib Require Import ZArith List String Ascii Bool Lia Arith.
From Stdlib Require Import Permutation Sorted.
From Stdlib Require Import Reals Lra.
From Stdlib Require Import Floats.
From Stdlib Require DecimalString.
Import ListNotations.

Open Scope string_scope.
Open Scope Z_scope.

(* ===================================================================== *)
(** * Python [str] *)
(* ===================================================================== *)

Module PyStr.

Definition len (s : string) : Z := Z.of_nat (String.length s).

(** [bool(s)]: a string is truthy when it is not empty. *)
Definition truthy (s : string) : bool :=
  match s with EmptyString => false | String _ _ => true end.

(** [str.isspace] on one character, for the code points 0..255:
    TAB..CR, FS..US, SPACE, NEL and NBSP. *)
Definition isspace (c : ascii) : bool :=
  let n := nat_of_ascii c in
  ((9 <=? n) && (n <=? 13) || (28 <=? n) && (n <=? 32)
   || (n =? 133) || (n =? 160))%nat.

Fixpoint lstrip (s : string) : string :=
  match s with
  | EmptyString => EmptyString
  | String c s' => if isspace c then lstrip s' else s
  end.

Fixpoint rstrip (s : string) : string :=
  match s with
  | EmptyString => EmptyString
  | String c s' =>
      let r := rstrip s' in
      if isspace c && negb (truthy r) then EmptyString else String c r
  end.

(** [s.strip()] *)
Definition strip (s : string) : string := rstrip (lstrip s).

(** A slice bound [i] of a sequence of length [n], as Python clamps it:
    negative bounds count from the end. *)
Definition clamp (i n : Z) : Z :=
  if i <? 0 then Z.max 0 (i + n) else Z.min i n.

(** [s[i:j]] *)
Definition slice (s : string) (i j : Z) : string :=
  let i' := clamp i (len s) in
  let j' := clamp j (len s) in
  substring (Z.to_nat i') (Z.to_nat (j' - i')) s.

(** [s.startswith(sub)] *)
Fixpoint startswith (s sub : string) : bool :=
  match sub, s with
  | EmptyString, _ => true
  | String _ _, EmptyString => false
  | String a sub', String b s' => Ascii.eqb a b && startswith s' sub'
  end.

(** [s.rfind(sub)]: the highest index at which [sub] occurs in [s],
    [-1] when it does not occur. [rfind_from] scans [s] from index [i]
    and remembers the last match in [acc]. *)
Fixpoint rfind_from (s sub : string) (i acc : Z) : Z :=
  let acc' := if startswith s sub then i else acc in
  match s with
  | EmptyString => acc'
  | String _ s' => rfind_from s' sub (i + 1) acc'
  end.

Definition rfind (s sub : string) : Z := rfind_from s sub 0 (-1).

(** [sub in s] *)
Fixpoint contains (s sub : string) : bool :=
  startswith s sub ||
  match s with
  | EmptyString => false
  | String _ s' => contains s' sub
  end.

(** [str.lower] on one character, for the code points 0..255:
    A..Z and the Latin-1 capitals (except the multiplication sign)
    move up by 32. *)
Definition lower_char (c : ascii) : ascii :=
  let n := nat_of_ascii c in
  if ((65 <=? n) && (n <=? 90)
      || (192 <=? n) && (n <=? 222) && negb (n =? 215))%nat
  then ascii_of_nat (n + 32) else c.

Fixpoint lower (s : string) : string :=
  match s with
  | EmptyString => EmptyString
  | String c s' => String (lower_char c) (lower s')
  end.

(** [str.upper] on one character, for the code points 0..255 whose
    capital is in that range: a..z and the Latin-1 small letters (except
    the division sign) move down by 32. *)
Definition upper_char (c : ascii) : ascii :=
  let n := nat_of_ascii c in
  if ((97 <=? n) && (n <=? 122)
      || (224 <=? n) && (n <=? 254) && negb (n =? 247))%nat
  then ascii_of_nat (n - 32) else c.

Fixpoint upper (s : string) : string :=
  match s with
  | EmptyString => EmptyString
  | String c s' => String (upper_char c) (upper s')
  end.

(** [sep.join(l)] *)
Fixpoint join (sep : string) (l : list string) : string :=
  match l with
  | [] => ""
  | [x] => x
  | x :: l' => x ++ sep ++ join sep l'
  end.

Definition LF : string := String (ascii_of_nat 10) EmptyString.

(** The double quote. *)
Definition DQ : string := String (ascii_of_nat 34) EmptyString.

End PyStr.

(* ===================================================================== *)
(** * Python values and exceptions *)
(* ===================================================================== *)

Module Py.
Import PyStr.

(** The exception classes that occur; each carries [str(e)]. *)
Inductive exn :=
| GroqClientError (msg : string)
| IndexError (msg : string)
| ValueError (msg : string)
| TypeError (msg : string)
| KeyError (msg : string)
| AttributeError (msg : string)
| InvalidId (msg : string)
| OtherError (msg : string).

(** [str(e)] *)
Definition str_of_exn (e : exn) : string :=
  match e with
  | GroqClientError m | IndexError m | ValueError m | TypeError m
  | KeyError m | AttributeError m | InvalidId m | OtherError m => m
  end.

(** The values [json.loads] builds and the dicts the services exchange.
    A dict is the list of its items, keys distinct. *)
#[local] Unset Elimination Schemes.
Inductive pyval :=
| PNone
| PBool (b : bool)
| PInt (z : Z)
| PFloat (f : float)
| PStr (s : string)
| PList (l : list pyval)
| PDict (items : list (string * pyval)).
#[local] Set Elimination Schemes.

(** [bool(v)] *)
Definition truthy (v : pyval) : bool :=
  match v with
  | PNone => false
  | PBool b => b
  | PInt z => negb (z =? 0)
  | PFloat f => negb (PrimFloat.eqb f 0%float)
  | PStr s => PyStr.truthy s
  | PList l => match l with [] => false | _ => true end
  | PDict d => match d with [] => false | _ => true end
  end.

(** [a or b] *)
Definition or_ (a b : pyval) : pyval := if truthy a then a else b.

Fixpoint lookup (key : string) (items : list (string * pyval))
  : option pyval :=
  match items with
  | [] => None
  | (k, v) :: items' => if String.eqb k key then Some v else lookup key items'
  end.

(** [d.get(key, default)] on a dict [d] *)
Definition get (items : list (string * pyval)) (key : string)
           (default : pyval) : pyval :=
  match lookup key items with Some v => v | None => default end.

(** [key in d] *)
Definition has (items : list (string * pyval)) (key : string) : bool :=
  match lookup key items with Some _ => true | None => false end.

(** [v.get(key, default)] on any value: only a dict has [get]. *)
Definition getattr_get (v : pyval) (key : string) (default : pyval)
  : exn + pyval :=
  match v with
  | PDict items => inr (get items key default)
  | _ => inl (AttributeError "object has no attribute 'get'")
  end.

(** [v[key]] with a string key *)
Definition getitem (v : pyval) (key : string) : exn + pyval :=
  match v with
  | PDict items =>
      match lookup key items with
      | Some x => inr x
      | None => inl (KeyError key)
      end
  | _ => inl (TypeError "object is not subscriptable")
  end.

Definition of_option (o : option string) : pyval :=
  match o with Some s => PStr s | None => PNone end.

(** Sequencing of steps that may raise. *)
Definition and_then {A B : Type} (r : exn + A) (f : A -> exn + B)
  : exn + B :=
  match r with inl e => inl e | inr a => f a end.

Declare Scope exn_scope.
Delimit Scope exn_scope with exn.
Notation "x <~ r ;; k" := (and_then r (fun x => k))
  (at level 61, r at next level, right associativity) : exn_scope.

(** A comprehension [[f(x) for x in l]] whose body may raise. *)
Fixpoint traverse {A B : Type} (f : A -> exn + B) (l : list A)
  : exn + list B :=
  match l with
  | [] => inr []
  | x :: l' =>
      (y <~ f x ;; ys <~ traverse f l' ;; inr (y :: ys))%exn
  end.

(** The elements a [for] loop over [v] visits. *)
Definition iterate (v : pyval) : exn + list pyval :=
  match v with
  | PList l => inr l
  | PDict items => inr (map (fun kv => PStr (fst kv)) items)
  | PStr s =>
      inr (map (fun c => PStr (String c EmptyString))
               (list_ascii_of_string s))
  | _ => inl (TypeError "object is not iterable")
  end.

(** [v.upper()]: only a string has [upper]. *)
Definition upper (v : pyval) : exn + string :=
  match v with
  | PStr s => inr (PyStr.upper s)
  | _ => inl (AttributeError "object has no attribute 'upper'")
  end.

(** [str(v)], as an f-string renders a value; [repr] renders the floats,
    lists and dicts. *)
Definition format (repr : pyval -> string) (v : pyval) : string :=
  match v with
  | PStr s => s
  | PNone => "None"
  | PBool true => "True"
  | PBool false => "False"
  | PInt z => DecimalString.NilZero.string_of_int (Z.to_int z)
  | _ => repr v
  end.

End Py.

(* ===================================================================== *)
(** * Chunking: app/core/langchain/embeddings.py *)
(* ===================================================================== *)

Module Embeddings.
Import PyStr.

(** The boundary markers of [chunk_text], in the order they are tried. *)
Definition boundaries : list string :=
  [". "; "." ++ LF; LF ++ LF; LF; " "].

(** The [for boundary in ...] loop with its [break]: the cut point of the
    chunk that starts at [start] and would end at [end_]. *)
Fixpoint adjust_end (text : string) (start end_ chunk_size : Z)
         (bs : list string) : Z :=
  match bs with
  | [] => end_
  | boundary :: bs' =>
      let last_boundary := rfind (slice text start end_) boundary in
      if last_boundary >? chunk_size / 2
      then start + last_boundary + len boundary
      else adjust_end text start end_ chunk_size bs'
  end.

(** The value of [end] when the chunk is cut, for one iteration of the
    [while] loop. *)
Definition chunk_end (text : string) (chunk_size start : Z) : Z :=
  let end_ := start + chunk_size in
  if end_ <? len text
  then adjust_end text start end_ chunk_size boundaries
  else end_.

(** The [while start < len(text)] loop. [fuel] bounds the number of
    iterations: [None] means the bound was reached before the loop
    condition became false. *)
Fixpoint chunk_loop (fuel : nat) (text : string) (chunk_size overlap : Z)
         (start : Z) (chunks : list string) : option (list string) :=
  if start <? len text then
    match fuel with
    | O => None
    | S fuel' =>
        let end_ := chunk_end text chunk_size start in
        let chunk := strip (slice text start end_) in
        let chunks' := if truthy chunk then (chunks ++ [chunk])%list else chunks in
        chunk_loop fuel' text chunk_size overlap (end_ - overlap) chunks'
    end
  else Some chunks.

Definition chunk_text (fuel : nat) (text : string)
           (chunk_size overlap : Z) : option (list string) :=
  if len text <=? chunk_size then Some [text]
  else chunk_loop fuel text chunk_size overlap 0 [].

(** The pairs [(start, end)] the loop cuts at, in order: the slices
    [text[start:end]] before they are stripped. *)
Fixpoint chunk_spans (fuel : nat) (text : string) (chunk_size overlap : Z)
         (start : Z) : option (list (Z * Z)) :=
  if start <? len text then
    match fuel with
    | O => None
    | S fuel' =>
        let end_ := chunk_end text chunk_size start in
        match chunk_spans fuel' text chunk_size overlap (end_ - overlap) with
        | Some spans => Some ((start, end_) :: spans)
        | None => None
        end
    end
  else Some [].

(** What the loop makes of a list of spans: strip every slice and keep
    the non-empty ones. *)
Definition chunks_of_spans (text : string) (spans : list (Z * Z))
  : list string :=
  filter truthy
    (map (fun se => strip (slice text (fst se) (snd se))) spans).

(** Default parameters. *)
Definition default_chunk_size : Z := 500.
Definition default_overlap : Z := 50.

(** Putting chunks back together: every chunk after the first repeats
    the last [overlap] characters before it. *)
Definition drop (n : Z) (s : string) : string := slice s n (len s).

Definition reassemble (overlap : Z) (chunks : list string) : string :=
  match chunks with
  | [] => ""
  | c :: cs => c ++ String.concat "" (map (drop overlap) cs)
  end.

Definition covers (overlap : Z) (text : string) (chunks : list string)
  : Prop :=
  reassemble overlap chunks = text.

Definition slice_at (text : string) (se : Z * Z) : string :=
  slice text (fst se) (snd se).

(** Consecutive spans: each one starts [overlap] characters before the
    end of the one before it, the first at [start]. *)
Fixpoint chained (overlap start : Z) (spans : list (Z * Z)) : Prop :=
  match spans with
  | [] => True
  | se :: rest =>
      fst se = start /\ fst se < snd se
      /\ chained overlap (snd se - overlap) rest
  end.

(** The property of [chunk_text] as the specification words it: one
    trimmed chunk for a short text, chunks that cover the text for a
    long one. *)
Definition chunk_text_as_specified (text : string) (chunks : list string)
  : Prop :=
  if len text <=? default_chunk_size
  then chunks = [strip text]
  else covers default_overlap text chunks.

Definition spaces (n : nat) : string :=
  string_of_list_ascii (repeat " "%char n).

End Embeddings.

(* ===================================================================== *)
(** * Model access gateway: app/core/llm/groq_client.py *)
(* ===================================================================== *)

Module Gateway.
Import PyStr.
Export Py (exn, GroqClientError, IndexError).

(** A message dict as callers pass it ([role] and [content] may be
    missing), and the message objects handed to the backend. *)
Record message := { role : option string; content : option string }.

Inductive lc_message :=
| SystemMessage (c : string)
| HumanMessage (c : string)
| AIMessage (c : string).

(** What one call of [model.ainvoke] does: it answers with a content or
    raises; [Failure e] carries [str(e)]. *)
Inductive reply :=
| Response (c : string)
| Failure (e : string).

(** The returned dict of [invoke]. *)
Record result :=
  { result_content : string; model_used : string; success : bool }.

Inductive outcome :=
| Return (r : result)
| Raise (e : exn).

(** The models attempted, one entry per call of the backend, in order. *)
Definition log := list string.

Definition mem (x : string) (l : list string) : bool :=
  existsb (String.eqb x) l.

(** [set.add] *)
Definition add (x : string) (s : list string) : list string :=
  if mem x s then s else x :: s.

(** [list.index]: [None] stands for [ValueError]. *)
Fixpoint index (l : list string) (x : string) : option nat :=
  match l with
  | [] => None
  | y :: l' => if String.eqb y x then Some 0%nat
               else option_map S (index l' x)
  end.

(** The conversion loop at the head of [invoke]. *)
Definition to_lc_messages (system_prompt : option string)
           (messages : list message) : list lc_message :=
  ((match system_prompt with
    | Some p => if truthy p then [SystemMessage p] else []
    | None => []
    end)
   ++ flat_map
        (fun msg =>
           let role := match role msg with Some r => r | None => "user" end in
           let content := match content msg with Some c => c | None => "" end in
           if String.eqb role "user" then [HumanMessage content]
           else if String.eqb role "assistant" then [AIMessage content]
           else if String.eqb role "system" then [SystemMessage content]
           else [])
        messages)%list.

Section Client.

(** [clean_llm_response] rewrites the content with regular
    expressions; the properties below hold for whatever it returns. *)
Variable clean_llm_response : string -> string.

(** [self.models], the pool. *)
Variable models : list string.

(** The backend: the reply to the [n]-th call made during this
    invocation, for the model and messages of that call. *)
Variable backend : nat -> string -> list lc_message -> reply.

(** [random.choice(self.models)], [rnd] being the random draw. *)
Definition _get_random_model (rnd : nat) : exn + string :=
  match models with
  | [] => inl (IndexError "Cannot choose from an empty sequence")
  | _ => inr (nth (rnd mod List.length models) models "")
  end.

Definition _get_next_fallback_model (current : string) : option string :=
  match index models current with
  | Some current_idx =>
      let next_idx := ((current_idx + 1) mod List.length models)%nat in
      nth_error models next_idx
  | None => hd_error models
  end.

(** [stop_after_attempt(3)] *)
Definition stop_after_attempt : nat := 3.

(** The retrying wrapper: any exception is retried until the attempt
    number reaches [stop_after_attempt], then the last exception is
    raised again. [retries_left] is [stop_after_attempt] minus the
    number of the current attempt. *)
Fixpoint retrying (retries_left : nat) (model : string)
         (messages : list lc_message) (l : log) : reply * log :=
  match backend (List.length l) model messages with
  | Response c => (Response c, (l ++ [model])%list)
  | Failure e =>
      match retries_left with
      | O => (Failure e, (l ++ [model])%list)
      | S retries_left' =>
          retrying retries_left' model messages (l ++ [model])%list
      end
  end.

Definition _invoke_with_retry (model : string)
           (messages : list lc_message) (l : log) : reply * log :=
  retrying (stop_after_attempt - 1) model messages l.

(** The [while len(models_tried) < len(self.models)] loop. *)
Fixpoint invoke_loop (fuel : nat) (lc_messages : list lc_message)
         (selected_model : string) (models_tried : list string) (l : log)
  : option (outcome * log) :=
  if (List.length models_tried <? List.length models)%nat then
    match fuel with
    | O => None
    | S fuel' =>
        let models_tried := add selected_model models_tried in
        match _invoke_with_retry selected_model lc_messages l with
        | (Response c, l') =>
            Some (Return {| result_content := clean_llm_response c;
                            model_used := selected_model;
                            success := true |}, l')
        | (Failure e, l') =>
            let all_failed :=
              Raise (GroqClientError
                       ("All models failed. Last error: " ++ e)) in
            match _get_next_fallback_model selected_model with
            | Some next_model =>
                if truthy next_model && negb (mem next_model models_tried)
                then invoke_loop fuel' lc_messages next_model
                       models_tried l'
                else Some (all_failed, l')
            | None => Some (all_failed, l')
            end
        end
    end
  else Some (Raise (GroqClientError "No available models to try"), l).

(** [model_name or self._get_random_model()] *)
Definition select_model (model_name : option string) (rnd : nat)
  : exn + string :=
  match model_name with
  | Some m => if truthy m then inr m else _get_random_model rnd
  | None => _get_random_model rnd
  end.

Definition invoke (fuel : nat) (messages : list message)
           (system_prompt model_name : option string) (rnd : nat)
  : option (outcome * log) :=
  match select_model model_name rnd with
  | inl e => Some (Raise e, [])
  | inr selected_model =>
      invoke_loop fuel (to_lc_messages system_prompt messages)
        selected_model [] []
  end.

End Client.

(** The pool of app/config.py. *)
Definition groq_models : list string :=
  [ "llama-3.3-70b-versatile"; "llama-3.1-8b-instant"; "qwen/qwen3-32b";
    "openai/gpt-oss-120b"; "openai/gpt-oss-20b";
    "moonshotai/kimi-k2-instruct-0905"; "canopylabs/orpheus-v1-english";
    "canopylabs/orpheus-arabic-saudi"; "groq/compound";
    "groq/compound-mini" ].

(** A backend for this pool: the first model fails at every call, every
    other model answers. *)
Definition first_model_down (n : nat) (model : string)
           (lc : list lc_message) : reply :=
  if String.eqb model "llama-3.3-70b-versatile"
  then Failure "rate limit" else Response "ok".

(** The calls made for the models [ms] when each fails its three
    attempts. *)
Definition thrice (ms : list string) : log :=
  flat_map (fun m => [m; m; m]) ms.

(** The model at step [j] of the rotation through the pool [models] that
    starts at position [i0]. *)
Definition rotated (models : list string) (i0 j : nat) : string :=
  nth ((i0 + j) mod List.length models) models "".

(** A backend that fails at every call. *)
Definition all_models_down (n : nat) (model : string)
           (lc : list lc_message) : reply :=
  Failure "rate limit".

(** ** [clean_llm_response] *)

Definition think_open : string := "<think>".
Definition think_close : string := "</think>".

(** The index of the first occurrence of [sub] in [s]. *)
Fixpoint first_index (s sub : string) : option nat :=
  if startswith s sub then Some 0%nat
  else match s with
       | EmptyString => None
       | String _ s' => option_map S (first_index s' sub)
       end.

(** [re.sub(r'<think>.*?</think>', '', s, flags=re.DOTALL | re.IGNORECASE)].
    The scan goes from left to right; [skip] is the number of characters
    of the current match that are still to be dropped. A match starts at
    an opening tag, in any case, that a closing tag follows, and ends
    with the first such closing tag. *)
Fixpoint sub_think_blocks (skip : nat) (s : string) : string :=
  match s with
  | EmptyString => ""
  | String c s' =>
      match skip with
      | S skip' => sub_think_blocks skip' s'
      | O =>
          if startswith (lower s) think_open then
            match first_index (lower (substring 7 (String.length s) s))
                    think_close with
            | Some k => sub_think_blocks (6 + k + 8) s'
            | None => String c (sub_think_blocks 0 s')
            end
          else String c (sub_think_blocks 0 s')
      end
  end.

(** [re.sub(r'</?think>', '', s, flags=re.IGNORECASE)] *)
Fixpoint sub_think_tags (skip : nat) (s : string) : string :=
  match s with
  | EmptyString => ""
  | String c s' =>
      match skip with
      | S skip' => sub_think_tags skip' s'
      | O =>
          if startswith (lower s) think_open then sub_think_tags 6 s'
          else if startswith (lower s) think_close then sub_think_tags 7 s'
          else String c (sub_think_tags 0 s')
      end
  end.

(** The number of newlines [s] begins with. *)
Fixpoint newlines (s : string) : nat :=
  match s with
  | EmptyString => 0
  | String c s' =>
      if Ascii.eqb c (ascii_of_nat 10) then S (newlines s') else 0
  end.

(** [re.sub(r'\n{3,}', '\n\n', s)]: a match is a whole run of three or
    more newlines. *)
Fixpoint sub_blank_lines (skip : nat) (s : string) : string :=
  match s with
  | EmptyString => ""
  | String c s' =>
      match skip with
      | S skip' => sub_blank_lines skip' s'
      | O =>
          if (3 <=? newlines s)%nat
          then LF ++ LF ++ sub_blank_lines (newlines s - 1) s'
          else String c (sub_blank_lines 0 s')
      end
  end.

Definition clean_llm_response (text : string) : string :=
  if negb (truthy text) then text
  else
    let cleaned := sub_think_blocks 0 text in
    let cleaned := sub_think_tags 0 cleaned in
    let cleaned := sub_blank_lines 0 cleaned in
    strip cleaned.

(** The rest of [s] after the newlines it begins with. *)
Fixpoint drop_newlines (s : string) : string :=
  match s with
  | EmptyString => ""
  | String c s' =>
      if Ascii.eqb c (ascii_of_nat 10) then drop_newlines s' else s
  end.

(** No run of three newlines occurs in [s]. *)
Fixpoint blank_free (s : string) : bool :=
  match s with
  | EmptyString => true
  | String _ s' => (newlines s <? 3)%nat && blank_free s'
  end.

End Gateway.

(* ===================================================================== *)
(** * Calls to external collaborators *)
(* ===================================================================== *)

Module Effects.
Import Py.

Section Prog.

(** [call R] is the signature of the external calls that answer with a
    value of type [R] or raise. *)
Variable call : Type -> Type.

(** A computation that returns a value, raises, or makes an external call
    and goes on with its outcome. *)
Inductive prog (A : Type) : Type :=
| Ret (a : A)
| Raise (e : exn)
| Vis (R : Type) (c : call R) (k : exn + R -> prog A).

Arguments Ret {A} a.
Arguments Raise {A} e.
Arguments Vis {A} R c k.

Fixpoint bind {A B : Type} (p : prog A) (f : A -> prog B) : prog B :=
  match p with
  | Ret a => f a
  | Raise e => Raise e
  | Vis R c k => Vis R c (fun r => bind (k r) f)
  end.

(** [try: p except Exception as e: h e] *)
Fixpoint try_except {A : Type} (p : prog A) (h : exn -> prog A) : prog A :=
  match p with
  | Ret a => Ret a
  | Raise e => h e
  | Vis R c k => Vis R c (fun r => try_except (k r) h)
  end.

(** An awaited call: its exception, if any, propagates. *)
Definition perform {R : Type} (c : call R) : prog R :=
  Vis R c (fun r => match r with inl e => Raise e | inr v => Ret v end).

(** A pure step that may raise. *)
Definition lift {A : Type} (r : exn + A) : prog A :=
  match r with inl e => Raise e | inr a => Ret a end.

(** The outcome of [p], an exception caught. *)
Definition attempt {A : Type} (p : prog A) : prog (exn + A) :=
  try_except (bind p (fun a => Ret (inr a))) (fun e => Ret (inl e)).

(** [ensures p Q]: whatever the collaborators answer, [p] raises or
    returns a value that satisfies [Q]. *)
Fixpoint ensures {A : Type} (p : prog A) (Q : A -> Prop) : Prop :=
  match p with
  | Ret a => Q a
  | Raise _ => True
  | Vis R c k => forall r, ensures (k r) Q
  end.

(** The calls made, in order. *)
Record event := Event { event_type : Type; event_call : call event_type }.

(** The collaborators: the outcome of the [n]-th call of a run. *)
Definition env := nat -> forall R, call R -> exn + R.

Fixpoint run_from {A : Type} (h : env) (n : nat) (p : prog A)
  : (exn + A) * list event :=
  match p with
  | Ret a => (inr a, [])
  | Raise e => (inl e, [])
  | Vis R c k =>
      let (r, evs) := run_from h (S n) (k (h n R c)) in
      (r, Event R c :: evs)
  end.

Definition run {A : Type} (h : env) (p : prog A) : (exn + A) * list event :=
  run_from h 0%nat p.

(** [returns p Q]: whatever the collaborators answer, [p] does not raise
    and returns a value that satisfies [Q]. *)
Fixpoint returns {A : Type} (p : prog A) (Q : A -> Prop) : Prop :=
  match p with
  | Ret a => Q a
  | Raise _ => False
  | Vis R c k => forall r, returns (k r) Q
  end.

(** [returns_given assume p Q]: when every call is answered as [assume]
    says, [p] does not raise and returns a value that satisfies [Q]. *)
Fixpoint returns_given {A : Type}
         (assume : forall R, call R -> exn + R -> Prop)
         (p : prog A) (Q : A -> Prop) : Prop :=
  match p with
  | Ret a => Q a
  | Raise _ => False
  | Vis R c k => forall r, assume R c r -> returns_given assume (k r) Q
  end.

End Prog.

Arguments Ret {call A} a.
Arguments Raise {call A} e.
Arguments Vis {call A} R c k.
Arguments bind {call A B} p f.
Arguments try_except {call A} p h.
Arguments perform {call R} c.
Arguments lift {call A} r.
Arguments attempt {call A} p.
Arguments ensures {call A} p Q.
Arguments Event {call} event_type event_call.
Arguments run_from {call A} h n p.
Arguments run {call A} h p.
Arguments returns {call A} p Q.
Arguments returns_given {call A} assume p Q.

Declare Scope prog_scope.
Delimit Scope prog_scope with prog.
Notation "x <- p ;; k" := (bind p (fun x => k))
  (at level 61, p at next level, right associativity) : prog_scope.

End Effects.

Module Services.
Import Py.

(** The fields of a stored document the core reads. *)
Record DocumentModel :=
  { filename : string;
    raw_text : string;
    admin_corrections : option (list (string * pyval)) }.

(** The envelope a tool server answers with. *)
Record MCPToolResult :=
  { tool_success : bool; data : pyval; error : option string }.

Inductive call : Type -> Type :=
(** [get_groq_client().invoke(messages, system_prompt)]: the gateway *)
| GroqInvoke (messages : list Gateway.message)
             (system_prompt : option string) : call Gateway.result
(** [DocumentRepository.get_by_id] *)
| DocumentGetById (doc_id : pyval) : call (option DocumentModel)
(** [get_validation_server().execute_tool] *)
| ValidationExecuteTool (tool_name : string)
                        (args : list (string * pyval)) : call MCPToolResult
(** [list_invoices.ainvoke({})] *)
| ListInvoices : call (list (string * pyval))
(** [get_invoice_details.ainvoke] *)
| GetInvoiceDetails (document_id : pyval) : call (list (string * pyval))
(** [export_invoices] of app/core/tools/export_tool.py *)
| ExportInvoices (format vendor status date_range : pyval)
  : call (list (string * pyval))
(** [get_document_service().delete_document] *)
| DeleteDocument (doc_id : pyval) : call bool.

Definition is_gateway_call (ev : Effects.event call) : bool :=
  match Effects.event_call call ev with
  | GroqInvoke _ _ => true
  | _ => false
  end.

(** The calls that are neither the gateway nor a tool: lookups in the
    document store. *)
Definition is_store_lookup (ev : Effects.event call) : bool :=
  match Effects.event_call call ev with
  | DocumentGetById _ => true
  | _ => false
  end.

(** A deployment with an empty document store whose generation backend
    is down. *)
Definition empty_store_backend_down : Effects.env call :=
  fun _ R c =>
    match c in call R return exn + R with
    | GroqInvoke _ _ =>
        inl (GroqClientError "All models failed. Last error: unavailable")
    | DocumentGetById _ => inr None
    | ValidationExecuteTool _ _ =>
        inr {| tool_success := false; data := PNone;
               error := Some "Document not found" |}
    | ListInvoices =>
        inr [("success", PBool true); ("count", PInt 0);
             ("invoices", PList [])]
    | GetInvoiceDetails _ =>
        inr [("success", PBool false); ("error", PStr "Invoice not found")]
    | ExportInvoices _ _ _ _ =>
        inr [("success", PBool false); ("error", PStr "Export failed")]
    | DeleteDocument _ => inr false
    end.

(** The same deployment with a generation backend that answers every
    request with [content]. *)
Definition backend_answers (content : string) : Effects.env call :=
  fun n R c =>
    match c in call R return exn + R with
    | GroqInvoke _ _ =>
        inr {| Gateway.result_content := content;
               Gateway.model_used := "llama-3.1-8b-instant";
               Gateway.success := true |}
    | c' => empty_store_backend_down n _ c'
    end.

(** A deployment whose generation backend answers with [content] and
    whose document store rejects every id. *)
Definition store_rejects_ids (content : string) : Effects.env call :=
  fun n R c =>
    match c in call R return exn + R with
    | DocumentGetById _ => inl (InvalidId "not a valid ObjectId")
    | c' => backend_answers content n _ c'
    end.

End Services.

(* ===================================================================== *)
(** * Retrieval: app/db/repositories/embedding_repo.py and
      app/core/langchain/rag.py *)
(* ===================================================================== *)

Module Retrieval.
Import PyStr Py Effects Services.

(** Embedding vectors. The arithmetic of the similarity is the one of the
    real numbers: rounding is not modelled. *)
Definition vector := list R.

Record EmbeddingChunk :=
  { document_id : string;
    chunk_index : Z;
    chunk_text : string;
    embedding : vector }.

(** The [document_embeddings] collection, in insertion order. *)
Definition collection := list EmbeddingChunk.

(** [create_many] *)
Definition create_many (coll : collection) (embeddings : list EmbeddingChunk)
  : collection :=
  match embeddings with
  | [] => coll
  | _ => (coll ++ embeddings)%list
  end.

(** A stable sort, as the store and [list.sort] provide: [before y x]
    tells that [y] must come strictly before [x]; elements neither of
    which must come before the other keep their order. *)
Fixpoint insert_sorted {A : Type} (before : A -> A -> bool) (x : A)
         (l : list A) : list A :=
  match l with
  | [] => [x]
  | y :: l' =>
      if before y x then y :: insert_sorted before x l' else x :: l
  end.

Definition stable_sort {A : Type} (before : A -> A -> bool) (l : list A)
  : list A :=
  fold_right (insert_sorted before) [] l.

(** [a] may stand before [b]. *)
Definition ordered {A : Type} (before : A -> A -> bool) (a b : A) : Prop :=
  before b a = false.

(** [.sort("chunk_index", 1)]: ascending. *)
Definition sort_by_index (l : list EmbeddingChunk) : list EmbeddingChunk :=
  stable_sort (fun y c => chunk_index y <? chunk_index c) l.

Definition of_document (d : string) (c : EmbeddingChunk) : bool :=
  String.eqb (document_id c) d.

Definition get_by_document (coll : collection) (d : string)
  : list EmbeddingChunk :=
  sort_by_index (filter (of_document d) coll).

(** [delete_by_document]: the collection left and the deleted count. *)
Definition delete_by_document (coll : collection) (d : string)
  : collection * Z :=
  (filter (fun c => negb (of_document d c)) coll,
   Z.of_nat (List.length (filter (of_document d) coll))).

Fixpoint dot (a b : vector) : R :=
  match a, b with
  | x :: a', y :: b' => (x * y + dot a' b')%R
  | _, _ => 0%R
  end.

(** [np.dot] of two one-dimensional arrays: the shapes must agree. *)
Definition np_dot (a b : vector) : exn + R :=
  if (List.length a =? List.length b)%nat then inr (dot a b)
  else inl (ValueError "shapes not aligned").

(** [np.linalg.norm] *)
Definition norm (v : vector) : R := R_sqrt.sqrt (dot v v).

(** [1e-8] *)
Definition epsilon : R := (/ 100000000)%R.

Definition denominator (query_vec emb_vec : vector) : R :=
  (norm query_vec * norm emb_vec + epsilon)%R.

Definition cosine (query_vec emb_vec : vector) : exn + R :=
  match np_dot query_vec emb_vec with
  | inl e => inl e
  | inr d => inr (d / denominator query_vec emb_vec)%R
  end.

Fixpoint similarities (query_vec : vector) (embeddings : list EmbeddingChunk)
  : exn + list (R * EmbeddingChunk) :=
  match embeddings with
  | [] => inr []
  | emb :: rest =>
      match cosine query_vec (embedding emb) with
      | inl e => inl e
      | inr similarity =>
          match similarities query_vec rest with
          | inl e => inl e
          | inr l => inr ((similarity, emb) :: l)
          end
      end
  end.

(** [similarities.sort(key=lambda x: x[0], reverse=True)]: descending. *)
Definition greater (y x : R * EmbeddingChunk) : bool :=
  if Rlt_dec (fst x) (fst y) then true else false.

Definition sort_desc (l : list (R * EmbeddingChunk))
  : list (R * EmbeddingChunk) :=
  stable_sort greater l.

(** [l[:k]] *)
Definition take {A : Type} (k : Z) (l : list A) : list A :=
  firstn (Z.to_nat (clamp k (Z.of_nat (List.length l)))) l.

Definition similarity_search (coll : collection) (d : string)
           (query_embedding : vector) (top_k : Z)
  : exn + list EmbeddingChunk :=
  match get_by_document coll d with
  | [] => inr []
  | embeddings =>
      match similarities query_embedding embeddings with
      | inl e => inl e
      | inr sims => inr (map snd (take top_k (sort_desc sims)))
      end
  end.

(** The similarity of a stored chunk, where it is defined. *)
Definition score (query_vec : vector) (c : EmbeddingChunk) : R :=
  (dot query_vec (embedding c) / denominator query_vec (embedding c))%R.

Definition has_score (query_vec : vector) (v : R) (c : EmbeddingChunk)
  : bool :=
  if Req_dec_T (score query_vec c) v then true else false.

(** The chunks stored for a document id of any type. *)
Definition stored_chunks (coll : collection) (document_id : pyval)
  : list EmbeddingChunk :=
  match document_id with
  | PStr d => get_by_document coll d
  | _ => []
  end.

(** The fields of the result of [query] as the specification lists
    them. *)
Definition result_fields_as_specified (res : list (string * pyval)) : bool :=
  has res "answer" && has res "sources" && has res "chunks_used"
  && has res "model_used".

Fixpoint enumerate_from {A : Type} (i : Z) (l : list A) : list (Z * A) :=
  match l with
  | [] => []
  | x :: l' => (i, x) :: enumerate_from (i + 1) l'
  end.

Definition RAG_SYSTEM_PROMPT (context : string) : string :=
  "You are an AI assistant specialized in answering questions about invoices.
You MUST answer based ONLY on the provided context from the invoice document.
If the information is not in the context, say " ++ DQ
  ++ "This information is not available in the invoice." ++ DQ ++ "
Do NOT make up information. Be precise and cite specific values from the invoice.

Context from the invoice:
" ++ context ++ "

Answer the user's question based solely on this context.".

Definition not_indexed_answer : string :=
  "No relevant information found in this invoice. The document may not have been indexed yet.".

Definition not_indexed_response : list (string * pyval) :=
  [ ("answer", PStr not_indexed_answer);
    ("sources", PList []);
    ("model_used", PNone) ].

(** A collection with two chunks of one document. *)
Definition two_chunks : collection :=
  [ {| document_id := "doc"; chunk_index := 0; chunk_text := "Invoice 42";
       embedding := [1%R; 0%R] |};
    {| document_id := "doc"; chunk_index := 1; chunk_text := "Total: 10";
       embedding := [0%R; 1%R] |} ].

Section Pipeline.

(** [SentenceTransformer.encode] on one text. *)
Variable encode : string -> vector.

(** [str(v)] of the floats, lists and dicts. *)
Variable repr : pyval -> string.

Definition embed_text (text : string) : vector := encode text.
Definition embed_texts (texts : list string) : list vector := map encode texts.

(** [index_document]: the new collection and the returned count; [None]
    when [fuel] does not suffice for the chunker. *)
Definition index_document (fuel : nat) (coll : collection)
           (document_id : string) (text : string)
  : option (collection * Z) :=
  let coll := fst (delete_by_document coll document_id) in
  match Embeddings.chunk_text fuel text Embeddings.default_chunk_size
          Embeddings.default_overlap with
  | None => None
  | Some [] => Some (coll, 0)
  | Some chunks =>
      let embeddings := embed_texts chunks in
      let embedding_chunks :=
        map (fun ice =>
               {| document_id := document_id;
                  chunk_index := fst ice;
                  chunk_text := fst (snd ice);
                  embedding := snd (snd ice) |})
            (enumerate_from 0 (combine chunks embeddings)) in
      Some (create_many coll embedding_chunks,
            Z.of_nat (List.length embedding_chunks))
  end.

(** The chunks one call of [index_document] stores for [chunks]. *)
Definition generation (document_id : string) (chunks : list string)
  : list EmbeddingChunk :=
  map (fun ic =>
         {| document_id := document_id;
            chunk_index := fst ic;
            chunk_text := snd ic;
            embedding := encode (snd ic) |})
      (enumerate_from 0 chunks).

Definition admin_corrections_context (corrections : list (string * pyval))
  : string :=
  let corrections_list :=
    join LF (map (fun fv => "- " ++ fst fv ++ ": " ++ format repr (snd fv))
                 corrections) in
  "

---

IMPORTANT: Admin Corrections Applied to This Invoice
The following fields were manually corrected by an administrator:
" ++ corrections_list ++ "

When answering questions about these fields, mention BOTH the original value from the document AND the corrected value from the admin. Format: " ++ DQ
  ++ "The [field] in the document is [original], but an admin has corrected it to [corrected value]."
  ++ DQ ++ "
".

(** [query]. A stored chunk has a string for its document id, so a
    [document_id] that is no string matches no chunk. *)
Definition query (coll : collection) (document_id : pyval)
           (question : string) (top_k : Z)
  : prog call (list (string * pyval)) :=
  (document <- perform (DocumentGetById document_id) ;;
   let query_embedding := embed_text question in
   relevant_chunks <-
     match document_id with
     | PStr d => lift (similarity_search coll d query_embedding top_k)
     | _ => Ret []
     end ;;
   match relevant_chunks with
   | [] => Ret not_indexed_response
   | _ =>
       let context :=
         join (LF ++ LF ++ "---" ++ LF ++ LF)
              (map chunk_text relevant_chunks) in
       let context :=
         match document with
         | Some doc =>
             match admin_corrections doc with
             | Some (_ :: _ as corrections) =>
                 context ++ admin_corrections_context corrections
             | _ => context
             end
         | None => context
         end in
       let system_prompt := RAG_SYSTEM_PROMPT context in
       result <- perform
                   (GroqInvoke
                      [{| Gateway.role := Some "user";
                          Gateway.content := Some question |}]
                      (Some system_prompt)) ;;
       Ret [ ("answer", PStr (Gateway.result_content result));
             ("sources",
              PList (map (fun chunk =>
                            PStr (slice (chunk_text chunk) 0 100 ++ "..."))
                         relevant_chunks));
             ("model_used", PStr (Gateway.model_used result));
             ("chunks_used",
              PInt (Z.of_nat (List.length relevant_chunks)));
             ("has_admin_corrections",
              match document with
              | None => PNone
              | Some doc =>
                  PBool (match admin_corrections doc with
                         | Some _ => true
                         | None => false
                         end)
              end) ]
   end)%prog.

End Pipeline.

(** [get_document_context] *)
Definition get_document_context (coll : collection) (document_id : string)
           (max_chunks : Z) : string :=
  match get_by_document coll document_id with
  | [] => ""
  | chunks =>
      let chunks := take max_chunks (sort_by_index chunks) in
      join (LF ++ LF) (map chunk_text chunks)
  end.

(** A collection with the one chunk of a short document. *)
Definition one_chunk : collection :=
  [ {| document_id := "doc"; chunk_index := 0;
       chunk_text := "Invoice 42, total 10 EUR";
       embedding := [1%R; 0%R] |} ].

End Retrieval.

(* ===================================================================== *)
(** * Intent orchestrator: app/core/langgraph/state.py, nodes.py, graph.py *)
(* ===================================================================== *)

Module Orchestrator.
Import PyStr Py Effects Services.

(** [AgentState]. The fields declared [Optional] hold [PNone] or whatever
    a node assigns: assignments are not validated. *)
Record AgentState :=
  { user_message : string;
    session_id : string;
    document_id : pyval;
    intent : pyval;
    target_document_id : pyval;
    query_text : pyval;
    export_format : pyval;
    export_filters : pyval;
    tool_name : pyval;
    tool_args : pyval;
    tool_result : pyval;
    response : pyval;
    sources : pyval;
    download_url : pyval;
    error : pyval;
    needs_clarification : bool;
    clarification_question : pyval;
    model_used : pyval }.

Inductive field :=
| F_intent
| F_target_document_id
| F_export_format
| F_export_filters
| F_tool_name
| F_tool_args
| F_tool_result
| F_response
| F_sources
| F_download_url
| F_error
| F_clarification_question
| F_model_used.

(** [state.f = v] *)
Definition set (f : field) (v : pyval) (state : AgentState) : AgentState :=
  {| user_message := user_message state;
     session_id := session_id state;
     document_id := document_id state;
     intent := match f with F_intent => v | _ => intent state end;
     target_document_id := match f with F_target_document_id => v | _ => target_document_id state end;
     query_text := query_text state;
     export_format := match f with F_export_format => v | _ => export_format state end;
     export_filters := match f with F_export_filters => v | _ => export_filters state end;
     tool_name := match f with F_tool_name => v | _ => tool_name state end;
     tool_args := match f with F_tool_args => v | _ => tool_args state end;
     tool_result := match f with F_tool_result => v | _ => tool_result state end;
     response := match f with F_response => v | _ => response state end;
     sources := match f with F_sources => v | _ => sources state end;
     download_url := match f with F_download_url => v | _ => download_url state end;
     error := match f with F_error => v | _ => error state end;
     needs_clarification := needs_clarification state;
     clarification_question := match f with F_clarification_question => v | _ => clarification_question state end;
     model_used := match f with F_model_used => v | _ => model_used state end |}.

(** [state.needs_clarification = b] *)
Definition set_needs_clarification (b : bool) (state : AgentState)
  : AgentState :=
  {| user_message := user_message state;
     session_id := session_id state;
     document_id := document_id state;
     intent := intent state;
     target_document_id := target_document_id state;
     query_text := query_text state;
     export_format := export_format state;
     export_filters := export_filters state;
     tool_name := tool_name state;
     tool_args := tool_args state;
     tool_result := tool_result state;
     response := response state;
     sources := sources state;
     download_url := download_url state;
     error := error state;
     needs_clarification := b;
     clarification_question := clarification_question state;
     model_used := model_used state |}.

(** The state [run_agent] starts from. *)
Definition initial_state (message session_id : string)
           (document_id : option string) : AgentState :=
  {| user_message := message;
     session_id := session_id;
     document_id := of_option document_id;
     intent := PNone;
     target_document_id := PNone;
     query_text := PNone;
     export_format := PNone;
     export_filters := PDict [];
     tool_name := PNone;
     tool_args := PDict [];
     tool_result := PNone;
     response := PNone;
     sources := PList [];
     download_url := PNone;
     error := PNone;
     needs_clarification := false;
     clarification_question := PNone;
     model_used := PNone |}.

Definition INTENT_CLASSIFICATION_PROMPT (message document_context : string)
  : string :=
  "You are an intent classifier for an invoice management system.
Classify the user's message into one of these intents:

- validate_invoice: User wants to validate an invoice (check for errors, verify correctness)
- force_validate: User wants to force validate an invoice despite errors (admin override, mark as valid)
- query_document: User is asking a question about a specific invoice's content (e.g., " ++ DQ ++ "What is the total?" ++ DQ ++ ", " ++ DQ ++ "Who is the vendor?" ++ DQ ++ ")
- list_documents: User wants to see a list of their invoices
- get_document_details: User wants details about a specific invoice
- delete_document: User wants to delete an invoice
- export_invoices: User wants to export/download invoices to CSV or Excel (e.g., " ++ DQ ++ "Export all invoices" ++ DQ ++ ", " ++ DQ ++ "Download my invoices as Excel" ++ DQ ++ ")
- general_chat: General conversation or questions not specific to invoice operations
- unclear: The intent is not clear and needs clarification

If the user mentions a specific invoice by ID or name, extract it.
For export requests, extract the format (csv/excel) and any filters (vendor, status, date).

Respond with JSON only:
{
    " ++ DQ ++ "intent" ++ DQ ++ ": " ++ DQ ++ "one of the intents above" ++ DQ ++ ",
    " ++ DQ ++ "document_id" ++ DQ ++ ": " ++ DQ ++ "extracted document ID if any, else null" ++ DQ ++ ",
    " ++ DQ ++ "export_format" ++ DQ ++ ": " ++ DQ ++ "csv or excel if export intent, else null" ++ DQ ++ ",
    " ++ DQ ++ "export_filters" ++ DQ ++ ": {" ++ DQ ++ "vendor" ++ DQ ++ ": " ++ DQ ++ "vendor name if specified" ++ DQ ++ ", " ++ DQ ++ "status" ++ DQ ++ ": " ++ DQ ++ "status if specified" ++ DQ ++ "},
    " ++ DQ ++ "reasoning" ++ DQ ++ ": " ++ DQ ++ "brief explanation" ++ DQ ++ "
}

User message: "
  ++ message ++ "
Current document context: "
  ++ document_context.

Definition general_chat_system_prompt : string :=
  "You are a helpful assistant for an invoice management system.
You can help users with:
- Uploading and managing invoices
- Validating invoice correctness
- Answering questions about specific invoices
- General questions about invoice management

Be helpful, concise, and professional.".

Definition capability_summary : string :=
  "I'm here to help you with invoice management. Here's what I can do:

📤 **Upload Invoices** - Upload PDF invoices for processing
✅ **Validate Invoices** - Check invoices for completeness and accuracy
💬 **Ask Questions** - Query specific invoice details using natural language
📋 **List Invoices** - View all your uploaded invoices
📊 **Export Data** - Export invoices to CSV or Excel

Try asking something like " ++ DQ ++ "List all my invoices" ++ DQ ++ " or upload a document to get started!".

Definition user (text : string) : Gateway.message :=
  {| Gateway.role := Some "user"; Gateway.content := Some text |}.

(** The keyword heuristics that stand in for a classification that does
    not parse. *)
Definition keyword_classification (user_message : string) : pyval :=
  let m := lower user_message in
  if contains m "list" && contains m "invoice"
  then PDict [("intent", PStr "list_documents")]
  else if contains m "export" || contains m "download"
  then
    let export_format := if contains m "excel" then "excel" else "csv" in
    PDict [("intent", PStr "export_invoices");
           ("export_format", PStr export_format)]
  else if contains m "validate"
  then PDict [("intent", PStr "validate_invoice")]
  else if contains m "delete"
  then PDict [("intent", PStr "delete_document")]
  else if contains m "detail" || contains m "show"
  then PDict [("intent", PStr "get_document_details")]
  else PDict [("intent", PStr "general_chat")].

(** The condition of the fast path of [classify_intent_node]. *)
Definition is_export_request (message_lower : string) : bool :=
  contains message_lower "export"
  || (contains message_lower "download" && contains message_lower "invoice").

(** The export format as the fast path infers it. *)
Definition fast_path_format (message_lower : string) : string :=
  if contains message_lower "excel" || contains message_lower "xlsx"
  then "excel" else "csv".

(** [needs_clarification] and the question of a handler. *)
Definition clarify (question : string) (state : AgentState) : AgentState :=
  set F_clarification_question (PStr question)
    (set_needs_clarification true state).

Definition validation_question : string :=
  "Which invoice would you like me to validate? Please provide the invoice ID or filename.".
Definition force_validate_question : string :=
  "Which invoice would you like me to force validate? Please provide the invoice ID.".
Definition delete_question : string :=
  "Which invoice would you like to delete? Please provide the invoice ID or filename.".
Definition rag_query_question : string :=
  "Which invoice are you asking about? Please select an invoice first.".
Definition get_details_question : string :=
  "Which invoice would you like details about? Please provide the invoice ID or select one.".

Section Nodes.

(** [str(v)] of the floats, lists and dicts. *)
Variable repr : pyval -> string.

(** The text handed to [json.loads]: the content without its code fence,
    stripped, cut down to the first brace group when there is one. *)
Variable extract_json_text : string -> string.

(** [json.loads]: [None] stands for [JSONDecodeError]. *)
Variable json_loads : string -> option pyval.

(** The stored chunks and the embedding model of the retrieval
    pipeline. *)
Variable coll : Retrieval.collection.
Variable encode : string -> Retrieval.vector.

Local Abbreviation format := (Py.format repr).

(** The call of the gateway that asks for a classification. *)
Definition classification_request (state : AgentState)
  : call Gateway.result :=
  let document_context :=
    if truthy (document_id state)
    then "User is viewing document: " ++ format (document_id state)
    else "No specific document selected" in
  let prompt :=
    INTENT_CLASSIFICATION_PROMPT (user_message state) document_context in
  GroqInvoke [user prompt]
    (Some "You are a precise intent classifier. Respond only with valid JSON.").

(** What the handler of the outer [try] leaves. *)
Definition classification_failed (state : AgentState) : AgentState :=
  set F_error PNone (set F_intent (PStr "general_chat") state).

Definition classify_intent_node (state : AgentState) : prog call AgentState :=
  let message_lower := lower (user_message state) in
  if is_export_request message_lower then
    let export_format := fast_path_format message_lower in
    Ret (set F_export_filters (PDict [])
           (set F_export_format (PStr export_format)
              (set F_intent (PStr "export_invoices") state)))
  else
    try_except
      (result <- perform (classification_request state) ;;
       let response_text :=
         extract_json_text (Gateway.result_content result) in
       let classification :=
         match json_loads response_text with
         | Some v => v
         | None => keyword_classification (user_message state)
         end in
       intent <- lift (getattr_get classification "intent"
                         (PStr "general_chat")) ;;
       document <- lift (getattr_get classification "document_id" PNone) ;;
       export_format <- lift (getattr_get classification "export_format"
                                PNone) ;;
       export_filters <- lift (getattr_get classification "export_filters"
                                 (PDict [])) ;;
       Ret (set F_model_used (PStr (Gateway.model_used result))
              (set F_export_filters export_filters
                 (set F_export_format export_format
                    (set F_target_document_id
                       (or_ document (document_id state))
                       (set F_intent intent state))))))%prog
      (fun e => Ret (classification_failed state)).

(** [f"- [{i['severity']}] **{i['field']}**: {i['message']}"] *)
Definition render_issue (i : pyval) : exn + string :=
  (severity <~ getitem i "severity" ;;
   field <~ getitem i "field" ;;
   message <~ getitem i "message" ;;
   inr ("- [" ++ format severity ++ "] **" ++ format field ++ "**: "
        ++ format message))%exn.

Definition validation_node (state : AgentState) : prog call AgentState :=
  let state := set F_tool_name (PStr "validate_invoice") state in
  if negb (truthy (target_document_id state)) then
    Ret (clarify validation_question state)
  else
    (result <- perform
                 (ValidationExecuteTool "validate_invoice"
                    [("document_id", target_document_id state)]) ;;
     state <-
       (if tool_success result then
          let data := data result in
          lift
            (valid <~ getattr_get data "valid" PNone ;;
             if truthy valid then
               inr (set F_response
                      (PStr ("✅ **Invoice is valid!**" ++ LF ++ LF
                             ++ "No issues found with this invoice."))
                      state)
             else
               issues <~ getattr_get data "issues" (PList []) ;;
               items <~ iterate issues ;;
               lines <~ traverse render_issue items ;;
               let text := "⚠️ **Issues found in invoice:**" ++ LF ++ LF
                           ++ join LF lines in
               needs_review <~ getattr_get data "needs_review" PNone ;;
               if truthy needs_review then
                 reason <~ getattr_get data "review_reason"
                             (PStr "Some aspects need human verification.") ;;
                 inr (set F_response
                        (PStr (text ++ LF ++ LF
                               ++ "**Manual review recommended:** "
                               ++ format reason))
                        state)
               else inr (set F_response (PStr text) state))%exn
        else Ret (set F_error (of_option (Services.error result)) state)) ;;
     Ret (set F_tool_args
            (PDict [("document_id", target_document_id state)]) state))%prog.

Definition force_validate_node (state : AgentState) : prog call AgentState :=
  let state := set F_tool_name (PStr "force_validate_document") state in
  if negb (truthy (target_document_id state)) then
    Ret (clarify force_validate_question state)
  else
    (result <- perform
                 (ValidationExecuteTool "force_validate_document"
                    [("document_id", target_document_id state);
                     ("corrections", PDict []);
                     ("admin_notes", PStr "Force validated via chat")]) ;;
     if tool_success result then
       message <- lift (getattr_get (data result) "message"
                          (PStr "The invoice has been marked as valid.")) ;;
       Ret (set F_response
              (PStr ("✅ **Invoice force validated!**" ++ LF ++ LF
                     ++ format message))
              state)
     else Ret (set F_error (of_option (Services.error result)) state))%prog.

Definition delete_document_node (state : AgentState) : prog call AgentState :=
  let state := set F_tool_name (PStr "delete_document") state in
  if negb (truthy (target_document_id state)) then
    Ret (clarify delete_question state)
  else
    (document <- perform (DocumentGetById (target_document_id state)) ;;
     match document with
     | None => Ret (set F_error (PStr "Document not found") state)
     | Some document =>
         let filename := filename document in
         success <- perform (DeleteDocument (target_document_id state)) ;;
         if success : bool then
           Ret (set F_response
                  (PStr ("🗑️ **Invoice deleted!**" ++ LF ++ LF
                         ++ "The invoice '" ++ filename
                         ++ "' has been permanently deleted."))
                  state)
         else Ret (set F_error (PStr "Failed to delete document") state)
     end)%prog.

Definition rag_query_node (state : AgentState) : prog call AgentState :=
  let state := set F_tool_name (PStr "query_document") state in
  let doc_id := or_ (target_document_id state) (document_id state) in
  if negb (truthy doc_id) then
    Ret (clarify rag_query_question state)
  else
    try_except
      (result <- Retrieval.query encode repr coll doc_id
                   (user_message state) 3 ;;
       answer <- lift (getitem (PDict result) "answer") ;;
       Ret (set F_tool_result (PDict result)
              (set F_model_used (get result "model_used" PNone)
                 (set F_sources (get result "sources" (PList []))
                    (set F_response answer state)))))%prog
      (fun e => Ret (set F_error (PStr (str_of_exn e)) state)).

(** [f"- **{inv['filename']}** (ID: {inv['id']}) - Status: {inv['status']}"] *)
Definition render_invoice (inv : pyval) : exn + string :=
  (filename <~ getitem inv "filename" ;;
   id <~ getitem inv "id" ;;
   status <~ getitem inv "status" ;;
   inr ("- **" ++ format filename ++ "** (ID: " ++ format id
        ++ ") - Status: " ++ format status))%exn.

Definition list_documents_node (state : AgentState) : prog call AgentState :=
  let state := set F_tool_name (PStr "list_invoices") state in
  let failed state e := set F_error (PStr (str_of_exn e)) state in
  (r <- attempt (perform ListInvoices) ;;
   match r with
   | inl e => Ret (failed state e)
   | inr result =>
       let state := set F_tool_result (PDict result) state in
       if truthy (get result "success" PNone) then
         let invoices := get result "invoices" (PList []) in
         if truthy invoices then
           match (items <~ iterate invoices ;;
                  traverse render_invoice items)%exn with
           | inl e => Ret (failed state e)
           | inr lines =>
               Ret (set F_response
                      (PStr ("Here are your uploaded invoices:" ++ LF ++ LF
                             ++ join LF lines))
                      state)
           end
         else
           Ret (set F_response
                  (PStr "You don't have any invoices uploaded yet. Use the upload feature to add invoices.")
                  state)
       else
         Ret (set F_error
                (get result "error" (PStr "Failed to list invoices")) state)
   end)%prog.

(** [f"- [{issue['severity']}] {issue['field']}: {issue['message']}\n"] *)
Definition render_detail_issue (issue : pyval) : exn + string :=
  (severity <~ getitem issue "severity" ;;
   field <~ getitem issue "field" ;;
   message <~ getitem issue "message" ;;
   inr ("- [" ++ format severity ++ "] " ++ format field ++ ": "
        ++ format message ++ LF))%exn.

(** The text [get_details_node] builds from the result of the tool. *)
Definition render_details (result : list (string * pyval)) : exn + string :=
  (let inv := get result "invoice" (PDict []) in
   metadata <~ getattr_get inv "metadata" (PDict []) ;;
   filename <~ getattr_get inv "filename" (PStr "N/A") ;;
   status <~ getattr_get inv "status" (PStr "N/A") ;;
   vendor <~ getattr_get metadata "vendor" (PStr "N/A") ;;
   invoice_number <~ getattr_get metadata "invoice_number" (PStr "N/A") ;;
   date <~ getattr_get metadata "date" (PStr "N/A") ;;
   currency <~ getattr_get metadata "currency" (PStr "$") ;;
   total <~ getattr_get metadata "total" (PStr "N/A") ;;
   let details :=
     "**Invoice Details**" ++ LF ++ LF
     ++ "- **Filename:** " ++ format filename ++ LF
     ++ "- **Status:** " ++ format status ++ LF
     ++ "- **Vendor:** " ++ format vendor ++ LF
     ++ "- **Invoice Number:** " ++ format invoice_number ++ LF
     ++ "- **Date:** " ++ format date ++ LF
     ++ "- **Total:** " ++ format currency ++ format total ++ LF in
   has_validation <~ getattr_get inv "validation" PNone ;;
   if truthy has_validation then
     validation <~ getitem inv "validation" ;;
     valid <~ getattr_get validation "valid" PNone ;;
     let details :=
       details ++ LF ++ "**Validation:** "
       ++ (if truthy valid then "✓ Valid" else "✗ Invalid") in
     has_issues <~ getattr_get validation "issues" PNone ;;
     if truthy has_issues then
       issues <~ getitem validation "issues" ;;
       items <~ iterate issues ;;
       lines <~ traverse render_detail_issue items ;;
       inr (details ++ LF ++ "**Issues:**" ++ LF ++ String.concat "" lines)
     else inr details
   else inr details)%exn.

Definition get_details_node (state : AgentState) : prog call AgentState :=
  let state := set F_tool_name (PStr "get_invoice_details") state in
  let doc_id := or_ (target_document_id state) (document_id state) in
  let failed state e := set F_error (PStr (str_of_exn e)) state in
  if negb (truthy doc_id) then
    Ret (clarify get_details_question state)
  else
    (r <- attempt (perform (GetInvoiceDetails doc_id)) ;;
     match r with
     | inl e => Ret (failed state e)
     | inr result =>
         let state := set F_tool_result (PDict result) state in
         if truthy (get result "success" PNone) then
           match render_details result with
           | inl e => Ret (failed state e)
           | inr details => Ret (set F_response (PStr details) state)
           end
         else
           Ret (set F_error
                  (get result "error" (PStr "Failed to get invoice details"))
                  state)
     end)%prog.

Definition general_chat_node (state : AgentState) : prog call AgentState :=
  let state := set F_tool_name (PStr "general_chat") state in
  try_except
    (result <- perform
                 (GroqInvoke [user (user_message state)]
                    (Some general_chat_system_prompt)) ;;
     Ret (set F_model_used (PStr (Gateway.model_used result))
            (set F_response (PStr (Gateway.result_content result)) state)))%prog
    (fun e => Ret (set F_error PNone
                     (set F_response (PStr capability_summary) state))).

Definition export_invoices_node (state : AgentState) : prog call AgentState :=
  let state := set F_tool_name (PStr "export_invoices") state in
  let failed state e :=
    set F_response (PStr ("❌ Export failed: " ++ str_of_exn e))
      (set F_error (PStr (str_of_exn e)) state) in
  let export_format := or_ (export_format state) (PStr "csv") in
  let filters := or_ (export_filters state) (PDict []) in
  match (vendor <~ getattr_get filters "vendor" PNone ;;
         status <~ getattr_get filters "status" PNone ;;
         date_range <~ getattr_get filters "date_range" PNone ;;
         inr (vendor, status, date_range))%exn with
  | inl e => Ret (failed state e)
  | inr (vendor, status, date_range) =>
      (r <- attempt (perform (ExportInvoices export_format vendor status
                                date_range)) ;;
       match r with
       | inl e => Ret (failed state e)
       | inr result =>
           if truthy (get result "success" PNone) then
             let state :=
               set F_download_url (get result "download_url" PNone) state in
             match upper export_format with
             | inl e => Ret (failed state e)
             | inr format_upper =>
                 Ret (set F_response
                        (PStr ("📥 **Export Complete!**" ++ LF ++ LF
                               ++ "I've exported **"
                               ++ format (get result "invoice_count" (PInt 0))
                               ++ " invoices** to " ++ format_upper
                               ++ " format." ++ LF ++ LF
                               ++ "**Download Link:** [Click here to download]("
                               ++ format (get result "download_url" PNone)
                               ++ ")" ++ LF ++ LF
                               ++ "Filters applied:" ++ LF
                               ++ (if truthy vendor
                                   then "- Vendor: " ++ format vendor
                                   else "- All vendors") ++ LF
                               ++ (if truthy status
                                   then "- Status: " ++ format status
                                   else "- All statuses") ++ LF))
                        state)
             end
           else
             let state :=
               set F_error (get result "error" (PStr "Export failed")) state in
             Ret (set F_response
                    (PStr ("❌ Export failed: " ++ format (error state)))
                    state)
       end)%prog
  end.

Definition fallback_node (state : AgentState) : prog call AgentState :=
  if needs_clarification state then
    Ret (set F_response
           (or_ (clarification_question state)
              (PStr "I'm not sure what you're asking. Could you please clarify?"))
           state)
  else if truthy (error state) then
    Ret (set F_response
           (PStr ("I encountered an issue: " ++ format (error state)
                  ++ ". Please try again or rephrase your request."))
           state)
  else
    Ret (set F_response
           (PStr ("I'm not sure how to help with that. You can ask me to:"
                  ++ LF ++ "- List your invoices" ++ LF
                  ++ "- Validate an invoice" ++ LF
                  ++ "- Answer questions about a specific invoice" ++ LF
                  ++ "- Get invoice details"))
           state).

Definition response_node (state : AgentState) : prog call AgentState :=
  if negb (truthy (response state)) then
    if truthy (error state) then
      Ret (set F_response
             (PStr ("Sorry, something went wrong: " ++ format (error state)))
             state)
    else
      Ret (set F_response
             (PStr "I processed your request but have no response to show.")
             state)
  else Ret state.

(** ** The graph *)

Inductive node :=
| n_classify_intent
| n_validation
| n_force_validate
| n_delete_document
| n_export_invoices
| n_rag_query
| n_list_documents
| n_get_details
| n_general_chat
| n_fallback
| n_response
| n_END.

Definition intent_to_node : list (string * node) :=
  [ ("validate_invoice", n_validation);
    ("force_validate", n_force_validate);
    ("delete_document", n_delete_document);
    ("export_invoices", n_export_invoices);
    ("query_document", n_rag_query);
    ("list_documents", n_list_documents);
    ("get_document_details", n_get_details);
    ("general_chat", n_general_chat);
    ("unclear", n_fallback) ].

Fixpoint lookup_node (key : string) (table : list (string * node))
  : option node :=
  match table with
  | [] => None
  | (k, n) :: table' =>
      if String.eqb k key then Some n else lookup_node key table'
  end.

(** [route_by_intent]. Looking up a list or a dict in [intent_to_node]
    raises: they are not hashable. *)
Definition route_by_intent (state : AgentState) : exn + node :=
  if truthy (error state) || needs_clarification state then inr n_fallback
  else
    match intent state with
    | PStr s =>
        match lookup_node s intent_to_node with
        | Some n => inr n
        | None => inr n_fallback
        end
    | PList _ => inl (TypeError "unhashable type: 'list'")
    | PDict _ => inl (TypeError "unhashable type: 'dict'")
    | _ => inr n_fallback
    end.

Definition should_respond (state : AgentState) : node :=
  if truthy (error state) || needs_clarification state then n_fallback
  else n_response.

(** The function of each node ([add_node]). *)
Definition node_function (n : node) : AgentState -> prog call AgentState :=
  match n with
  | n_classify_intent => classify_intent_node
  | n_validation => validation_node
  | n_force_validate => force_validate_node
  | n_delete_document => delete_document_node
  | n_export_invoices => export_invoices_node
  | n_rag_query => rag_query_node
  | n_list_documents => list_documents_node
  | n_get_details => get_details_node
  | n_general_chat => general_chat_node
  | n_fallback => fallback_node
  | n_response => response_node
  | n_END => fun state => Ret state
  end.

(** The edges of [build_agent_graph]: the node that runs after [n] has
    returned [state]. *)
Definition next_node (n : node) (state : AgentState) : exn + node :=
  match n with
  | n_classify_intent => route_by_intent state
  | n_validation | n_force_validate | n_delete_document | n_export_invoices
  | n_rag_query | n_list_documents | n_get_details | n_general_chat =>
      inr (should_respond state)
  | n_fallback => inr n_response
  | n_response => inr n_END
  | n_END => inr n_END
  end.

(** Running the graph from node [n]: the final state and the nodes that
    ran, in order; [None] when [fuel] steps did not reach [END]. *)
Fixpoint run_graph (fuel : nat) (n : node) (state : AgentState)
  : prog call (option (AgentState * list node)) :=
  match n with
  | n_END => Ret (Some (state, []))
  | _ =>
      match fuel with
      | O => Ret None
      | S fuel' =>
          (state' <- node_function n state ;;
           n' <- lift (next_node n state') ;;
           rest <- run_graph fuel' n' state' ;;
           Ret (option_map (fun sp => (fst sp, n :: snd sp)) rest))%prog
      end
  end.

(** [run_agent]: an exception of the run is logged and raised again. *)
Definition run_agent (fuel : nat) (message session_id : string)
           (document_id : option string)
  : prog call (option (AgentState * list node)) :=
  run_graph fuel n_classify_intent
    (initial_state message session_id document_id).

End Nodes.

(** Parameters for concrete runs: values rendered as the empty string,
    the whole content handed to [json.loads], a [json.loads] that rejects
    its input, an embedding model with vectors of length 0. *)
Definition no_repr : pyval -> string := fun _ => "".
Definition whole_text : string -> string := fun s => s.
Definition never_parses : string -> option pyval := fun _ => None.
Definition no_encoder : string -> Retrieval.vector := fun _ => [].

(** A [json.loads] for a classifier that asks to delete document
    [abc]. *)
Definition parses_delete_abc : string -> option pyval :=
  fun _ => Some (PDict [("intent", PStr "delete_document");
                        ("document_id", PStr "abc")]).

(** The response and the clarification question are unset or strings. *)
Definition is_text (v : pyval) : Prop := v = PNone \/ exists text, v = PStr text.

Definition response_is_text (state : AgentState) : Prop :=
  is_text (response state) /\ is_text (clarification_question state).

(** A finished run: the last node that ran is [response] and the final
    state has a non-empty response string. *)
Definition ends_in_response (state : AgentState) (path : list node) : Prop :=
  last path n_END = n_response
  /\ exists text, response state = PStr text /\ text <> "".

(** The result of a run from node [n] that finished. *)
Definition finished_from (n : node)
           (r : option (AgentState * list node)) : Prop :=
  exists state path,
    r = Some (state, n :: path) /\ ends_in_response state (n :: path).

(** The outcome of a run that reached the response node. *)
Definition reaches_response (out : exn + option (AgentState * list node))
  : Prop :=
  exists state path, out = inr (Some (state, path))
                     /\ ends_in_response state path.

(** The state a handler is entered with after a classification that
    found no document: no target and no ambient document. *)
Definition no_document (state : AgentState) : Prop :=
  truthy (target_document_id state) = false
  /\ truthy (document_id state) = false.

(** The per-document handlers with their tool names and questions. *)
Inductive per_document_handler :=
| h_validation
| h_force_validate
| h_delete_document
| h_get_details
| h_rag_query.

Definition handler_tool_name (h : per_document_handler) : string :=
  match h with
  | h_validation => "validate_invoice"
  | h_force_validate => "force_validate_document"
  | h_delete_document => "delete_document"
  | h_get_details => "get_invoice_details"
  | h_rag_query => "query_document"
  end.

Definition handler_question (h : per_document_handler) : string :=
  match h with
  | h_validation => validation_question
  | h_force_validate => force_validate_question
  | h_delete_document => delete_question
  | h_get_details => get_details_question
  | h_rag_query => rag_query_question
  end.

Definition handler_node (h : per_document_handler) : node :=
  match h with
  | h_validation => n_validation
  | h_force_validate => n_force_validate
  | h_delete_document => n_delete_document
  | h_get_details => n_get_details
  | h_rag_query => n_rag_query
  end.

(** The nodes whose calls are not inside a [try]. *)
Definition unguarded (n : node) : bool :=
  match n with
  | n_validation | n_force_validate | n_delete_document => true
  | _ => false
  end.

(** The nodes [route_by_intent] chooses among, [fallback] apart. *)
Definition is_handler (n : node) : bool :=
  match n with
  | n_validation | n_force_validate | n_delete_document | n_export_invoices
  | n_rag_query | n_list_documents | n_get_details | n_general_chat => true
  | _ => false
  end.

(** The paths of the graph from its entry point to [END]. *)
Definition graph_path (path : list node) : Prop :=
  path = [n_classify_intent; n_fallback; n_response]
  \/ exists hd,
      is_handler hd = true
      /\ (path = [n_classify_intent; hd; n_response]
          \/ path = [n_classify_intent; hd; n_fallback; n_response]).

(** The response [fallback_node] writes. *)
Definition fallback_response (repr : pyval -> string) (state : AgentState)
  : pyval :=
  if needs_clarification state then
    or_ (clarification_question state)
      (PStr "I'm not sure what you're asking. Could you please clarify?")
  else if truthy (error state) then
    PStr ("I encountered an issue: " ++ format repr (error state)
          ++ ". Please try again or rephrase your request.")
  else
    PStr ("I'm not sure how to help with that. You can ask me to:"
          ++ LF ++ "- List your invoices" ++ LF
          ++ "- Validate an invoice" ++ LF
          ++ "- Answer questions about a specific invoice" ++ LF
          ++ "- Get invoice details").

(** ** The text handed to [json.loads] *)

(** [s.split(sep)[0]]: the text before the first occurrence of [sep],
    all of [s] when there is none. *)
Fixpoint before (s sep : string) : string :=
  if startswith s sep then ""
  else match s with
       | EmptyString => ""
       | String c s' => String c (before s' sep)
       end.

(** The text after the first occurrence of [sep]. *)
Fixpoint after (s sep : string) : option string :=
  if startswith s sep
  then Some (substring (String.length sep) (String.length s) s)
  else match s with
       | EmptyString => None
       | String _ s' => after s' sep
       end.

(** [s.split(sep)[1]], for [sep in s]: the text between the first
    occurrence of [sep] and the next one. *)
Definition second_part (s sep : string) : string :=
  match after s sep with
  | Some rest => before rest sep
  | None => ""
  end.

Definition fence : string := "```".
Definition json_fence : string := "```json".

(** A match of [[^{}]*\}] at the head of [s]. *)
Fixpoint brace_body (s : string) : option string :=
  match s with
  | EmptyString => None
  | String c s' =>
      if Ascii.eqb c "}" then Some "}"
      else if Ascii.eqb c "{" then None
      else option_map (String c) (brace_body s')
  end.

(** [re.search(r'\{[^{}]*\}', s, re.DOTALL)]: the leftmost match. *)
Fixpoint search_object (s : string) : option string :=
  match s with
  | EmptyString => None
  | String c s' =>
      if Ascii.eqb c "{" then
        match brace_body s' with
        | Some body => Some (String "{" body)
        | None => search_object s'
        end
      else search_object s'
  end.

(** The text [classify_intent_node] hands to [json.loads]. *)
Definition extract_json_text (response_text : string) : string :=
  let response_text :=
    if contains response_text json_fence
    then before (second_part response_text json_fence) fence
    else if contains response_text fence
    then before (second_part response_text fence) fence
    else response_text in
  let response_text := strip response_text in
  match search_object response_text with
  | Some json_match => json_match
  | None => response_text
  end.

(** No brace occurs in [s]. *)
Definition brace_free (s : string) : bool :=
  negb (contains s "{") && negb (contains s "}").

(** A [json.loads] that reads one object, the filter on the vendor
    Acme, and rejects every other text. *)
Definition parses_vendor_filter (text : string) : option pyval :=
  if String.eqb text
       ("{" ++ DQ ++ "vendor" ++ DQ ++ ": " ++ DQ ++ "Acme" ++ DQ ++ "}")
  then Some (PDict [("vendor", PStr "Acme")])
  else None.

(** A classification that follows the template of the prompt. *)
Definition nested_classification : string :=
  "{" ++ DQ ++ "intent" ++ DQ ++ ": " ++ DQ ++ "list_documents" ++ DQ
  ++ ", " ++ DQ ++ "export_filters" ++ DQ ++ ": {" ++ DQ ++ "vendor"
  ++ DQ ++ ": " ++ DQ ++ "Acme" ++ DQ ++ "}}".

End Orchestrator.

(* ===================================================================== *)
(** * Export tool: app/core/tools/export_tool.py *)
(* ===================================================================== *)

Module ExportTool.
Import PyStr Py Effects.

Section Tool.

(** The documents of the store, as the driver hands them over. *)
Variable document : Type.

(** [str(v)] of the floats, lists and dicts. *)
Variable repr : pyval -> string.

Inductive call : Type -> Type :=
(** [db.documents.find(query).to_list(length=1000)] *)
| DocumentsFind (query : list (string * pyval)) : call (list document)
(** [datetime.now().strftime("%Y%m%d_%H%M%S")] *)
| Now : call string
(** [export_to_csv] and [export_to_excel]: the file is written, its path
    returned. *)
| ExportToCsv (documents : list document) (filename : string) : call string
| ExportToExcel (documents : list document) (filename : string)
  : call string.

(** The filter [query_invoices] builds. *)
Definition invoice_query (vendor status start_date end_date : pyval)
  : list (string * pyval) :=
  let query := [] in
  let query :=
    if truthy vendor
    then (query ++ [("metadata.vendor",
                     PDict [("$regex", vendor); ("$options", PStr "i")])])%list
    else query in
  let query :=
    if truthy status
    then (query ++ [("validation_status", status)])%list
    else query in
  if truthy start_date || truthy end_date then
    let date_query := [] in
    let date_query :=
      if truthy start_date
      then (date_query ++ [("$gte", start_date)])%list else date_query in
    let date_query :=
      if truthy end_date
      then (date_query ++ [("$lte", end_date)])%list else date_query in
    if truthy (PDict date_query)
    then (query ++ [("upload_timestamp", PDict date_query)])%list
    else query
  else query.

Definition query_invoices (vendor status start_date end_date : pyval)
  : prog call (list document) :=
  perform (DocumentsFind (invoice_query vendor status start_date end_date)).

(** [v.lower()]: only a string has [lower]. *)
Definition lower (v : pyval) : exn + string :=
  match v with
  | PStr s => inr (PyStr.lower s)
  | _ => inl (AttributeError "object has no attribute 'lower'")
  end.

Definition export_invoices (format vendor status date_range : pyval)
  : prog call (list (string * pyval)) :=
  try_except
    (let start_date := PNone in
     let end_date := PNone in
     documents <- query_invoices vendor status start_date end_date ;;
     timestamp <- perform Now ;;
     let filters_str := "" in
     let filters_str :=
       if truthy vendor
       then filters_str ++ "_" ++ Py.format repr vendor else filters_str in
     let filters_str :=
       if truthy status
       then filters_str ++ "_" ++ Py.format repr status else filters_str in
     format_lower <- lift (lower format) ;;
     named <-
       (if String.eqb format_lower "excel" then
          let filename :=
            "invoices" ++ filters_str ++ "_" ++ timestamp ++ ".xlsx" in
          filepath <- perform (ExportToExcel documents filename) ;;
          Ret filename
        else
          let filename :=
            "invoices" ++ filters_str ++ "_" ++ timestamp ++ ".csv" in
          filepath <- perform (ExportToCsv documents filename) ;;
          Ret filename) ;;
     let filename : string := named in
     Ret [ ("success", PBool true);
           ("filename", PStr filename);
           ("download_url", PStr ("/api/exports/" ++ filename));
           ("invoice_count", PInt (Z.of_nat (List.length documents)));
           ("format", PStr format_lower);
           ("filters_applied",
            PDict [("vendor", vendor); ("status", status);
                   ("date_range", date_range)]) ])%prog
    (fun e => Ret [("success", PBool false);
                   ("error", PStr (str_of_exn e))]).

(** [s] ends with [suffix]. *)
Definition endswith (s suffix : string) : Prop :=
  exists stem, s = stem ++ suffix.

End Tool.

Arguments DocumentsFind {document} query.
Arguments Now {document}.
Arguments ExportToCsv {document} documents filename.
Arguments ExportToExcel {document} documents filename.

End ExportTool.

(* ===================================================================== *)
(** * Tool servers: app/mcp/base.py and app/mcp/rag_server.py *)
(* ===================================================================== *)

Module MCP.
Import PyStr Py.

Record MCPToolDefinition :=
  { name : string;
    description : string;
    parameters : list (string * pyval);
    required_params : list string }.

Record MCPToolResult :=
  { success : bool;
    data : pyval;
    error : option string;
    metadata : list (string * pyval) }.

(** [_tools]: the tools by name, in the order of their registration. *)
Definition registry := list (string * MCPToolDefinition).

(** [tools[key] = tool] *)
Fixpoint assign (tools : registry) (key : string) (tool : MCPToolDefinition)
  : registry :=
  match tools with
  | [] => [(key, tool)]
  | (k, t) :: tools' =>
      if String.eqb k key then (k, tool) :: tools'
      else (k, t) :: assign tools' key tool
  end.

Definition register_tool (tools : registry) (tool : MCPToolDefinition)
  : registry :=
  assign tools (name tool) tool.

Fixpoint get_tool (tools : registry) (key : string)
  : option MCPToolDefinition :=
  match tools with
  | [] => None
  | (k, t) :: tools' => if String.eqb k key then Some t else get_tool tools' key
  end.

Definition get_tools (tools : registry) : list MCPToolDefinition :=
  map snd tools.

(** The loop of [validate_args] over the required parameters. *)
Fixpoint first_missing (required : list string)
         (args : list (string * pyval)) : option string :=
  match required with
  | [] => None
  | param :: required' =>
      if has args param then first_missing required' args
      else Some ("Missing required parameter: " ++ param)
  end.

Definition validate_args (tools : registry) (tool_name : string)
           (args : list (string * pyval)) : option string :=
  match get_tool tools tool_name with
  | None => Some ("Unknown tool: " ++ tool_name)
  | Some tool => first_missing (required_params tool) args
  end.

Definition to_langchain_tools (tools : registry)
  : list (list (string * pyval)) :=
  map (fun tool => [ ("name", PStr (name tool));
                     ("description", PStr (description tool));
                     ("parameters", PDict (parameters tool)) ])
      (get_tools tools).

(** [MCPToolResult(success=False, error=error)] *)
Definition failure (message : string) : MCPToolResult :=
  {| success := false; data := PNone; error := Some message;
     metadata := [] |}.

End MCP.

Module RagServer.
Import PyStr Py Effects Services Retrieval MCP.

Definition string_parameter (text : string) : pyval :=
  PDict [("type", PStr "string"); ("description", PStr text)].

Definition integer_parameter (text : string) : pyval :=
  PDict [("type", PStr "integer"); ("description", PStr text)].

Definition query_document_tool : MCPToolDefinition :=
  {| name := "query_document";
     description := "Query a specific invoice document with a natural language question. Answers are sourced only from the document's content.";
     parameters :=
       [ ("type", PStr "object");
         ("properties",
          PDict [ ("document_id",
                   string_parameter "The ID of the document to query");
                  ("question",
                   string_parameter "The question to ask about the document");
                  ("top_k",
                   integer_parameter
                     "Number of relevant chunks to retrieve (default: 3)") ]);
         ("required", PList [PStr "document_id"; PStr "question"]) ];
     required_params := ["document_id"; "question"] |}.

Definition get_document_context_tool : MCPToolDefinition :=
  {| name := "get_document_context";
     description := "Get the full context/summary of an invoice document";
     parameters :=
       [ ("type", PStr "object");
         ("properties",
          PDict [ ("document_id", string_parameter "The ID of the document");
                  ("max_chunks",
                   integer_parameter
                     "Maximum chunks to include (default: 10)") ]);
         ("required", PList [PStr "document_id"]) ];
     required_params := ["document_id"] |}.

Definition index_document_tool : MCPToolDefinition :=
  {| name := "index_document";
     description := "Create embeddings for a document to enable RAG queries";
     parameters :=
       [ ("type", PStr "object");
         ("properties",
          PDict [ ("document_id",
                   string_parameter "The ID of the document to index") ]);
         ("required", PList [PStr "document_id"]) ];
     required_params := ["document_id"] |}.

Definition _register_tools (tools : registry) : registry :=
  let tools := register_tool tools query_document_tool in
  let tools := register_tool tools get_document_context_tool in
  register_tool tools index_document_tool.

(** The tools of the server once it is constructed. *)
Definition tools : registry := _register_tools [].

(** What a method of the server leaves: its result or the exception it
    raised, and the collection of embeddings as it is then. *)
Definition outcome : Type := (exn + MCPToolResult) * collection.

(** An argument of the type the tool declares; [None] for an argument
    of another type. *)
Definition str_arg (args : list (string * pyval)) (key : string)
  : option string :=
  match lookup key args with
  | Some (PStr s) => Some s
  | _ => None
  end.

(** [args.get(key, default)] for an integer parameter. *)
Definition int_arg (args : list (string * pyval)) (key : string)
           (default : Z) : option Z :=
  match lookup key args with
  | None => Some default
  | Some (PInt z) => Some z
  | Some _ => None
  end.

(** The answer and the sources of [query] are a text and a list of
    texts. *)
Definition presentable (items : list (string * pyval)) : Prop :=
  exists answer sources,
    lookup "answer" items = Some (PStr answer)
    /\ get items "sources" (PList []) = PList (map PStr sources).

(** The result of a tool call as the chat service reads it. *)
Definition served (result : MCPToolResult) : Prop :=
  if success result
  then exists items, data result = PDict items /\ presentable items
  else exists message, error result = Some message.

Section Server.

Variable encode : string -> vector.
Variable repr : pyval -> string.

(** [rag_pipeline.index_document]: the chunker returns within as many
    steps as the text has characters, so the bound is never hit. *)
Definition index_document (coll : collection) (document_id text : string)
  : collection * Z :=
  match Retrieval.index_document encode (String.length text) coll
          document_id text with
  | Some indexed => indexed
  | None => (coll, 0)
  end.

Definition _query_document (coll : collection)
           (document_id question : string) (top_k : Z)
  : prog call outcome :=
  (looked <- attempt (perform (DocumentGetById (PStr document_id))) ;;
   match looked with
   | inl e => Ret (inl e, coll)
   | inr None => Ret (inr (failure "Document not found"), coll)
   | inr (Some document) =>
       let embeddings := get_by_document coll document_id in
       let coll :=
         match embeddings with
         | [] => fst (index_document coll document_id (raw_text document))
         | _ => coll
         end in
       answered <- attempt (query encode repr coll (PStr document_id)
                              question top_k) ;;
       match answered with
       | inl e => Ret (inl e, coll)
       | inr result =>
           match lookup "answer" result with
           | None => Ret (inl (KeyError "answer"), coll)
           | Some answer =>
               Ret (inr {| success := true;
                           data :=
                             PDict [ ("answer", answer);
                                     ("sources",
                                      get result "sources" (PList []));
                                     ("chunks_used",
                                      get result "chunks_used" (PInt 0)) ];
                           error := None;
                           metadata :=
                             [("model_used",
                               get result "model_used" PNone)] |},
                    coll)
           end
       end
   end)%prog.

Definition _get_document_context (coll : collection) (document_id : string)
           (max_chunks : Z) : prog call outcome :=
  (looked <- attempt (perform (DocumentGetById (PStr document_id))) ;;
   match looked with
   | inl e => Ret (inl e, coll)
   | inr None => Ret (inr (failure "Document not found"), coll)
   | inr (Some document) =>
       let context := get_document_context coll document_id max_chunks in
       Ret (inr {| success := true;
                   data :=
                     PDict [ ("document_id", PStr document_id);
                             ("filename", PStr (filename document));
                             ("context", PStr context);
                             ("raw_text_length",
                              PInt (len (raw_text document))) ];
                   error := None;
                   metadata := [] |},
            coll)
   end)%prog.

Definition _index_document (coll : collection) (document_id : string)
  : prog call outcome :=
  (looked <- attempt (perform (DocumentGetById (PStr document_id))) ;;
   match looked with
   | inl e => Ret (inl e, coll)
   | inr None => Ret (inr (failure "Document not found"), coll)
   | inr (Some document) =>
       let indexed := index_document coll document_id (raw_text document) in
       let chunks_created := snd indexed in
       Ret (inr {| success := true;
                   data :=
                     PDict [ ("document_id", PStr document_id);
                             ("chunks_created", PInt chunks_created);
                             ("indexed", PBool true) ];
                   error := None;
                   metadata := [] |},
            fst indexed)
   end)%prog.

(** [try: return await method except Exception as e: return
    MCPToolResult(success=False, error=str(e))] *)
Definition caught (method : prog call outcome)
  : prog call (MCPToolResult * collection) :=
  (out <- method ;;
   match fst out with
   | inl e => Ret (failure (str_of_exn e), snd out)
   | inr result => Ret (result, snd out)
   end)%prog.

(** [execute_tool], for arguments of the types the tools declare
    (strings for [document_id] and [question], integers for [top_k] and
    [max_chunks]); [None] for arguments of other types, which the code
    hands to the libraries unchecked. An error of [validate_args] is a
    text that is not empty. *)
Definition execute_tool (coll : collection) (tool_name : string)
           (args : list (string * pyval))
  : option (prog call (MCPToolResult * collection)) :=
  match validate_args tools tool_name args with
  | Some message => Some (Ret (failure message, coll))
  | None =>
      if String.eqb tool_name "query_document" then
        match str_arg args "document_id", str_arg args "question",
              int_arg args "top_k" 3 with
        | Some document_id, Some question, Some top_k =>
            Some (caught (_query_document coll document_id question top_k))
        | _, _, _ => None
        end
      else if String.eqb tool_name "get_document_context" then
        match str_arg args "document_id", int_arg args "max_chunks" 10 with
        | Some document_id, Some max_chunks =>
            Some (caught (_get_document_context coll document_id max_chunks))
        | _, _ => None
        end
      else if String.eqb tool_name "index_document" then
        match str_arg args "document_id" with
        | Some document_id => Some (caught (_index_document coll document_id))
        | None => None
        end
      else Some (Ret (failure ("Unknown tool: " ++ tool_name), coll))
  end.

(** What [query_document] returns for each answer of the document
    store. *)
Definition query_document_post (coll : collection) (d : string)
           (looked : exn + option DocumentModel)
           (out : MCPToolResult * collection) : Prop :=
  served (fst out)
  /\ match looked with
     | inl e => out = (failure (str_of_exn e), coll)
     | inr None => out = (failure "Document not found", coll)
     | inr (Some document) =>
         snd out
         = match get_by_document coll d with
           | [] => fst (index_document coll d (raw_text document))
           | _ => coll
           end
     end.

End Server.

(** A deployment whose store holds one short invoice under every id and
    whose generation backend answers with [content]. *)
Definition one_invoice (content : string) : env call :=
  fun n R c =>
    match c in call R return exn + R with
    | DocumentGetById _ =>
        inr (Some {| filename := "invoice.pdf";
                     raw_text := "Invoice 42, total 10 EUR";
                     admin_corrections := None |})
    | c' => backend_answers content n _ c'
    end.

End RagServer.

(* ===================================================================== *)
(** * Chat service: app/services/chat_service.py *)
(* ===================================================================== *)

(** The models of app/db/models.py the chat service builds, with the
    fields it sets; the others keep their defaults. *)
Module ChatRequest.
Record t := { message : string; session_id : option string }.
End ChatRequest.

Module ChatMessage.
Record t :=
  { session_id : string;
    document_id : option string;
    role : string;
    content : string;
    retrieved_chunks : option (list string) }.
End ChatMessage.

Module ChatResponse.
Record t :=
  { response : string;
    session_id : string;
    tool_used : option string;
    sources : option (list string);
    needs_clarification : bool;
    clarification_question : option string }.
End ChatResponse.

Module Chat.
Import PyStr Py Effects Services Orchestrator.

(** The calls of the chat service: the ones of the core (the agent and
    the tool servers), the draw of a session id and the store of chat
    messages. *)
Inductive call : Type -> Type :=
| Core (R : Type) (c : Services.call R) : call R
(** [str(uuid.uuid4())] *)
| Uuid4 : call string
(** [ChatRepository.create] *)
| ChatRepositoryCreate (message : ChatMessage.t) : call string.

(** A computation of the core, run by the chat service. *)
Fixpoint core {A : Type} (p : prog Services.call A) : prog call A :=
  match p with
  | Ret a => Ret a
  | Raise e => Raise e
  | Vis R c k => Vis R (Core R c) (fun r => core (k r))
  end.

(** The validation of a model's fields: a [str] field takes a string, an
    [Optional] one [None] as well, a [List[str]] field a list of
    strings. The error names the field. *)
Definition ValidationError (field : string) : exn :=
  ValueError ("validation error for " ++ field).

Definition str_field (field : string) (v : pyval) : exn + string :=
  match v with
  | PStr s => inr s
  | _ => inl (ValidationError field)
  end.

Definition optional_str_field (field : string) (v : pyval)
  : exn + option string :=
  match v with
  | PNone => inr None
  | PStr s => inr (Some s)
  | _ => inl (ValidationError field)
  end.

Definition optional_str_list_field (field : string) (v : pyval)
  : exn + option (list string) :=
  match v with
  | PNone => inr None
  | PList l =>
      match traverse (str_field field) l with
      | inl e => inl e
      | inr strings => inr (Some strings)
      end
  | _ => inl (ValidationError field)
  end.

Definition agent_failed_response : string :=
  "I'm sorry, I encountered an error processing your request. Please try again or ask a simpler question.".

Section Service.

Variable repr : pyval -> string.
Variable extract_json_text : string -> string.
Variable json_loads : string -> option pyval.
Variable coll : Retrieval.collection.
Variable encode : string -> Retrieval.vector.

(** [request.session_id or str(uuid.uuid4())] *)
Definition session_of (request : ChatRequest.t) : prog call string :=
  match ChatRequest.session_id request with
  | Some s => if PyStr.truthy s then Ret s else perform Uuid4
  | None => perform Uuid4
  end.

(** [global_chat]; [None] when [fuel] steps did not bring the agent to
    the end of its graph. *)
Definition global_chat (fuel : nat) (request : ChatRequest.t)
  : prog call (option ChatResponse.t) :=
  (session_id <- session_of request ;;
   let user_message :=
     {| ChatMessage.session_id := session_id;
        ChatMessage.document_id := None;
        ChatMessage.role := "user";
        ChatMessage.content := ChatRequest.message request;
        ChatMessage.retrieved_chunks := None |} in
   _ <- perform (ChatRepositoryCreate user_message) ;;
   ran <- attempt
            (core (run_agent repr extract_json_text json_loads coll encode
                      fuel (ChatRequest.message request) session_id None)) ;;
   match ran with
   | inl agent_error =>
       Ret (Some {| ChatResponse.response := agent_failed_response;
                    ChatResponse.session_id := session_id;
                    ChatResponse.tool_used := None;
                    ChatResponse.sources := None;
                    ChatResponse.needs_clarification := false;
                    ChatResponse.clarification_question := None |})
   | inr None => Ret None
   | inr (Some (agent_state, _)) =>
       _ <- (if truthy (Orchestrator.response agent_state) then
               content <- lift (str_field "content"
                                  (Orchestrator.response agent_state)) ;;
               let assistant_message :=
                 {| ChatMessage.session_id := session_id;
                    ChatMessage.document_id := None;
                    ChatMessage.role := "assistant";
                    ChatMessage.content := content;
                    ChatMessage.retrieved_chunks := None |} in
               _ <- perform (ChatRepositoryCreate assistant_message) ;;
               Ret tt
             else Ret tt) ;;
       response <- lift (str_field "response"
                           (or_ (Orchestrator.response agent_state)
                              (PStr "I couldn't process your request."))) ;;
       tool_used <- lift (optional_str_field "tool_used"
                            (tool_name agent_state)) ;;
       sources <- lift (optional_str_list_field "sources"
                          (Orchestrator.sources agent_state)) ;;
       clarification_question <-
         lift (optional_str_field "clarification_question"
                 (Orchestrator.clarification_question agent_state)) ;;
       Ret (Some {| ChatResponse.response := response;
                    ChatResponse.session_id := session_id;
                    ChatResponse.tool_used := tool_used;
                    ChatResponse.sources := sources;
                    ChatResponse.needs_clarification :=
                      Orchestrator.needs_clarification agent_state;
                    ChatResponse.clarification_question :=
                      clarification_question |})
   end)%prog.

(** [s[:50]] *)
Definition preview (s : pyval) : exn + pyval :=
  match s with
  | PStr text => inr (PStr (slice text 0 50))
  | PList l => inr (PList (firstn 50 l))
  | _ => inl (TypeError "object is not subscriptable")
  end.

(** [document_chat]: the response and the collection of embeddings the
    tool leaves; [None] stands for a tool call outside the declared
    types, which the call made here is not. *)
Definition document_chat (document_id : string) (request : ChatRequest.t)
  : prog call (option (ChatResponse.t * Retrieval.collection)) :=
  (session_id <- session_of request ;;
   let user_message :=
     {| ChatMessage.session_id := session_id;
        ChatMessage.document_id := Some document_id;
        ChatMessage.role := "user";
        ChatMessage.content := ChatRequest.message request;
        ChatMessage.retrieved_chunks := None |} in
   _ <- perform (ChatRepositoryCreate user_message) ;;
   match RagServer.execute_tool encode repr coll "query_document"
           [ ("document_id", PStr document_id);
             ("question", PStr (ChatRequest.message request)) ] with
   | None => Ret None
   | Some tool =>
       executed <- core tool ;;
       let result := fst executed in
       answer <-
         (if MCP.success result then
            response <- lift (getattr_get (MCP.data result) "answer"
                                (PStr "No answer found.")) ;;
            sources <- lift (getattr_get (MCP.data result) "sources"
                               (PList [])) ;;
            Ret (response, sources)
          else
            Ret (PStr ("Error querying document: "
                       ++ format repr (of_option (MCP.error result))),
                 PList [])) ;;
       let response := fst answer in
       let sources := snd answer in
       previews <- lift (s <~ iterate sources ;; traverse preview s)%exn ;;
       content <- lift (str_field "content" response) ;;
       retrieved_chunks <- lift (optional_str_list_field "retrieved_chunks"
                                   (PList previews)) ;;
       let assistant_message :=
         {| ChatMessage.session_id := session_id;
            ChatMessage.document_id := Some document_id;
            ChatMessage.role := "assistant";
            ChatMessage.content := content;
            ChatMessage.retrieved_chunks := retrieved_chunks |} in
       _ <- perform (ChatRepositoryCreate assistant_message) ;;
       response <- lift (str_field "response" response) ;;
       sources <- lift (optional_str_list_field "sources" sources) ;;
       Ret (Some ({| ChatResponse.response := response;
                     ChatResponse.session_id := session_id;
                     ChatResponse.tool_used := Some "rag_query";
                     ChatResponse.sources := sources;
                     ChatResponse.needs_clarification := false;
                     ChatResponse.clarification_question := None |},
                  snd executed))
   end)%prog.

End Service.

(** The fields of the final state the chat service hands on are of the
    types its response declares. *)
Definition is_strings (v : pyval) : Prop :=
  exists strings, v = PList (map PStr strings).

Definition typed (state : AgentState) : Prop :=
  is_text (tool_name state) /\ is_strings (Orchestrator.sources state).

(** The calls other than the agent's answer. *)
Definition stores_answer (R : Type) (c : call R) (r : exn + R) : Prop :=
  match c with
  | Core _ _ => True
  | _ => exists v, r = inr v
  end.

(** A deployment of the chat service: the agent's collaborators are
    [agent_env], session ids and message ids are fixed. *)
Definition chat_env (agent_env : env Services.call) : env call :=
  fun n R c =>
    match c in call R return exn + R with
    | Core R' c' => agent_env n R' c'
    | Uuid4 => inr "6f1c2d9e-0000-4000-8000-000000000001"
    | ChatRepositoryCreate _ => inr "65f0c0ffee0000000000abcd"
    end.

End Chat.

(* ===================================================================== *)
(** * Part II: properties *)
(* ===================================================================== *)

(** ** Strings as lists of characters *)

Module PyStrFacts.
Import PyStr.

Lemma list_of_append (a b : string) :
  list_ascii_of_string (a ++ b)
  = (list_ascii_of_string a ++ list_ascii_of_string b)%list.
Proof. induction a as [|c a IH]; simpl; [reflexivity | now rewrite IH]. Qed.

Lemma list_of_substring (n m : nat) (s : string) :
  list_ascii_of_string (substring n m s)
  = firstn m (skipn n (list_ascii_of_string s)).
Proof.
  revert n m; induction s as [|c s IH]; intros n m.
  - destruct n, m; reflexivity.
  - destruct n as [|n]; simpl.
    + destruct m as [|m]; simpl; [reflexivity|].
      now rewrite (IH 0%nat m).
    + apply IH.
Qed.

Lemma length_list_of (s : string) :
  List.length (list_ascii_of_string s) = String.length s.
Proof. induction s; simpl; congruence. Qed.

Lemma list_of_inj (a b : string) :
  list_ascii_of_string a = list_ascii_of_string b -> a = b.
Proof.
  intros H.
  rewrite <- (string_of_list_ascii_of_string a),
          <- (string_of_list_ascii_of_string b).
  now rewrite H.
Qed.

Lemma len_nonneg (s : string) : 0 <= len s.
Proof. unfold len; lia. Qed.

Lemma len_append (a b : string) : len (a ++ b) = len a + len b.
Proof.
  unfold len. rewrite <- !length_list_of, list_of_append, length_app. lia.
Qed.

Lemma len_zero (s : string) : len s = 0 -> s = "".
Proof. destruct s; unfold len; simpl; [reflexivity | lia]. Qed.

Lemma append_empty_r (s : string) : s ++ "" = s.
Proof. induction s; simpl; congruence. Qed.

Lemma append_assoc (a b c : string) : (a ++ b) ++ c = a ++ (b ++ c).
Proof. induction a; simpl; congruence. Qed.

Lemma append_cancel_l (a x y : string) : a ++ x = a ++ y -> x = y.
Proof. induction a; simpl; intros H; [assumption|]. injection H. auto. Qed.

Lemma concat_empty_cons (x : string) (l : list string) :
  String.concat "" (x :: l) = x ++ String.concat "" l.
Proof. destruct l; simpl; [now rewrite append_empty_r | reflexivity]. Qed.

(** A slice with non-negative bounds, on the list of characters. *)
Lemma list_of_slice (s : string) (i j : Z) :
  0 <= i -> 0 <= j ->
  list_ascii_of_string (slice s i j)
  = firstn (Z.to_nat (Z.min j (len s) - Z.min i (len s)))
      (skipn (Z.to_nat (Z.min i (len s))) (list_ascii_of_string s)).
Proof.
  intros Hi Hj. unfold slice. rewrite list_of_substring.
  unfold clamp.
  destruct (Z.ltb_spec i 0); [lia|].
  destruct (Z.ltb_spec j 0); [lia|reflexivity].
Qed.

Lemma len_slice (s : string) (i j : Z) :
  0 <= i -> 0 <= j ->
  len (slice s i j) = Z.max 0 (Z.min j (len s) - Z.min i (len s)).
Proof.
  intros Hi Hj. unfold len at 1.
  rewrite <- length_list_of, list_of_slice by assumption.
  rewrite length_firstn, length_skipn, length_list_of.
  unfold len. lia.
Qed.

(** [s[i:]] from a slice whose upper bound is past the end. *)
Lemma slice_to_end (s : string) (i j : Z) :
  0 <= i -> len s <= j -> slice s i j = slice s i (len s).
Proof.
  intros Hi Hj. pose proof (len_nonneg s). apply list_of_inj.
  rewrite !list_of_slice by lia.
  now replace (Z.min j (len s)) with (Z.min (len s) (len s)) by lia.
Qed.

(** Two adjacent slices. *)
Lemma slice_split (s : string) (i j k : Z) :
  0 <= i -> i <= j -> j <= k \/ len s <= k ->
  slice s i j ++ slice s j k = slice s i k.
Proof.
  intros Hi Hij Hjk. pose proof (len_nonneg s). apply list_of_inj.
  rewrite list_of_append, !list_of_slice by lia.
  set (l := list_ascii_of_string s).
  set (n := len s).
  assert (Hn : 0 <= n) by apply len_nonneg.
  replace (Z.to_nat (Z.min k n - Z.min i n))
    with (Z.to_nat (Z.min j n - Z.min i n)
          + Z.to_nat (Z.min k n - Z.min j n))%nat by lia.
  replace (Z.to_nat (Z.min j n))
    with (Z.to_nat (Z.min j n - Z.min i n) + Z.to_nat (Z.min i n))%nat by lia.
  rewrite <- skipn_skipn.
  generalize (skipn (Z.to_nat (Z.min i n)) l); intros l'.
  generalize (Z.to_nat (Z.min j n - Z.min i n)); intros a.
  generalize (Z.to_nat (Z.min k n - Z.min j n)); intros b.
  revert l'; induction a as [|a IH]; intros l'; simpl.
  - reflexivity.
  - destruct l' as [|x l']; simpl.
    + now rewrite firstn_nil.
    + f_equal. apply IH.
Qed.

(** Dropping [n] characters from a slice. *)
Lemma slice_slice_drop (s : string) (i j n : Z) :
  0 <= i -> 0 <= j -> 0 <= n ->
  slice (slice s i j) n (len (slice s i j)) = slice s (i + n) j.
Proof.
  intros Hi Hj Hn. apply list_of_inj.
  pose proof (len_nonneg (slice s i j)).
  rewrite (list_of_slice (slice s i j)) by assumption.
  rewrite Z.min_id, len_slice by assumption.
  rewrite !list_of_slice by lia.
  set (l := list_ascii_of_string s).
  set (m := len s).
  assert (Hm : 0 <= m) by apply len_nonneg.
  rewrite skipn_firstn_comm, skipn_skipn.
  rewrite firstn_firstn.
  assert (Hl : List.length l = Z.to_nat m)
    by (unfold l, m, len; rewrite length_list_of; lia).
  destruct (Z.le_gt_cases (i + n) (Z.min j m)) as [Hle|Hgt].
  - f_equal; [lia | f_equal; lia].
  - replace (Z.to_nat (Z.min j m - Z.min (i + n) m)) with 0%nat by lia.
    match goal with |- firstn ?c _ = _ => replace c with 0%nat by lia end.
    reflexivity.
Qed.

Lemma lstrip_head (s : string) :
  lstrip s = ""
  \/ exists c s', lstrip s = String c s' /\ isspace c = false.
Proof.
  induction s as [|c s IH]; [now left|]. cbn [lstrip].
  destruct (isspace c) eqn:E; [exact IH|]. right. now exists c, s.
Qed.

Lemma rstrip_idem (s : string) : rstrip (rstrip s) = rstrip s.
Proof.
  induction s as [|c s IH]; [reflexivity|]. cbn [rstrip].
  destruct (isspace c && negb (truthy (rstrip s))) eqn:E; [reflexivity|].
  cbn [rstrip]. now rewrite IH, E.
Qed.

Lemma strip_idem (s : string) : strip (strip s) = strip s.
Proof.
  unfold strip.
  destruct (lstrip_head s) as [->|(c & s' & -> & Hc)]; [reflexivity|].
  cbn [rstrip]. rewrite Hc. cbn [andb lstrip]. rewrite Hc.
  cbn [rstrip]. rewrite Hc. cbn [andb]. now rewrite rstrip_idem.
Qed.

Lemma lstrip_suffix (s : string) : exists a, s = a ++ lstrip s.
Proof.
  induction s as [|c s [a IH]]; [now exists ""|]. cbn [lstrip].
  destruct (isspace c); [|now exists ""].
  exists (String c a). cbn [append]. now rewrite <- IH.
Qed.

Lemma rstrip_prefix (s : string) : exists b, s = rstrip s ++ b.
Proof.
  induction s as [|c s [b IH]]; [now exists ""|]. cbn [rstrip].
  destruct (isspace c && negb (truthy (rstrip s))).
  - now exists (String c s).
  - exists b. cbn [append]. now rewrite <- IH.
Qed.

Lemma strip_inside (s : string) : exists a b, s = a ++ strip s ++ b.
Proof.
  destruct (lstrip_suffix s) as [a Ha].
  destruct (rstrip_prefix (lstrip s)) as [b Hb].
  exists a, b. unfold strip. now rewrite <- Hb.
Qed.

Lemma len_strip (s : string) : len (strip s) <= len s.
Proof.
  destruct (strip_inside s) as (a & b & H).
  rewrite H at 2. rewrite !len_append.
  pose proof (len_nonneg a). pose proof (len_nonneg b). lia.
Qed.

Lemma substring_prefix (m : nat) (s : string) :
  exists b, s = substring 0 m s ++ b.
Proof.
  revert m; induction s as [|c s IH]; intros m.
  - exists "". now destruct m.
  - destruct m as [|m]; [now exists (String c s)|].
    destruct (IH m) as [b H]. exists b. cbn [substring append].
    now rewrite <- H.
Qed.

Lemma substring_inside (n m : nat) (s : string) :
  exists a b, s = a ++ substring n m s ++ b.
Proof.
  revert n; induction s as [|c s IH]; intros n.
  - exists "", "". now destruct n, m.
  - destruct n as [|n].
    + destruct (substring_prefix m (String c s)) as [b H]. now exists "", b.
    + destruct (IH n) as (a & b & H). exists (String c a), b.
      cbn [substring append]. now rewrite <- H.
Qed.

Lemma slice_inside (s : string) (i j : Z) :
  exists a b, s = a ++ slice s i j ++ b.
Proof. apply substring_inside. Qed.

Lemma startswith_append (s t : string) : startswith (s ++ t) s = true.
Proof.
  induction s as [|c s IH]; cbn [append startswith].
  - now destruct t.
  - now rewrite Ascii.eqb_refl, IH.
Qed.

Lemma contains_here (s sub : string) :
  startswith s sub = true -> contains s sub = true.
Proof. intros H. destruct s; cbn [contains]; now rewrite H. Qed.

Lemma contains_inside (a s b : string) : contains (a ++ s ++ b) s = true.
Proof.
  induction a as [|c a IH]; cbn [append].
  - apply contains_here, startswith_append.
  - cbn [contains]. rewrite IH. apply orb_true_r.
Qed.

Lemma contains_trans_inside (text s c : string) :
  (exists a b, text = a ++ s ++ b) -> (exists a b, s = a ++ c ++ b) ->
  contains text c = true.
Proof.
  intros (a & b & ->) (a' & b' & ->).
  replace (a ++ (a' ++ c ++ b') ++ b) with ((a ++ a') ++ c ++ (b' ++ b))
    by now rewrite !append_assoc.
  apply contains_inside.
Qed.

(** The length of a slice of [chunk_size] characters, wherever it
    starts. *)
Lemma length_substring (n m : nat) (s : string) :
  (String.length (substring n m s) <= m)%nat.
Proof.
  revert n m; induction s as [|c s IH]; intros n m.
  - destruct n, m; cbn; lia.
  - destruct n as [|n]; [destruct m as [|m]|]; cbn [substring String.length].
    + lia.
    + specialize (IH 0%nat m). lia.
    + apply IH.
Qed.

Lemma len_slice_le (s : string) (i n : Z) :
  0 <= n -> len (slice s i (i + n)) <= n.
Proof.
  intros Hn. unfold slice, len at 1.
  pose proof (length_substring
                (Z.to_nat (clamp i (len s)))
                (Z.to_nat (clamp (i + n) (len s) - clamp i (len s))) s) as H.
  assert (clamp (i + n) (len s) - clamp i (len s) <= n); [|lia].
  pose proof (len_nonneg s). unfold clamp.
  destruct (Z.ltb_spec (i + n) 0), (Z.ltb_spec i 0); lia.
Qed.

End PyStrFacts.

(** ** The chunker *)

Module EmbeddingsFacts.
Import PyStr PyStrFacts Embeddings.

Lemma startswith_len (s sub : string) :
  startswith s sub = true -> len sub <= len s.
Proof.
  revert s; induction sub as [|a sub IH]; intros s H.
  - apply len_nonneg.
  - destruct s as [|b s]; simpl in H; [discriminate|].
    apply andb_prop in H. destruct H as [_ H]. apply IH in H.
    unfold len in *. simpl. lia.
Qed.

(** [rfind] answers the accumulator or the index of an occurrence that
    fits in the string. *)
Lemma rfind_from_bounds (s sub : string) (i acc : Z) :
  rfind_from s sub i acc = acc
  \/ (i <= rfind_from s sub i acc
      /\ rfind_from s sub i acc + len sub <= i + len s).
Proof.
  revert i acc; induction s as [|c s IH]; intros i acc.
  - cbn [rfind_from]. destruct (startswith "" sub) eqn:E; [|now left].
    right. apply startswith_len in E. lia.
  - cbn [rfind_from].
    destruct (startswith (String c s) sub) eqn:E.
    + apply startswith_len in E.
      destruct (IH (i + 1) i) as [->|[H1 H2]].
      * right. lia.
      * right. unfold len in *. simpl String.length in *. lia.
    + destruct (IH (i + 1) acc) as [->|[H1 H2]]; [now left|].
      right. unfold len in *. simpl String.length in *. lia.
Qed.

Lemma rfind_bounds (s sub : string) :
  rfind s sub = -1 \/ (0 <= rfind s sub /\ rfind s sub + len sub <= len s).
Proof. unfold rfind. apply rfind_from_bounds. Qed.

Lemma boundaries_nonempty : Forall (fun b => 1 <= len b) boundaries.
Proof. repeat constructor; unfold len; simpl; lia. Qed.

(** An adjusted cut point lies past the midpoint of the chunk and inside
    the slice that was searched. *)
Lemma adjust_end_bounds (text : string) (start end_ chunk_size : Z)
      (bs : list string) :
  0 <= chunk_size ->
  Forall (fun b => 1 <= len b) bs ->
  adjust_end text start end_ chunk_size bs = end_
  \/ (start + chunk_size / 2 + 2
        <= adjust_end text start end_ chunk_size bs
      /\ adjust_end text start end_ chunk_size bs
        <= start + len (slice text start end_)).
Proof.
  intros Hcs. induction 1 as [|b bs Hb _ IH]; simpl; [now left|].
  destruct (Z.gtb_spec (rfind (slice text start end_) b) (chunk_size / 2))
    as [Hgt|_]; [|exact IH].
  assert (0 <= chunk_size / 2) by (apply Z.div_pos; lia).
  right. destruct (rfind_bounds (slice text start end_) b) as [E|[_ Hfit]];
    lia.
Qed.

(** With the default size, every chunk is cut between 252 and 500
    characters after its start. *)
Lemma chunk_end_lower (text : string) (start : Z) :
  start + 252 <= chunk_end text default_chunk_size start.
Proof.
  unfold chunk_end, default_chunk_size.
  destruct (start + 500 <? len text); [|lia].
  destruct (adjust_end_bounds text start (start + 500) 500 boundaries
              ltac:(lia) boundaries_nonempty) as [->|[H _]]; [lia|].
  change (500 / 2) with 250 in H. lia.
Qed.

Lemma chunk_end_upper (text : string) (start : Z) :
  0 <= start -> chunk_end text default_chunk_size start <= start + 500.
Proof.
  intros Hs. unfold chunk_end, default_chunk_size.
  destruct (start + 500 <? len text); [|lia].
  destruct (adjust_end_bounds text start (start + 500) 500 boundaries
              ltac:(lia) boundaries_nonempty) as [->|[_ H]]; [lia|].
  rewrite len_slice in H by lia. pose proof (len_nonneg text). lia.
Qed.

(** A cut that was not moved ends the text. *)
Lemma chunk_end_reaches (text : string) (start : Z) :
  0 <= start ->
  chunk_end text default_chunk_size start <= len text
  \/ chunk_end text default_chunk_size start = start + 500.
Proof.
  intros Hs. unfold chunk_end, default_chunk_size.
  destruct (Z.ltb_spec (start + 500) (len text)) as [Hlt|Hge]; [|now right].
  left.
  destruct (adjust_end_bounds text start (start + 500) 500 boundaries
              ltac:(lia) boundaries_nonempty) as [->|[_ H]]; [lia|].
  rewrite len_slice in H by lia. lia.
Qed.

(** The loop stops: [len text - start] iterations are enough. *)
Lemma chunk_loop_terminates (fuel : nat) (text : string) (start : Z)
      (chunks : list string) :
  len text - start <= Z.of_nat fuel ->
  exists r, chunk_loop fuel text default_chunk_size default_overlap
              start chunks = Some r.
Proof.
  revert start chunks; induction fuel as [|fuel IH]; intros start chunks Hf;
    cbn [chunk_loop]; destruct (Z.ltb_spec start (len text)) as [Hlt|Hge];
    try (eexists; reflexivity); [lia|].
  apply IH. pose proof (chunk_end_lower text start).
  unfold default_overlap. lia.
Qed.

Lemma chunk_spans_terminates (fuel : nat) (text : string) (start : Z) :
  len text - start <= Z.of_nat fuel ->
  exists r, chunk_spans fuel text default_chunk_size default_overlap start
            = Some r.
Proof.
  revert start; induction fuel as [|fuel IH]; intros start Hf;
    cbn [chunk_spans]; destruct (Z.ltb_spec start (len text)) as [Hlt|Hge];
    try (eexists; reflexivity); [lia|].
  destruct (IH (chunk_end text default_chunk_size start - default_overlap))
    as [r ->]; [|eexists; reflexivity].
  pose proof (chunk_end_lower text start). unfold default_overlap. lia.
Qed.

(** The chunks are the stripped, non-empty slices at the spans. *)
Lemma chunk_loop_spans (fuel : nat) (text : string) (chunk_size overlap : Z)
      (start : Z) (chunks : list string) :
  chunk_loop fuel text chunk_size overlap start chunks
  = option_map (fun spans => (chunks ++ chunks_of_spans text spans)%list)
      (chunk_spans fuel text chunk_size overlap start).
Proof.
  revert start chunks; induction fuel as [|fuel IH]; intros start chunks;
    cbn [chunk_loop chunk_spans]; destruct (start <? len text);
    try reflexivity.
  - simpl. now rewrite app_nil_r.
  - rewrite IH.
    destruct (chunk_spans fuel text chunk_size overlap
                (chunk_end text chunk_size start - overlap)) as [spans|];
      [|reflexivity].
    simpl. f_equal. unfold chunks_of_spans. simpl.
    destruct (truthy (strip (slice text start
                               (chunk_end text chunk_size start))));
      [now rewrite <- app_assoc | reflexivity].
  - simpl. now rewrite app_nil_r.
Qed.

Lemma chunk_spans_done (fuel : nat) (text : string) (chunk_size overlap : Z)
      (start : Z) :
  len text <= start ->
  chunk_spans fuel text chunk_size overlap start = Some [].
Proof.
  intros H. destruct fuel; cbn [chunk_spans];
    destruct (Z.ltb_spec start (len text)); (lia || reflexivity).
Qed.

Lemma slice_whole (s : string) : slice s 0 (len s) = s.
Proof.
  pose proof (len_nonneg s). apply list_of_inj.
  rewrite list_of_slice by lia.
  rewrite Z.min_id, Z.min_l, Z.sub_0_r by lia. simpl.
  apply firstn_all2. unfold len. rewrite length_list_of. lia.
Qed.

(** The slices at the spans, each but the first without its first 50
    characters, make up the rest of the text. *)
Lemma spans_cover (fuel : nat) (text : string) (start : Z)
      (spans : list (Z * Z)) :
  0 <= start < len text ->
  chunk_spans fuel text default_chunk_size default_overlap start
  = Some spans ->
  exists rest,
    spans = (start, chunk_end text default_chunk_size start) :: rest
    /\ slice text start (chunk_end text default_chunk_size start)
       ++ String.concat ""
            (map (drop default_overlap) (map (slice_at text) rest))
       = slice text start (len text).
Proof.
  revert start spans; induction fuel as [|fuel IH]; intros start spans Hs;
    cbn [chunk_spans]; destruct (Z.ltb_spec start (len text)); try lia;
    [discriminate|].
  set (e := chunk_end text default_chunk_size start).
  assert (He : start + 252 <= e) by apply chunk_end_lower.
  destruct (chunk_spans fuel text default_chunk_size default_overlap
              (e - default_overlap)) as [rest|] eqn:Hrest; [|discriminate].
  intros [= <-]. exists rest. split; [reflexivity|].
  unfold default_overlap in *.
  destruct (Z.le_gt_cases (len text) (e - 50)) as [Hdone|Hmore].
  - rewrite chunk_spans_done in Hrest by assumption.
    injection Hrest as <-. simpl. rewrite append_empty_r.
    apply slice_to_end; lia.
  - destruct (IH (e - 50) rest ltac:(lia) Hrest) as (rest' & -> & Heq).
    set (e' := chunk_end text default_chunk_size (e - 50)) in *.
    assert (He' : e - 50 + 252 <= e') by apply chunk_end_lower.
    cbn [map]. rewrite concat_empty_cons.
    unfold drop at 1, slice_at at 1. cbn [fst snd].
    rewrite slice_slice_drop by lia.
    replace (e - 50 + 50) with e by lia.
    rewrite <- (slice_split text (e - 50) e e') in Heq by lia.
    rewrite <- (slice_split text (e - 50) e (len text)) in Heq by lia.
    rewrite append_assoc in Heq. apply append_cancel_l in Heq.
    rewrite Heq. apply slice_split; lia.
Qed.

Lemma spans_chained (fuel : nat) (text : string) (start : Z)
      (spans : list (Z * Z)) :
  chunk_spans fuel text default_chunk_size default_overlap start
  = Some spans ->
  chained default_overlap start spans.
Proof.
  revert start spans; induction fuel as [|fuel IH]; intros start spans;
    cbn [chunk_spans]; destruct (start <? len text);
    try discriminate; try (intros [= <-]; exact I).
  destruct (chunk_spans fuel text default_chunk_size default_overlap
              (chunk_end text default_chunk_size start - default_overlap))
    as [rest|] eqn:Hrest; [|discriminate].
  intros [= <-]. cbn [chained fst snd].
  pose proof (chunk_end_lower text start).
  repeat split; [lia | now apply IH].
Qed.

(** With the default parameters [chunk_text] returns, given as many
    iterations as the text has characters. *)
Lemma chunk_text_returns (text : string) (n : nat) :
  exists chunks,
    chunk_text (String.length text + n) text
      default_chunk_size default_overlap = Some chunks.
Proof.
  unfold chunk_text.
  destruct (len text <=? default_chunk_size); [eexists; reflexivity|].
  apply chunk_loop_terminates. unfold len. lia.
Qed.

(** C10. [chunk_text] terminates for every text with the default
    parameters: every cut lies more than 250 characters after the start
    of its chunk, so the next start, 50 characters before the cut, is
    strictly greater than the current one, and a number of iterations
    equal to the length of the text is enough for the loop to return. *)
Theorem chunk_text_terminates (text : string) (n : nat) :
  (forall start,
      start + 250 < chunk_end text default_chunk_size start
      /\ start < chunk_end text default_chunk_size start - default_overlap)
  /\ exists chunks,
      chunk_text (String.length text + n) text
        default_chunk_size default_overlap = Some chunks.
Proof.
  split.
  - intros start. pose proof (chunk_end_lower text start).
    unfold default_overlap. lia.
  - apply chunk_text_returns.
Qed.

(** C1, as the code has it. For every text and the default parameters:
    a text of at most 500 characters is returned unchanged (not trimmed)
    as the only chunk; for a longer text the loop cuts slices that start
    at 0, each starting 50 characters before the end of the previous one,
    and these slices, each but the first without its first 50 characters,
    make up the whole text; the chunks returned are these slices
    stripped, without the empty ones. *)
Theorem chunk_text_covers (text : string) (n : nat) :
  let fuel := (String.length text + n)%nat in
  if len text <=? default_chunk_size
  then chunk_text fuel text default_chunk_size default_overlap
       = Some [text]
  else exists spans,
      chunk_spans fuel text default_chunk_size default_overlap 0
      = Some spans
      /\ chunk_text fuel text default_chunk_size default_overlap
         = Some (chunks_of_spans text spans)
      /\ chained default_overlap 0 spans
      /\ covers default_overlap text (map (slice_at text) spans).
Proof.
  intros fuel. unfold chunk_text.
  destruct (Z.leb_spec (len text) default_chunk_size) as [Hle|Hgt];
    [reflexivity|].
  destruct (chunk_spans_terminates fuel text 0) as [spans Hspans];
    [unfold fuel, len; lia|].
  exists spans. split; [assumption|]. split; [|split].
  - now rewrite chunk_loop_spans, Hspans.
  - now apply spans_chained with (fuel := fuel) (text := text).
  - unfold default_chunk_size in Hgt.
    destruct (spans_cover fuel text 0 spans ltac:(lia) Hspans)
      as (rest & -> & Heq).
    unfold covers, reassemble. cbn [map].
    unfold slice_at at 1. cbn [fst snd]. rewrite Heq.
    apply slice_whole.
Qed.

(** C1 as stated fails on the code: a short text with surrounding
    whitespace is returned untrimmed, and the chunks of a long text of
    whitespace only are all dropped, so that nothing of it is covered. *)
Lemma chunk_text_not_as_specified :
  (chunk_text 2 " a" default_chunk_size default_overlap = Some [" a"]
   /\ ~ chunk_text_as_specified " a" [" a"])
  /\ (chunk_text 501 (spaces 501) default_chunk_size default_overlap
      = Some []
      /\ ~ chunk_text_as_specified (spaces 501) []).
Proof.
  split; split.
  - reflexivity.
  - unfold chunk_text_as_specified. simpl. discriminate.
  - vm_compute. reflexivity.
  - unfold chunk_text_as_specified.
    replace (len (spaces 501) <=? default_chunk_size) with false
      by (vm_compute; reflexivity).
    unfold covers, reassemble. vm_compute. discriminate.
Qed.

(** *** What the chunks look like *)

Lemma chunk_end_le (text : string) (chunk_size start : Z) :
  0 <= chunk_size -> chunk_end text chunk_size start <= start + chunk_size.
Proof.
  intros Hcs. unfold chunk_end.
  destruct (start + chunk_size <? len text); [|lia].
  destruct (adjust_end_bounds text start (start + chunk_size) chunk_size
              boundaries Hcs boundaries_nonempty) as [->|[_ H]]; [lia|].
  pose proof (len_slice_le text start chunk_size Hcs). lia.
Qed.

(** A property of every stripped slice holds for every chunk. *)
Lemma chunk_loop_Forall (P : string -> Prop) (fuel : nat) (text : string)
      (start : Z) (chunks r : list string) :
  (forall s,
      let c := strip (slice text s (chunk_end text default_chunk_size s)) in
      truthy c = true -> P c) ->
  Forall P chunks ->
  chunk_loop fuel text default_chunk_size default_overlap start chunks
  = Some r ->
  Forall P r.
Proof.
  intros HP. revert start chunks.
  induction fuel as [|fuel IH]; intros start chunks Hchunks;
    cbn [chunk_loop]; destruct (start <? len text);
    try discriminate; try (now intros [= <-]).
  apply IH.
  destruct (truthy _) eqn:E; [|assumption].
  apply Forall_app. split; [assumption|]. constructor; [|constructor].
  now apply HP.
Qed.

Lemma truthy_nonempty (s : string) : truthy s = true -> s <> "".
Proof. now destruct s. Qed.

(** X1. With the default parameters [chunk_text] returns, for every
    text, chunks of at most [chunk_size] = 500 characters each; for a
    text longer than that, every chunk is non-empty and has no
    whitespace at either end. *)
Theorem chunk_text_chunks_clean (text : string) (n : nat) :
  exists chunks,
    chunk_text (String.length text + n) text default_chunk_size
      default_overlap = Some chunks
    /\ Forall (fun c => len c <= default_chunk_size) chunks
    /\ if len text <=? default_chunk_size
       then chunks = [text]
       else Forall (fun c => c <> "" /\ strip c = c) chunks.
Proof.
  destruct (chunk_text_returns text n) as [chunks H]. exists chunks.
  split; [exact H|]. unfold chunk_text in H.
  destruct (Z.leb_spec (len text) default_chunk_size) as [Hle|Hgt].
  - injection H as <-. split; [now constructor | reflexivity].
  - split.
    + eapply chunk_loop_Forall; [|constructor|exact H].
      intros s c _. subst c.
      set (e := chunk_end text default_chunk_size s).
      pose proof (len_strip (slice text s e)) as Hstrip.
      assert (He : e <= s + default_chunk_size)
        by (apply chunk_end_le; unfold default_chunk_size; lia).
      assert (Hs : s <= e)
        by (pose proof (chunk_end_lower text s); unfold e; lia).
      pose proof (len_slice_le text s (e - s) ltac:(lia)) as Hslice.
      replace (s + (e - s)) with e in Hslice by lia. lia.
    + eapply chunk_loop_Forall; [|constructor|exact H].
      intros s c Hc. split; [now apply truthy_nonempty|].
      apply strip_idem.
Qed.

(** X2. With the default parameters, every chunk [chunk_text] returns
    occurs in the text as it is: chunking drops and repeats characters,
    it never alters or adds any. *)
Theorem chunk_text_chunks_occur (text : string) (n : nat) :
  exists chunks,
    chunk_text (String.length text + n) text default_chunk_size
      default_overlap = Some chunks
    /\ Forall (fun c => contains text c = true) chunks.
Proof.
  destruct (chunk_text_returns text n) as [chunks H]. exists chunks.
  split; [exact H|]. unfold chunk_text in H.
  destruct (len text <=? default_chunk_size).
  - injection H as <-. constructor; [|constructor].
    apply contains_here. rewrite <- (append_empty_r text) at 1.
    apply startswith_append.
  - eapply chunk_loop_Forall; [|constructor|exact H].
    intros s c _. eapply contains_trans_inside.
    + apply slice_inside.
    + apply strip_inside.
Qed.

(** With an overlap of at least the chunk size the start of the next
    chunk is never after the start of the current one. *)
Lemma chunk_loop_stuck (fuel : nat) (text : string) (chunk_size overlap : Z)
      (start : Z) (chunks : list string) :
  0 <= chunk_size <= overlap -> start < len text ->
  chunk_loop fuel text chunk_size overlap start chunks = None.
Proof.
  intros Hcs. revert start chunks.
  induction fuel as [|fuel IH]; intros start chunks Hs; cbn [chunk_loop];
    destruct (Z.ltb_spec start (len text)); try lia; [reflexivity|].
  apply IH. pose proof (chunk_end_le text chunk_size start). lia.
Qed.

(** X3. When the overlap is at least the chunk size, [chunk_text] does
    not return on any text longer than the chunk size: the loop never
    reaches the end of the text, however many iterations it is given. *)
Theorem chunk_text_overlap_never_returns (fuel : nat) (text : string)
        (chunk_size overlap : Z) :
  0 <= chunk_size <= overlap -> chunk_size < len text ->
  chunk_text fuel text chunk_size overlap = None.
Proof.
  intros Hcs Hlen. unfold chunk_text.
  destruct (Z.leb_spec (len text) chunk_size); [lia|].
  apply chunk_loop_stuck; lia.
Qed.

Lemma chunk_text_overlap_never_returns_abc :
  chunk_text 1000 "abc" 2 2 = None.
Proof.
  apply chunk_text_overlap_never_returns; [lia | reflexivity].
Defined.

End EmbeddingsFacts.

(** ** The gateway *)

Module GatewayFacts.
Import PyStr Gateway.

Lemma mem_In (x : string) (l : list string) : mem x l = true <-> In x l.
Proof.
  unfold mem. rewrite existsb_exists. split.
  - intros (y & Hy & E). apply String.eqb_eq in E. now subst.
  - intros H. exists x. split; [assumption | apply String.eqb_refl].
Qed.

Lemma mem_false (x : string) (l : list string) :
  mem x l = false <-> ~ In x l.
Proof.
  rewrite <- mem_In. destruct (mem x l); split; congruence.
Qed.

Lemma add_fresh (x : string) (s : list string) :
  ~ In x s -> add x s = x :: s.
Proof. intros H. unfold add. now rewrite (proj2 (mem_false x s) H). Qed.

Lemma count_occ_repeat (m m' : string) (a : nat) :
  count_occ string_dec (repeat m a) m' = if string_dec m m' then a else 0%nat.
Proof.
  induction a as [|a IH]; simpl.
  - now destruct (string_dec m m').
  - destruct (string_dec m m'); simpl; lia.
Qed.

Section Client.

Variable clean_llm_response : string -> string.
Variable models : list string.
Variable backend : nat -> string -> list lc_message -> reply.

Local Abbreviation next := (_get_next_fallback_model models).
Local Abbreviation loop := (invoke_loop clean_llm_response models backend).

Lemma next_In (current nm : string) : next current = Some nm -> In nm models.
Proof.
  unfold _get_next_fallback_model.
  destruct (index models current).
  - apply nth_error_In.
  - destruct models; simpl; [discriminate|]. intros [= ->]. now left.
Qed.

Lemma random_In (rnd : nat) (m : string) :
  _get_random_model models rnd = inr m -> In m models.
Proof.
  unfold _get_random_model. destruct models as [|x l] eqn:E;
    [discriminate|].
  intros H.
  assert (Hm : nth (rnd mod List.length (x :: l)) (x :: l) "" = m)
    by (injection H; auto).
  rewrite <- Hm. apply nth_In. apply Nat.mod_upper_bound. discriminate.
Qed.

(** One run of the retrying wrapper calls the backend between one and
    three times for the same model; it fails only when the third call
    failed, with the error of that call. *)
Lemma retrying_spec (k : nat) (model : string) (lc : list lc_message)
      (l : log) :
  exists a : nat,
    (1 <= a <= k + 1)%nat
    /\ snd (retrying backend k model lc l) = (l ++ repeat model a)%list
    /\ fst (retrying backend k model lc l)
       = backend (List.length l + a - 1)%nat model lc
    /\ (forall e, fst (retrying backend k model lc l) = Failure e ->
                  a = (k + 1)%nat).
Proof.
  revert l; induction k as [|k IH]; intros l; cbn [retrying].
  - exists 1%nat.
    replace (List.length l + 1 - 1)%nat with (List.length l) by lia.
    destruct (backend (List.length l) model lc); simpl; repeat split;
      auto; lia.
  - destruct (backend (List.length l) model lc) eqn:E.
    + exists 1%nat.
      replace (List.length l + 1 - 1)%nat with (List.length l) by lia.
      simpl. repeat split; auto; try lia. discriminate.
    + destruct (IH (l ++ [model])%list) as (a & Ha & Hl & Hr & Hf).
      exists (S a). rewrite Hl, Hr, <- app_assoc. simpl.
      rewrite length_app. simpl.
      repeat split; try lia.
      * f_equal. lia.
      * intros e' He'. rewrite Hr in Hf. specialize (Hf e').
        rewrite length_app in Hf. simpl in Hf.
        specialize (Hf He'). lia.
Qed.

(** The loop, from a state in which the models of every call made so
    far are in [models_tried] and the selected model is a pool member
    not yet tried: it returns; no model is called more than three
    times; and when every call fails it raises the terminal error with
    the error of the last call made. *)
Lemma invoke_loop_spec (fuel : nat) (lc : list lc_message)
      (selected : string) (tried : list string) (l : log) :
  NoDup tried -> incl tried models ->
  In selected models -> ~ In selected tried ->
  (forall m, (count_occ string_dec l m <= 3)%nat) ->
  (forall m, In m l -> In m tried) ->
  (List.length models - List.length tried <= fuel)%nat ->
  exists out l',
    loop fuel lc selected tried l = Some (out, l')
    /\ (forall m, (count_occ string_dec l' m <= 3)%nat)
    /\ ((forall n m, exists e, backend n m lc = Failure e) ->
        exists e,
          out = Raise (GroqClientError
                         ("All models failed. Last error: " ++ e))
          /\ backend (pred (List.length l')) (last l' "") lc = Failure e).
Proof.
  revert selected tried l; induction fuel as [|fuel IH];
    intros selected tried l Hnd Hincl Hsel Hfresh Hcount Hlog Hfuel.
  all: assert (Hlen : (S (List.length tried) <= List.length models)%nat)
    by (apply (NoDup_incl_length (l := selected :: tried));
        [now constructor | intros x [<-|Hx]; auto]).
  { lia. }
  cbn [invoke_loop].
  destruct (Nat.ltb_spec (List.length tried) (List.length models));
    [|lia].
  rewrite (add_fresh selected tried Hfresh).
  unfold _invoke_with_retry.
  destruct (retrying_spec (stop_after_attempt - 1) selected lc l)
    as (a & Ha & Hl' & Hr & Hf).
  destruct (retrying backend (stop_after_attempt - 1) selected lc l)
    as [r l'].
  cbn [fst snd] in Hl', Hr, Hf. unfold stop_after_attempt in Ha. simpl in Ha.
  assert (Hcount' : forall m, (count_occ string_dec l' m <= 3)%nat).
  { intros m. rewrite Hl', count_occ_app, count_occ_repeat.
    destruct (string_dec selected m) as [<-|_].
    - assert (count_occ string_dec l selected = 0%nat) as ->; [|lia].
      apply count_occ_not_In. intros Hin. apply Hfresh. now apply Hlog.
    - specialize (Hcount m). lia. }
  assert (Hlast : a = 3%nat ->
                  backend (pred (List.length l')) (last l' "") lc = r).
  { intros ->. rewrite Hr, Hl', length_app. simpl repeat.
    change [selected; selected; selected]
      with ([selected; selected] ++ [selected])%list.
    rewrite app_assoc, last_last. f_equal. rewrite length_app. simpl. lia. }
  assert (Hraise :
    forall e, r = Failure e ->
    exists (out : outcome) (l'' : log),
      Some (Raise (GroqClientError
                     ("All models failed. Last error: " ++ e)), l')
      = Some (out, l'')
      /\ (forall m, (count_occ string_dec l'' m <= 3)%nat)
      /\ ((forall n m, exists e, backend n m lc = Failure e) ->
          exists e0,
            out = Raise (GroqClientError
                           ("All models failed. Last error: " ++ e0))
            /\ backend (pred (List.length l'')) (last l'' "") lc
               = Failure e0)).
  { intros e ->. do 2 eexists. split; [reflexivity|]. split; [exact Hcount'|].
    intros _. exists e. split; [reflexivity|].
    apply Hlast. now apply (Hf e). }
  destruct r as [c|e].
  - do 2 eexists. split; [reflexivity|]. split; [exact Hcount'|].
    intros Hall. destruct (Hall (List.length l + a - 1)%nat selected) as [e He].
    congruence.
  - destruct (next selected) as [nm|] eqn:Hnext; [|now apply Hraise].
    destruct (truthy nm && negb (mem nm (selected :: tried))) eqn:Hgo;
      [|now apply Hraise].
    apply andb_prop in Hgo. destruct Hgo as [_ Hnm].
    apply negb_true_iff, mem_false in Hnm.
    apply IH.
    + now constructor.
    + intros x [<-|Hx]; auto.
    + now apply next_In with (current := selected).
    + assumption.
    + exact Hcount'.
    + intros m. rewrite Hl', in_app_iff. intros [Hm|Hm].
      * right. now apply Hlog.
      * apply repeat_spec in Hm. now left.
    + simpl. lia.
Qed.

Lemma loop_step_failure (fuel : nat) (lc : list lc_message)
      (selected nm e : string) (tried : list string) (l l' : log) :
  (List.length tried < List.length models)%nat ->
  retrying backend 2 selected lc l = (Failure e, l') ->
  next selected = Some nm ->
  truthy nm = true -> mem nm (add selected tried) = false ->
  loop (S fuel) lc selected tried l
  = loop fuel lc nm (add selected tried) l'.
Proof.
  intros Hlt Hretry Hnext Htruthy Hmem. cbn [invoke_loop].
  destruct (Nat.ltb_spec (List.length tried) (List.length models));
    [|lia].
  unfold _invoke_with_retry, stop_after_attempt. simpl Nat.sub.
  now rewrite Hretry, Hnext, Htruthy, Hmem.
Qed.

Lemma loop_step_response (fuel : nat) (lc : list lc_message)
      (selected c : string) (tried : list string) (l l' : log) :
  (List.length tried < List.length models)%nat ->
  retrying backend 2 selected lc l = (Response c, l') ->
  loop (S fuel) lc selected tried l
  = Some (Return {| result_content := clean_llm_response c;
                    model_used := selected;
                    success := true |}, l').
Proof.
  intros Hlt Hretry. cbn [invoke_loop].
  destruct (Nat.ltb_spec (List.length tried) (List.length models));
    [|lia].
  unfold _invoke_with_retry, stop_after_attempt. simpl Nat.sub.
  now rewrite Hretry.
Qed.

(** Model [A] fails three times, the next model [B] answers at one of
    its three attempts: [invoke] returns with [model_used = B]. *)
Lemma fallback_succeeds (fuel : nat) (lc : list lc_message)
      (A B c : string) (j : nat) :
  In A models ->
  (forall i, (i < 3)%nat -> exists e, backend i A lc = Failure e) ->
  next A = Some B -> B <> A -> B <> "" ->
  (j < 3)%nat ->
  (forall i, (i < j)%nat -> exists e, backend (3 + i) B lc = Failure e) ->
  backend (3 + j) B lc = Response c ->
  exists l,
    loop (S (S fuel)) lc A [] []
    = Some (Return {| result_content := clean_llm_response c;
                      model_used := B;
                      success := true |}, l).
Proof.
  intros HA Hfail Hnext Hneq Hnonempty Hj HfailB Hok.
  assert (HB : In B models) by now apply next_In with (current := A).
  assert (Hlen : (2 <= List.length models)%nat).
  { apply (NoDup_incl_length (l := [A; B])).
    - repeat constructor; simpl; intuition congruence.
    - intros x [<-|[<-|[]]]; assumption. }
  destruct (Hfail 0%nat ltac:(lia)) as [e0 H0].
  destruct (Hfail 1%nat ltac:(lia)) as [e1 H1].
  destruct (Hfail 2%nat ltac:(lia)) as [e2 H2].
  assert (HretryA : retrying backend 2 A lc [] = (Failure e2, [A; A; A])).
  { cbn [retrying List.length app]. rewrite H0. cbn [List.length app].
    rewrite H1. cbn [List.length app]. now rewrite H2. }
  rewrite (loop_step_failure _ lc A B e2 [] [] [A; A; A]);
    simpl List.length; try lia; try assumption.
  2: { destruct B; [congruence | reflexivity]. }
  2: { unfold add, mem. simpl. rewrite orb_false_r.
       now apply String.eqb_neq. }
  assert (HretryB : exists l,
             retrying backend 2 B lc [A; A; A] = (Response c, l)).
  { cbn [retrying List.length app].
    destruct j as [|[|[|j]]]; try lia.
    - simpl in Hok. rewrite Hok. eexists; reflexivity.
    - destruct (HfailB 0%nat ltac:(lia)) as [e3 H3]. simpl in H3, Hok.
      rewrite H3. cbn [List.length app]. rewrite Hok.
      eexists; reflexivity.
    - destruct (HfailB 0%nat ltac:(lia)) as [e3 H3].
      destruct (HfailB 1%nat ltac:(lia)) as [e4 H4]. simpl in H3, H4, Hok.
      rewrite H3. cbn [List.length app]. rewrite H4.
      cbn [List.length app]. rewrite Hok. eexists; reflexivity. }
  destruct HretryB as [l HretryB]. exists l.
  apply loop_step_response; [|assumption].
  unfold add. simpl. lia.
Qed.


(** *** The rotation through the pool *)

Lemma thrice_app (a b : list string) :
  thrice (a ++ b) = (thrice a ++ thrice b)%list.
Proof. apply flat_map_app. Qed.

Lemma index_nth (l : list string) (i : nat) :
  NoDup l -> (i < List.length l)%nat -> index l (nth i l "") = Some i.
Proof.
  intros Hnd. revert i. induction Hnd as [|x l Hx Hnd IH]; intros i Hi;
    [simpl in Hi; lia|].
  destruct i as [|i]; cbn [nth index].
  - now rewrite String.eqb_refl.
  - simpl in Hi. destruct (String.eqb_spec x (nth i l "")) as [E|_].
    + exfalso. apply Hx. rewrite E. apply nth_In. lia.
    + rewrite IH by lia. reflexivity.
Qed.

Lemma index_absent (l : list string) (x : string) :
  ~ In x l -> index l x = None.
Proof.
  induction l as [|y l IH]; [reflexivity|]. intros H. cbn [index].
  destruct (String.eqb_spec y x) as [->|_]; [exfalso; apply H; now left|].
  rewrite IH; [reflexivity|]. intros Hin. apply H. now right.
Qed.

(** The fallback of the model at position [i] is the model at the next
    position, the first one after the last. *)
Lemma next_nth (i : nat) :
  NoDup models -> (i < List.length models)%nat ->
  next (nth i models "")
  = Some (nth ((i + 1) mod List.length models) models "").
Proof.
  intros Hnd Hi. unfold _get_next_fallback_model.
  rewrite index_nth by assumption.
  apply nth_error_nth'. apply Nat.mod_upper_bound. lia.
Qed.

Lemma next_absent (x : string) : ~ In x models -> next x = hd_error models.
Proof.
  intros H. unfold _get_next_fallback_model. now rewrite index_absent.
Qed.

Section AllFail.

Variable lc : list lc_message.
Hypothesis pool_distinct : NoDup models.
Hypothesis pool_named : Forall (fun m => m <> "") models.
Hypothesis all_fail : forall n m, exists e, backend n m lc = Failure e.

Lemma retrying_all_fail (model : string) (l : log) :
  exists e,
    retrying backend 2 model lc l = (Failure e, (l ++ [model; model; model])%list)
    /\ backend (List.length l + 2)%nat model lc = Failure e.
Proof.
  destruct (retrying_spec 2 model lc l) as (a & Ha & Hl & Hr & Hf).
  destruct (all_fail (List.length l + a - 1)%nat model) as [e He].
  rewrite He in Hr. specialize (Hf e Hr). subst a.
  exists e. split.
  - rewrite (surjective_pairing (retrying backend 2 model lc l)).
    now rewrite Hl, Hr.
  - rewrite <- He. f_equal. lia.
Qed.

Lemma pool_truthy (m : string) : In m models -> truthy m = true.
Proof.
  intros H. rewrite Forall_forall in pool_named.
  specialize (pool_named m H). now destruct m.
Qed.

Local Abbreviation rotated := (rotated models).

Lemma rotated_In (i0 j : nat) : models <> [] -> In (rotated i0 j) models.
Proof.
  intros H. apply nth_In. apply Nat.mod_upper_bound.
  destruct models; [congruence | discriminate].
Qed.

Lemma rotated_inj (i0 j k : nat) :
  (j < List.length models)%nat -> (k < List.length models)%nat ->
  rotated i0 j = rotated i0 k -> j = k.
Proof.
  unfold Gateway.rotated. intros Hj Hk H.
  assert (Hn : List.length models <> 0%nat) by lia.
  apply (proj1 (NoDup_nth models "") pool_distinct) in H;
    try (apply Nat.mod_upper_bound; assumption).
  assert (E : (((i0 + j) mod List.length models
                + (List.length models - i0 mod List.length models))
               mod List.length models
               = ((i0 + k) mod List.length models
                  + (List.length models - i0 mod List.length models))
                 mod List.length models)%nat)
    by now rewrite H.
  rewrite !Nat.Div0.add_mod_idemp_l in E.
  pose proof (Nat.mod_upper_bound i0 (List.length models) Hn) as Hlt.
  pose proof (Nat.div_mod_eq i0 (List.length models)) as Hdm.
  set (n := List.length models) in *. set (q := (i0 / n)%nat) in *.
  set (r := (i0 mod n)%nat) in *.
  replace (i0 + j + (n - r))%nat with (j + (q + 1) * n)%nat in E by nia.
  replace (i0 + k + (n - r))%nat with (k + (q + 1) * n)%nat in E by nia.
  rewrite !Nat.Div0.mod_add in E.
  now rewrite !Nat.mod_small in E by assumption.
Qed.

Lemma rotated_fresh (i0 k : nat) (j : nat) :
  (j < List.length models)%nat -> (k <= j)%nat ->
  ~ In (rotated i0 j) (rev (map (rotated i0) (seq 0 k))).
Proof.
  intros Hj Hk Hin. apply in_rev, in_map_iff in Hin.
  destruct Hin as (j' & E & Hj'). apply in_seq in Hj'.
  apply rotated_inj in E; lia.
Qed.

Lemma next_rotated (i0 j : nat) :
  models <> [] -> next (rotated i0 j) = Some (rotated i0 (j + 1)%nat).
Proof.
  intros H.
  assert (Hn : List.length models <> 0%nat)
    by (destruct models; [congruence | discriminate]).
  unfold Gateway.rotated.
  rewrite next_nth by (try apply Nat.mod_upper_bound; assumption).
  do 2 f_equal. rewrite Nat.Div0.add_mod_idemp_l. f_equal. lia.
Qed.

(** From step [k] of a rotation in which every call fails, the loop
    tries the models of the steps [k] to the last one, [d] of them, and
    raises the terminal error. *)
Lemma loop_rotation (i0 d k fuel : nat) (l : log) :
  (k + d = List.length models)%nat -> (1 <= d <= fuel)%nat ->
  exists e,
    loop fuel lc (rotated i0 k) (rev (map (rotated i0) (seq 0 k))) l
    = Some (Raise (GroqClientError ("All models failed. Last error: " ++ e)),
            (l ++ thrice (map (rotated i0) (seq k d)))%list)
    /\ backend (List.length l + 3 * d - 1)%nat
         (rotated i0 (List.length models - 1)) lc = Failure e.
Proof.
  revert k fuel l. induction d as [|d IH]; intros k fuel l Hk Hd; [lia|].
  destruct fuel as [|fuel]; [lia|].
  assert (Hne : models <> []) by (intros E; rewrite E in Hk; simpl in Hk; lia).
  destruct (retrying_all_fail (rotated i0 k) l) as (e & Hretry & He).
  assert (Hlen : List.length (rev (map (rotated i0) (seq 0 k))) = k)
    by now rewrite length_rev, length_map, length_seq.
  assert (Hadd : add (rotated i0 k) (rev (map (rotated i0) (seq 0 k)))
                 = rev (map (rotated i0) (seq 0 (S k)))).
  { rewrite add_fresh by (apply rotated_fresh; lia).
    rewrite seq_S, map_app, rev_app_distr. reflexivity. }
  destruct d as [|d].
  - (* the last model of the rotation *)
    exists e. split.
    + cbn [invoke_loop]. rewrite Hlen.
      destruct (Nat.ltb_spec k (List.length models)); [|lia].
      unfold _invoke_with_retry, stop_after_attempt. simpl Nat.sub.
      rewrite Hretry, next_rotated by assumption.
      rewrite Hadd.
      assert (Hwrap : rotated i0 (k + 1)%nat = rotated i0 0%nat).
      { unfold Gateway.rotated. f_equal. replace (i0 + (k + 1))%nat
          with (i0 + 0 + 1 * List.length models)%nat by lia.
        now rewrite Nat.Div0.mod_add. }
      rewrite Hwrap.
      assert (Hin : mem (rotated i0 0%nat)
                      (rev (map (rotated i0) (seq 0 (S k))))
                    = true).
      { apply mem_In. apply -> in_rev. apply in_map. apply in_seq. lia. }
      rewrite Hin, andb_false_r. cbn [seq map thrice flat_map].
      now rewrite app_nil_r.
    + replace (List.length models - 1)%nat with k by lia.
      rewrite <- He. f_equal. lia.
  - destruct (IH (S k) fuel (l ++ [rotated i0 k; rotated i0 k; rotated i0 k])%list)
      as (e' & Hloop & He'); [lia | lia |].
    exists e'. split.
    + erewrite loop_step_failure;
        [ | rewrite Hlen; lia | exact Hretry | now apply next_rotated
          | apply pool_truthy; now apply rotated_In
          | rewrite Hadd; apply mem_false; apply rotated_fresh; lia ].
      rewrite Hadd. replace (k + 1)%nat with (S k) by lia.
      rewrite Hloop. rewrite <- app_assoc. reflexivity.
    + rewrite <- He'. f_equal. rewrite length_app. simpl. lia.
Qed.

(** The loop entered with a model that is not of the pool: the models
    tried are counted against the size of the pool, the named one
    included. *)
Lemma loop_foreign (x : string) (d k fuel : nat) (l : log) :
  ~ In x models ->
  (k + d + 1 = List.length models)%nat -> (d <= fuel)%nat ->
  loop fuel lc (rotated 0 k)
    (rev (map (rotated 0) (seq 0 k)) ++ [x])%list l
  = Some (Raise (GroqClientError "No available models to try"),
          (l ++ thrice (map (rotated 0) (seq k d)))%list).
Proof.
  intros Hx. revert k fuel l. induction d as [|d IH]; intros k fuel l Hk Hd.
  - assert (Hlen : List.length (rev (map (rotated 0) (seq 0 k)) ++ [x])%list
                   = List.length models).
    { rewrite length_app, length_rev, length_map, length_seq. simpl. lia. }
    rewrite app_nil_r.
    destruct fuel; cbn [invoke_loop]; rewrite Hlen, Nat.ltb_irrefl;
      reflexivity.
  - destruct fuel as [|fuel]; [lia|].
    assert (Hne : models <> [])
      by (intros E; rewrite E in Hk; simpl in Hk; lia).
    destruct (retrying_all_fail (rotated 0 k) l) as (e & Hretry & _).
    assert (Hfresh : forall j, (k <= j < List.length models)%nat ->
                ~ In (rotated 0 j)
                    (rev (map (rotated 0) (seq 0 k)) ++ [x])%list).
    { intros j Hj Hin. apply in_app_or in Hin. destruct Hin as [Hin|[E|[]]].
      - revert Hin. apply rotated_fresh; lia.
      - apply Hx. rewrite E. now apply rotated_In. }
    assert (Hadd : add (rotated 0 k)
                     (rev (map (rotated 0) (seq 0 k)) ++ [x])%list
                   = (rev (map (rotated 0) (seq 0 (S k))) ++ [x])%list).
    { rewrite add_fresh by (apply Hfresh; lia).
      rewrite seq_S, map_app, rev_app_distr. reflexivity. }
    erewrite loop_step_failure;
      [ | rewrite length_app, length_rev, length_map, length_seq; simpl; lia
        | exact Hretry | now apply next_rotated
        | apply pool_truthy; now apply rotated_In
        | rewrite Hadd; apply mem_false;
          replace (k + 1)%nat with (S k) by lia;
          intros Hin; apply in_app_or in Hin; destruct Hin as [Hin|[E|[]]];
          [ revert Hin; apply rotated_fresh; lia
          | apply Hx; rewrite E; now apply rotated_In ] ].
    rewrite Hadd. replace (k + 1)%nat with (S k) by lia.
    rewrite IH by lia. now rewrite <- app_assoc.
Qed.

Lemma count_occ_thrice (ms : list string) (m : string) :
  count_occ string_dec (thrice ms) m = (3 * count_occ string_dec ms m)%nat.
Proof.
  induction ms as [|x ms IH]; [reflexivity|].
  cbn [thrice flat_map]. cbn [app count_occ]. fold (thrice ms). rewrite IH.
  destruct (string_dec x m); lia.
Qed.

Lemma length_thrice (ms : list string) :
  List.length (thrice ms) = (3 * List.length ms)%nat.
Proof.
  induction ms as [|x ms IH]; [reflexivity|].
  cbn [thrice flat_map]. cbn [app List.length]. fold (thrice ms). lia.
Qed.

(** A whole rotation visits every model of the pool once. *)
Lemma rotation_once (i0 : nat) (m : string) :
  In m models ->
  count_occ string_dec
    (map (rotated i0) (seq 0 (List.length models))) m = 1%nat.
Proof.
  intros Hm.
  assert (Hnd : NoDup (map (rotated i0) (seq 0 (List.length models)))).
  { apply NoDup_map_NoDup_ForallPairs; [|apply seq_NoDup].
    intros a b Ha Hb. apply in_seq in Ha, Hb. apply rotated_inj; lia. }
  apply NoDup_count_occ'; [exact Hnd|].
  apply (NoDup_length_incl Hnd (l' := models)).
  - rewrite length_map, length_seq. lia.
  - intros y Hy. apply in_map_iff in Hy. destruct Hy as (j & <- & _).
    apply rotated_In. intros E. rewrite E in Hm. destruct Hm.
  - exact Hm.
Qed.

End AllFail.
Lemma retrying_first_response (k j : nat) (model c : string)
      (lc : list lc_message) (l : log) :
  (j <= k)%nat ->
  (forall i, (i < j)%nat ->
             exists e, backend (List.length l + i) model lc = Failure e) ->
  backend (List.length l + j) model lc = Response c ->
  retrying backend k model lc l = (Response c, (l ++ repeat model (S j))%list).
Proof.
  revert k l. induction j as [|j IH]; intros k l Hk Hfail Hok.
  - rewrite Nat.add_0_r in Hok. destruct k; cbn [retrying]; now rewrite Hok.
  - destruct k as [|k]; [lia|]. cbn [retrying].
    destruct (Hfail 0%nat ltac:(lia)) as [e He].
    rewrite Nat.add_0_r in He. rewrite He.
    rewrite IH; [now rewrite <- app_assoc | lia | |].
    + intros i Hi. destruct (Hfail (S i) ltac:(lia)) as [e' He'].
      exists e'. rewrite <- He'. f_equal. rewrite length_app. simpl. lia.
    + rewrite <- Hok. f_equal. rewrite length_app. simpl. lia.
Qed.

Lemma rotation_from_start (k : nat) :
  (k <= List.length models)%nat ->
  map (rotated models 0) (seq 0 k) = firstn k models.
Proof.
  intros Hk.
  rewrite (map_ext_in _ (fun j => nth j models "")).
  - revert k Hk.
    induction models as [|x l IH]; intros k Hk.
    + simpl in Hk. now replace k with 0%nat by lia.
    + destruct k as [|k]; [reflexivity|]. cbn [seq map nth firstn].
      f_equal. rewrite <- seq_shift, map_map. apply IH. simpl in Hk. lia.
  - intros j Hj. apply in_seq in Hj. unfold Gateway.rotated. simpl.
    now rewrite Nat.mod_small by lia.
Qed.

Lemma hd_error_rotated :
  models <> [] -> hd_error models = Some (rotated models 0 0).
Proof.
  unfold Gateway.rotated. destruct models as [|x l]; [congruence|]. intros _.
  simpl. now rewrite Nat.sub_diag.
Qed.

Lemma hd_In : models <> [] -> In (rotated models 0 0) models.
Proof.
  intros H. apply hd_error_rotated in H.
  destruct models; [discriminate|]. injection H as <-. now left.
Qed.

Lemma In_thrice (ms : list string) (m : string) :
  In m (thrice ms) -> In m ms.
Proof.
  unfold thrice. rewrite in_flat_map. intros (x & Hx & Hm).
  simpl in Hm. intuition congruence.
Qed.

(** X4. When every call of the backend fails, the pool has no duplicate
    and no empty name and no model is named, [invoke] tries the whole
    pool: it starts at the model drawn at random, goes on in pool order,
    wrapping around, calls every model of the pool exactly three times,
    three times the size of the pool in all, and only then raises the
    error that all models failed. *)
Theorem invoke_tries_whole_pool (messages : list message)
        (system_prompt : option string) (rnd : nat) :
  let lc := to_lc_messages system_prompt messages in
  let n := List.length models in
  models <> [] -> NoDup models -> Forall (fun m => m <> "") models ->
  (forall k m, exists e, backend k m lc = Failure e) ->
  exists e l,
    invoke clean_llm_response models backend n messages system_prompt
      None rnd
    = Some (Raise (GroqClientError ("All models failed. Last error: " ++ e)),
            l)
    /\ l = thrice (map (rotated models (rnd mod n)) (seq 0 n))
    /\ (forall m, In m models -> count_occ string_dec l m = 3%nat)
    /\ List.length l = (3 * n)%nat.
Proof.
  intros lc n Hne Hnd Hnamed Hfail.
  assert (Hn : n <> 0%nat)
    by (unfold n; destruct models; [congruence | discriminate]).
  destruct (loop_rotation lc Hnd Hnamed Hfail (rnd mod n) n 0 n [])
    as (e & Hloop & _); [reflexivity | lia |].
  exists e, (thrice (map (rotated models (rnd mod n)) (seq 0 n))).
  split; [|split; [reflexivity|split]].
  - assert (Hsel : _get_random_model models rnd
                   = inr (rotated models (rnd mod n) 0)).
    { unfold _get_random_model, Gateway.rotated. fold n.
      rewrite Nat.add_0_r, Nat.Div0.mod_mod.
      clear - Hne. destruct models; [congruence | reflexivity]. }
    unfold invoke. cbn [select_model]. rewrite Hsel. exact Hloop.
  - intros m Hm. rewrite count_occ_thrice.
    now rewrite (rotation_once Hnd) by assumption.
  - now rewrite length_thrice, length_map, length_seq.
Qed.

(** X5. When [invoke] is given a [model_name] that is not in the pool
    and every call fails, the named model counts as one of the models
    tried: [invoke] tries it and then the pool from its first model on,
    stops one short of the end, and raises "No available models to try";
    the last model of the pool is never called. *)
Theorem invoke_named_model_outside_pool (messages : list message)
        (system_prompt : option string) (x : string) (rnd : nat) :
  let lc := to_lc_messages system_prompt messages in
  let l := thrice (x :: removelast models) in
  x <> "" -> ~ In x models ->
  models <> [] -> NoDup models -> Forall (fun m => m <> "") models ->
  (forall k m, exists e, backend k m lc = Failure e) ->
  invoke clean_llm_response models backend (List.length models) messages
    system_prompt (Some x) rnd
  = Some (Raise (GroqClientError "No available models to try"), l)
  /\ ~ In (last models "") l.
Proof.
  intros lc l Hx Hout Hne Hnd Hnamed Hfail. split.
  - unfold invoke. cbn [select_model].
    assert (Ht : truthy x = true) by now destruct x.
    rewrite Ht. fold lc.
    destruct (List.length models) as [|n] eqn:Hn;
      [apply length_zero_iff_nil in Hn; congruence|].
    destruct (retrying_all_fail lc Hfail x []) as (e & Hretry & _).
    erewrite loop_step_failure;
      [ | simpl; lia | exact Hretry
        | rewrite next_absent by assumption; now apply hd_error_rotated
        | apply (pool_truthy Hnamed); now apply hd_In
        | apply mem_false; intros [E|[]]; apply Hout; rewrite E;
          now apply hd_In ].
    change (add x []) with (rev (map (rotated models 0) (seq 0 0)) ++ [x])%list.
    rewrite (loop_foreign lc Hnd Hnamed Hfail x n) by (assumption || lia).
    do 2 f_equal. unfold l. cbn [thrice flat_map app].
    rewrite rotation_from_start by lia.
    rewrite removelast_firstn_len, Hn. reflexivity.
  - intros Hin. apply In_thrice in Hin. destruct Hin as [E|Hin].
    + apply Hout. rewrite E.
      destruct (exists_last Hne) as (ms & y & ->). rewrite last_last.
      apply in_or_app. right. now left.
    + destruct (exists_last Hne) as (ms & y & E). rewrite E in *.
      rewrite last_last, removelast_last in Hin.
      apply NoDup_remove_2 in Hnd. apply Hnd. now rewrite app_nil_r.
Qed.

(** X6. A named model, in the pool or not, is called first: when it
    answers at one of its three attempts, [invoke] returns its cleaned
    content with [model_used] the named model, after failures of that
    model only; with an empty pool [invoke] raises "No available models
    to try" without any call. *)
Theorem invoke_named_model (messages : list message)
        (system_prompt : option string) (m : string) (rnd fuel : nat) :
  let lc := to_lc_messages system_prompt messages in
  m <> "" ->
  (models = [] ->
   invoke clean_llm_response models backend fuel messages system_prompt
     (Some m) rnd
   = Some (Raise (GroqClientError "No available models to try"), []))
  /\ (models <> [] ->
      forall j c,
        (j < 3)%nat ->
        (forall i, (i < j)%nat -> exists e, backend i m lc = Failure e) ->
        backend j m lc = Response c ->
        invoke clean_llm_response models backend (S fuel) messages
          system_prompt (Some m) rnd
        = Some (Return {| result_content := clean_llm_response c;
                          model_used := m;
                          success := true |}, repeat m (S j))).
Proof.
  intros lc Hm.
  assert (Ht : truthy m = true) by now destruct m.
  unfold invoke. cbn [select_model]. rewrite Ht. fold lc. split.
  - intros ->. now destruct fuel.
  - intros Hne j c Hj Hfail Hok.
    apply loop_step_response.
    + destruct models; [congruence | simpl; lia].
    + change (repeat m (S j)) with ([] ++ repeat m (S j))%list.
      apply retrying_first_response; [lia | exact Hfail | exact Hok].
Qed.

End Client.


Lemma groq_models_distinct : NoDup groq_models.
Proof.
  unfold groq_models.
  repeat (constructor; [simpl; intuition discriminate|]). constructor.
Qed.

Lemma groq_models_named : Forall (fun m => m <> "") groq_models.
Proof. repeat constructor; discriminate. Qed.

Lemma invoke_tries_whole_pool_default :
  exists e l,
    invoke (fun s => s) groq_models all_models_down 10
      [{| role := Some "user"; content := Some "hello" |}] None None 7
    = Some (Raise (GroqClientError ("All models failed. Last error: " ++ e)),
            l)
    /\ List.length l = 30%nat.
Proof.
  destruct (invoke_tries_whole_pool (fun s => s) groq_models all_models_down
              [{| role := Some "user"; content := Some "hello" |}] None 7
              ltac:(discriminate) groq_models_distinct groq_models_named
              ltac:(intros; eexists; reflexivity))
    as (e & l & H & _ & _ & Hlen).
  exists e, l. split; [exact H | exact Hlen].
Defined.

Lemma invoke_named_model_outside_pool_default :
  invoke (fun s => s) groq_models all_models_down 10
    [{| role := Some "user"; content := Some "hello" |}] None
    (Some "mixtral-8x7b") 0
  = Some (Raise (GroqClientError "No available models to try"),
          thrice ("mixtral-8x7b" :: removelast groq_models))
  /\ ~ In "groq/compound-mini"
         (thrice ("mixtral-8x7b" :: removelast groq_models)).
Proof.
  apply (invoke_named_model_outside_pool (fun s => s) groq_models
           all_models_down
           [{| role := Some "user"; content := Some "hello" |}] None
           "mixtral-8x7b" 0).
  - discriminate.
  - simpl. intuition discriminate.
  - discriminate.
  - exact groq_models_distinct.
  - exact groq_models_named.
  - intros. eexists. reflexivity.
Defined.

Lemma invoke_named_model_answers :
  invoke (fun s => s) groq_models first_model_down 1
    [{| role := Some "user"; content := Some "hello" |}] None
    (Some "mixtral-8x7b") 0
  = Some (Return {| result_content := "ok"; model_used := "mixtral-8x7b";
                    success := true |}, ["mixtral-8x7b"]).
Proof.
  apply (proj2 (invoke_named_model (fun s => s) groq_models first_model_down
                  [{| role := Some "user"; content := Some "hello" |}] None
                  "mixtral-8x7b" 0 0 ltac:(discriminate))
           ltac:(discriminate) 0%nat "ok" ltac:(lia)).
  - intros i Hi. lia.
  - reflexivity.
Defined.

(** *** [clean_llm_response] *)

Lemma sub_blank_lines_skip (k : nat) (s : string) :
  k = newlines s ->
  sub_blank_lines k s = sub_blank_lines 0 (drop_newlines s).
Proof.
  revert k. induction s as [|c s IH]; intros k Hk; cbn [newlines] in Hk.
  - now subst k.
  - cbn [drop_newlines]. destruct (Ascii.eqb c (ascii_of_nat 10)).
    + subst k. cbn [sub_blank_lines]. now apply IH.
    + now subst k.
Qed.

Lemma newlines_drop (s : string) : newlines (drop_newlines s) = 0%nat.
Proof.
  induction s as [|c s IH]; [reflexivity|]. cbn [drop_newlines].
  destruct (Ascii.eqb c (ascii_of_nat 10)) eqn:E; [exact IH|].
  cbn [newlines]. now rewrite E.
Qed.

Lemma length_drop_newlines (s : string) :
  (String.length (drop_newlines s) <= String.length s)%nat.
Proof.
  induction s as [|c s IH]; [reflexivity|]. cbn [drop_newlines].
  destruct (Ascii.eqb c (ascii_of_nat 10)); cbn [String.length]; lia.
Qed.

Lemma sub_blank_lines_spec (n : nat) (s : string) :
  (String.length s <= n)%nat ->
  newlines (sub_blank_lines 0 s) = Nat.min (newlines s) 2
  /\ blank_free (sub_blank_lines 0 s) = true.
Proof.
  revert s. induction n as [|n IH]; intros s Hn.
  - destruct s; [now split | simpl in Hn; lia].
  - destruct s as [|c s]; [now split|]. cbn [String.length] in Hn.
    cbn [sub_blank_lines].
    destruct (Nat.leb_spec 3 (newlines (String c s))) as [Hrun|Hrun].
    + cbn [newlines] in Hrun |- *.
      destruct (Ascii.eqb_spec c (ascii_of_nat 10)) as [->|_]; [|lia].
      replace (S (newlines s) - 1)%nat with (newlines s) by lia.
      rewrite sub_blank_lines_skip by reflexivity.
      pose proof (length_drop_newlines s).
      destruct (IH (drop_newlines s) ltac:(lia)) as [Hl Hf].
      rewrite newlines_drop in Hl.
      change (LF ++ LF ++ ?x) with (String (ascii_of_nat 10)
                                      (String (ascii_of_nat 10) x)).
      cbn [newlines blank_free]. rewrite Ascii.eqb_refl, Hl, Hf.
      split; [lia | reflexivity].
    + destruct (IH s ltac:(lia)) as [Hl Hf].
      cbn [newlines blank_free] in Hrun |- *. rewrite Hf, andb_true_r.
      destruct (Ascii.eqb c (ascii_of_nat 10)).
      * rewrite Hl. split; [lia|]. apply Nat.ltb_lt. lia.
      * now split.
Qed.

Lemma startswith_newlines (s : string) :
  startswith s (LF ++ LF ++ LF) = true -> (3 <= newlines s)%nat.
Proof.
  destruct s as [|c1 [|c2 [|c3 s]]]; cbn [startswith LF append];
    try discriminate;
    try (now destruct (Ascii.eqb _ c1));
    try (now destruct (Ascii.eqb _ c1), (Ascii.eqb _ c2)).
  intros H. apply andb_prop in H. destruct H as [H1 H].
  apply andb_prop in H. destruct H as [H2 H].
  apply andb_prop in H. destruct H as [H3 _].
  apply Ascii.eqb_eq in H1, H2, H3. subst. cbn [newlines].
  rewrite !Ascii.eqb_refl. lia.
Qed.

Lemma blank_free_contains (s : string) :
  blank_free s = true -> contains s (LF ++ LF ++ LF) = false.
Proof.
  induction s as [|c s IH]; [reflexivity|]. cbn [blank_free].
  intros H. apply andb_prop in H. destruct H as [Hrun Hf].
  cbn [contains]. rewrite (IH Hf), orb_false_r.
  destruct (startswith (String c s) (LF ++ LF ++ LF)) eqn:E; [|reflexivity].
  apply startswith_newlines in E. apply Nat.ltb_lt in Hrun. lia.
Qed.

Lemma startswith_decompose (s sub : string) :
  startswith s sub = true -> exists b, s = sub ++ b.
Proof.
  revert s. induction sub as [|c sub IH]; intros s H; [now exists s|].
  destruct s as [|c' s]; [discriminate|]. cbn [startswith] in H.
  apply andb_prop in H. destruct H as [Hc H].
  apply Ascii.eqb_eq in Hc. subst c'. destruct (IH s H) as [b ->].
  now exists b.
Qed.

Lemma contains_decompose (s sub : string) :
  contains s sub = true -> exists a b, s = a ++ sub ++ b.
Proof.
  induction s as [|c s IH]; cbn [contains]; intros H;
    apply orb_prop in H; destruct H as [H|H]; try discriminate;
    try (apply startswith_decompose in H; destruct H as [b ->];
         now exists "", b).
  destruct (IH H) as (a & b & ->). now exists (String c a), b.
Qed.

(** X21. Whatever the text, [clean_llm_response] returns a text without
    any run of three or more newlines and without whitespace at either
    end. *)
Theorem clean_llm_response_blank_lines (text : string) :
  contains (clean_llm_response text) (LF ++ LF ++ LF) = false
  /\ strip (clean_llm_response text) = clean_llm_response text.
Proof.
  unfold clean_llm_response. destruct text as [|c text]; [now split|].
  cbn [truthy negb].
  set (cleaned := sub_blank_lines 0 _).
  split; [|apply PyStrFacts.strip_idem].
  destruct (contains (strip cleaned) (LF ++ LF ++ LF)) eqn:E; [|reflexivity].
  apply contains_decompose in E. destruct E as (a & b & E).
  destruct (PyStrFacts.strip_inside cleaned) as (a' & b' & Hc).
  rewrite E in Hc.
  assert (Hin : contains cleaned (LF ++ LF ++ LF) = true).
  { rewrite Hc.
    replace (a' ++ (a ++ (LF ++ LF ++ LF) ++ b) ++ b')
      with ((a' ++ a) ++ (LF ++ LF ++ LF) ++ (b ++ b'))
      by now rewrite !PyStrFacts.append_assoc.
    apply PyStrFacts.contains_inside. }
  destruct (sub_blank_lines_spec (String.length (sub_think_tags 0
              (sub_think_blocks 0 (String c text)))) _ (Nat.le_refl _))
    as [_ Hf].
  apply blank_free_contains in Hf. fold cleaned in Hf. congruence.
Qed.
Lemma lower_char_lt (c : ascii) :
  Ascii.eqb "<" (lower_char c) = Ascii.eqb "<" c.
Proof. destruct c as [[] [] [] [] [] [] [] []]; reflexivity. Qed.

Lemma startswith_empty (s : string) : startswith s "" = true.
Proof. now destruct s. Qed.

Lemma contains_lt_cons (c : ascii) (s : string) :
  contains (String c s) "<" = false ->
  Ascii.eqb "<" c = false /\ contains s "<" = false.
Proof.
  cbn [contains startswith]. rewrite startswith_empty, andb_true_r.
  intros H. now apply orb_false_elim in H.
Qed.

Lemma lower_plain (s : string) :
  contains s "<" = false -> contains (lower s) "<" = false.
Proof.
  induction s as [|c s IH]; [reflexivity|]. intros H.
  apply contains_lt_cons in H. destruct H as [Hc Hs].
  cbn [lower contains startswith].
  now rewrite lower_char_lt, Hc, startswith_empty, IH.
Qed.

Lemma sub_think_blocks_plain (s : string) :
  contains s "<" = false -> sub_think_blocks 0 s = s.
Proof.
  induction s as [|c s IH]; [reflexivity|]. intros H.
  apply contains_lt_cons in H. destruct H as [Hc Hs].
  cbn [sub_think_blocks lower startswith think_open].
  now rewrite lower_char_lt, Hc, IH.
Qed.

Lemma sub_think_tags_plain (s : string) :
  contains s "<" = false -> sub_think_tags 0 s = s.
Proof.
  induction s as [|c s IH]; [reflexivity|]. intros H.
  apply contains_lt_cons in H. destruct H as [Hc Hs].
  cbn [sub_think_tags lower startswith think_open think_close].
  now rewrite lower_char_lt, Hc, IH.
Qed.

Lemma newlines_startswith (s : string) :
  (3 <= newlines s)%nat -> startswith s (LF ++ LF ++ LF) = true.
Proof.
  destruct s as [|c1 s]; cbn [newlines]; [lia|].
  destruct (Ascii.eqb_spec c1 (ascii_of_nat 10)) as [->|_]; [|lia].
  destruct s as [|c2 s]; cbn [newlines]; [lia|].
  destruct (Ascii.eqb_spec c2 (ascii_of_nat 10)) as [->|_]; [|lia].
  destruct s as [|c3 s]; cbn [newlines]; [lia|].
  destruct (Ascii.eqb_spec c3 (ascii_of_nat 10)) as [->|_]; [|lia].
  intros _. cbn. apply startswith_empty.
Qed.

Lemma sub_blank_lines_plain (s : string) :
  contains s (LF ++ LF ++ LF) = false -> sub_blank_lines 0 s = s.
Proof.
  induction s as [|c s IH]; [reflexivity|]. cbn [contains].
  intros H. apply orb_false_elim in H. destruct H as [Hhere Hs].
  cbn [sub_blank_lines].
  destruct (Nat.leb_spec 3 (newlines (String c s))) as [Hrun|_].
  - apply newlines_startswith in Hrun. congruence.
  - now rewrite IH.
Qed.

(** X22. A text without the character "<" and without a run of three
    newlines is returned as it is, but for the whitespace at its ends. *)
Theorem clean_llm_response_plain (text : string) :
  contains text "<" = false ->
  contains text (LF ++ LF ++ LF) = false ->
  clean_llm_response text = strip text.
Proof.
  intros Hlt Hblank. unfold clean_llm_response.
  destruct text as [|c text]; [reflexivity|]. cbn [truthy negb].
  rewrite sub_think_blocks_plain, sub_think_tags_plain by assumption.
  now rewrite sub_blank_lines_plain.
Qed.

Lemma lower_append (a b : string) : lower (a ++ b) = lower a ++ lower b.
Proof.
  induction a as [|c a IH]; [reflexivity|]. cbn [append lower].
  now rewrite IH.
Qed.

Lemma length_lower (s : string) : String.length (lower s) = String.length s.
Proof. induction s as [|c s IH]; [reflexivity|]. cbn. now rewrite IH. Qed.

Lemma substring_all (m : nat) (s : string) :
  (String.length s <= m)%nat -> substring 0 m s = s.
Proof.
  revert m. induction s as [|c s IH]; intros m Hm; [now destruct m|].
  destruct m as [|m]; cbn [String.length] in Hm; [lia|].
  cbn [substring]. rewrite IH by lia. reflexivity.
Qed.

Lemma first_index_plain (x y : string) :
  contains x "<" = false ->
  first_index (x ++ think_close ++ y) think_close = Some (String.length x).
Proof.
  induction x as [|c x IH]; intros H.
  - cbn [append String.length]. unfold think_close.
    cbn [append first_index startswith Ascii.eqb Bool.eqb andb].
    now rewrite startswith_empty.
  - apply contains_lt_cons in H. destruct H as [Hc Hx].
    assert (Hs : forall z, startswith (String c z) think_close = false)
      by (intros z; unfold think_close; cbn [startswith]; now rewrite Hc).
    cbn [append first_index]. now rewrite Hs, (IH Hx).
Qed.

Lemma sub_think_blocks_skip (p s : string) (k : nat) :
  sub_think_blocks (String.length p + k) (p ++ s) = sub_think_blocks k s.
Proof.
  induction p as [|c p IH]; [reflexivity|].
  cbn [String.length append Nat.add sub_think_blocks]. exact IH.
Qed.

Lemma length_append (a b : string) :
  String.length (a ++ b) = (String.length a + String.length b)%nat.
Proof. induction a as [|c a IH]; [reflexivity|]. cbn. now rewrite IH. Qed.

Lemma sub_think_blocks_match (c : ascii) (s : string) (k : nat) :
  startswith (lower (String c s)) think_open = true ->
  first_index (lower (substring 7 (String.length (String c s)) (String c s)))
    think_close = Some k ->
  sub_think_blocks 0 (String c s) = sub_think_blocks (6 + k + 8) s.
Proof. intros Hopen Hclose. cbn [sub_think_blocks]. now rewrite Hopen, Hclose. Qed.

(** X23. A reasoning block in front of the answer is removed with its
    tags: for a reasoning and an answer without the character "<", and
    an answer without a run of three newlines, cleaning
    [<think>reasoning</think>answer] gives the answer without the
    whitespace at its ends. *)
Theorem clean_llm_response_think_block (reasoning answer : string) :
  contains reasoning "<" = false ->
  contains answer "<" = false ->
  contains answer (LF ++ LF ++ LF) = false ->
  clean_llm_response (think_open ++ reasoning ++ think_close ++ answer)
  = strip answer.
Proof.
  intros Hr Ha Hblank.
  set (rest := reasoning ++ think_close ++ answer).
  assert (Hblocks : sub_think_blocks 0 (think_open ++ rest) = answer).
  { change (think_open ++ rest) with (String "<" ("think>" ++ rest)).
    rewrite (sub_think_blocks_match _ _ (String.length reasoning)).
    - replace ("think>" ++ rest)
        with (("think>" ++ reasoning ++ think_close) ++ answer)
        by (unfold rest; now rewrite !PyStrFacts.append_assoc).
      replace (6 + String.length reasoning + 8)%nat
        with (String.length ("think>" ++ reasoning ++ think_close) + 0)%nat
        by (rewrite !length_append; simpl; lia).
      rewrite sub_think_blocks_skip. now apply sub_think_blocks_plain.
    - change (String "<" ("think>" ++ rest)) with (think_open ++ rest).
      rewrite lower_append. apply PyStrFacts.startswith_append.
    - cbn [append String.length substring].
      rewrite substring_all by lia. unfold rest.
      rewrite !lower_append. change (lower think_close) with think_close.
      rewrite first_index_plain by now apply lower_plain.
      now rewrite length_lower. }
  unfold clean_llm_response. fold rest. rewrite Hblocks.
  cbn [think_open append truthy negb].
  rewrite sub_think_tags_plain by assumption.
  now rewrite sub_blank_lines_plain.
Qed.

Lemma clean_llm_response_plain_answer :
  clean_llm_response "  The total is 10 EUR. " = "The total is 10 EUR.".
Proof.
  rewrite clean_llm_response_plain; reflexivity.
Defined.

Lemma clean_llm_response_think_block_answer :
  clean_llm_response
    (think_open ++ "The user asks for the total." ++ think_close
     ++ " The total is 10 EUR.")
  = "The total is 10 EUR.".
Proof.
  rewrite clean_llm_response_think_block; reflexivity.
Defined.

End GatewayFacts.

(** ** Retrieval *)

Module RetrievalFacts.
Import PyStr Py Effects Services Retrieval.

(** *** Stable sorting *)

Section StableSort.

Variable A : Type.
Variable before : A -> A -> bool.

Lemma insert_sorted_perm (x : A) (l : list A) :
  Permutation (insert_sorted before x l) (x :: l).
Proof.
  induction l as [|y l IH]; simpl; [reflexivity|].
  destruct (before y x); [|reflexivity].
  rewrite IH. apply perm_swap.
Qed.

Lemma stable_sort_perm (l : list A) : Permutation (stable_sort before l) l.
Proof.
  induction l as [|x l IH]; simpl; [reflexivity|].
  rewrite insert_sorted_perm. now constructor.
Qed.

(** Elements of one class, none of which must come before another, keep
    their order. *)
Lemma insert_sorted_stable (p : A -> bool) (x : A) (l : list A) :
  (forall a b, p a = true -> p b = true -> before a b = false) ->
  filter p (insert_sorted before x l) = filter p (x :: l).
Proof.
  intros Hclass. induction l as [|y l IH]; [reflexivity|].
  cbn [insert_sorted]. destruct (before y x) eqn:E; [|reflexivity].
  cbn [filter] in *. rewrite IH.
  destruct (p y) eqn:Py, (p x) eqn:Px; try reflexivity.
  rewrite (Hclass y x Py Px) in E. discriminate.
Qed.

Lemma stable_sort_stable (p : A -> bool) (l : list A) :
  (forall a b, p a = true -> p b = true -> before a b = false) ->
  filter p (stable_sort before l) = filter p l.
Proof.
  intros Hclass. induction l as [|x l IH]; [reflexivity|].
  cbn [stable_sort fold_right]. fold (stable_sort before l).
  rewrite insert_sorted_stable by assumption.
  cbn [filter]. now rewrite IH.
Qed.

Local Abbreviation ordered := (ordered before).

Hypothesis before_asym : forall a b, before a b = true -> before b a = false.
Hypothesis ordered_trans :
  forall a b c, ordered a b -> ordered b c -> ordered a c.

Lemma insert_sorted_sorted (x : A) (l : list A) :
  StronglySorted ordered l ->
  StronglySorted ordered (insert_sorted before x l).
Proof.
  induction 1 as [|y l Hs IH Hy]; simpl; [repeat constructor|].
  destruct (before y x) eqn:E.
  - constructor; [assumption|].
    eapply Permutation_Forall; [symmetry; apply insert_sorted_perm|].
    constructor; [now apply before_asym | assumption].
  - constructor; [now constructor|].
    constructor; [exact E|].
    eapply Forall_impl; [|exact Hy].
    intros z Hz. now apply ordered_trans with (b := y).
Qed.

Lemma stable_sort_sorted (l : list A) :
  StronglySorted ordered (stable_sort before l).
Proof.
  induction l as [|x l IH]; simpl; [constructor|].
  now apply insert_sorted_sorted.
Qed.

End StableSort.

Lemma StronglySorted_weaken {A : Type} (R1 R2 : A -> A -> Prop)
      (l : list A) :
  (forall a b, R1 a b -> R2 a b) ->
  StronglySorted R1 l -> StronglySorted R2 l.
Proof.
  intros Himpl. induction 1 as [|x l Hs IH Hx]; constructor;
    [assumption|].
  eapply Forall_impl; [|exact Hx]. auto.
Qed.

(** *** Ranking *)

(** The denominator of the similarity is positive for all vectors, the
    zero vector included. *)
Lemma denominator_positive (q e : vector) : (0 < denominator q e)%R.
Proof.
  unfold denominator, norm, epsilon.
  pose proof (sqrt_pos (dot q q)). pose proof (sqrt_pos (dot e e)).
  assert (0 <= R_sqrt.sqrt (dot q q) * R_sqrt.sqrt (dot e e))%R
    by now apply Rmult_le_pos.
  lra.
Qed.

Lemma similarities_scores (q : vector) (embs : list EmbeddingChunk) :
  Forall (fun c => List.length (embedding c) = List.length q) embs ->
  similarities q embs = inr (map (fun c => (score q c, c)) embs).
Proof.
  induction 1 as [|c embs Hc _ IH]; simpl; [reflexivity|].
  unfold cosine, np_dot. rewrite Hc, Nat.eqb_refl, IH. reflexivity.
Qed.

Lemma take_all {A : Type} (k : Z) (l : list A) :
  Z.of_nat (List.length l) <= k -> take k l = l.
Proof.
  intros H. unfold take, clamp.
  destruct (Z.ltb_spec k 0); [lia|].
  apply firstn_all2. lia.
Qed.

Lemma take_length {A : Type} (k : Z) (l : list A) :
  0 <= k -> Z.of_nat (List.length (take k l)) <= k.
Proof.
  intros H. unfold take, clamp.
  destruct (Z.ltb_spec k 0); [lia|].
  rewrite length_firstn. lia.
Qed.

Lemma greater_asym (a b : R * EmbeddingChunk) :
  greater a b = true -> greater b a = false.
Proof.
  unfold greater.
  destruct (Rlt_dec (fst b) (fst a)), (Rlt_dec (fst a) (fst b));
    (reflexivity || discriminate || lra).
Qed.

Lemma ordered_greater (a b : R * EmbeddingChunk) :
  ordered greater a b <-> (fst b <= fst a)%R.
Proof.
  unfold ordered, greater.
  destruct (Rlt_dec (fst a) (fst b)); split; intros;
    (reflexivity || discriminate || lra).
Qed.

Lemma sort_desc_sorted (l : list (R * EmbeddingChunk)) :
  StronglySorted (fun a b => (fst b <= fst a)%R) (sort_desc l).
Proof.
  apply (StronglySorted_weaken (ordered greater)).
  - intros a b. apply ordered_greater.
  - apply stable_sort_sorted.
    + exact greater_asym.
    + intros a b c. rewrite !ordered_greater. lra.
Qed.

Lemma sort_desc_stable (v : R) (l : list (R * EmbeddingChunk)) :
  let p := fun y : R * EmbeddingChunk =>
             if Req_dec_T (fst y) v then true else false in
  filter p (sort_desc l) = filter p l.
Proof.
  intros p. apply stable_sort_stable. intros a b Ha Hb.
  unfold p in Ha, Hb. unfold greater.
  destruct (Req_dec_T (fst a) v), (Req_dec_T (fst b) v); try discriminate.
  destruct (Rlt_dec (fst b) (fst a)); [lra | reflexivity].
Qed.

Section Scored.

Variable q : vector.

Local Abbreviation scored :=
  (Forall (fun p : R * EmbeddingChunk => fst p = score q (snd p))).

Lemma scored_pairs (embs : list EmbeddingChunk) :
  scored (map (fun c => (score q c, c)) embs).
Proof. induction embs; simpl; constructor; auto. Qed.

Lemma sorted_chunks (l : list (R * EmbeddingChunk)) :
  scored l ->
  StronglySorted (fun a b => (fst b <= fst a)%R) l ->
  StronglySorted (fun a b => (score q b <= score q a)%R) (map snd l).
Proof.
  intros Hsc. induction 1 as [|x l Hs IH Hx]; simpl; [constructor|].
  inversion Hsc as [|? ? Hx0 Hl]; subst.
  constructor; [now apply IH|].
  rewrite Forall_map. rewrite Forall_forall in *.
  intros y Hy. rewrite <- Hx0, <- (Hl y Hy). now apply Hx.
Qed.

Lemma filter_chunks (v : R) (l : list (R * EmbeddingChunk)) :
  scored l ->
  filter (has_score q v) (map snd l)
  = map snd (filter (fun y => if Req_dec_T (fst y) v then true else false) l).
Proof.
  induction 1 as [|x l Hx _ IH]; simpl; [reflexivity|].
  unfold has_score at 1. rewrite <- Hx.
  destruct (Req_dec_T (fst x) v); simpl; now rewrite IH.
Qed.

End Scored.

Lemma get_by_document_sorted (coll : collection) (d : string) :
  StronglySorted (fun a b => chunk_index a <= chunk_index b)
    (get_by_document coll d).
Proof.
  unfold get_by_document, sort_by_index.
  eapply StronglySorted_weaken; [|apply stable_sort_sorted].
  - unfold ordered. intros a b H. simpl in H.
    now apply Z.ltb_ge in H.
  - intros a b H. simpl in *. apply Z.ltb_lt in H. apply Z.ltb_ge. lia.
  - unfold ordered. intros a b c H1 H2. simpl in *.
    apply Z.ltb_ge in H1, H2. apply Z.ltb_ge. lia.
Qed.



(** *** Querying *)

Lemma similarity_search_unindexed (coll : collection) (d : string)
      (q : vector) (top_k : Z) :
  get_by_document coll d = [] -> similarity_search coll d q top_k = inr [].
Proof. intros H. unfold similarity_search. now rewrite H. Qed.

Section Query.

Variable encode : string -> vector.
Variable repr : pyval -> string.

(** C3, as the code has it. For every call of [query] that returns, the
    result has the fields [answer], [sources] and [model_used], and it has
    the field [chunks_used] exactly when the gateway was called; for every
    document with no stored chunk the gateway is not called, and when the
    lookup of the document answers, [query] returns the fixed response
    that the document may not have been indexed. *)
Theorem query_result_fields (coll : collection) (document_id : pyval)
        (question : string) (top_k : Z) (h : env call) :
  let out := run h (query encode repr coll document_id question top_k) in
  (forall res,
      fst out = inr res ->
      has res "answer" = true /\ has res "sources" = true
      /\ has res "model_used" = true
      /\ has res "chunks_used" = existsb is_gateway_call (snd out))
  /\ (stored_chunks coll document_id = [] ->
      existsb is_gateway_call (snd out) = false
      /\ forall document,
          h 0%nat _ (DocumentGetById document_id) = inr document ->
          fst out = inr not_indexed_response).
Proof.
  unfold run, query. cbn [bind perform run_from].
  destruct (h 0%nat _ (DocumentGetById document_id)) as [e|document];
    cbn [bind run_from fst snd existsb is_gateway_call event_call orb].
  { split; [discriminate|]. intros _. split; [reflexivity|discriminate]. }
  destruct document_id as [| | | |d| |];
    try (cbn [bind run_from fst snd existsb];
         split; [intros res [= <-]; now repeat split
                | intros _; split; [reflexivity | now intros ? [= <-]]]).
  unfold stored_chunks.
  destruct (similarity_search coll d (embed_text encode question) top_k)
    as [e|[|c chunks]] eqn:Hsearch; cbn [lift bind run_from fst snd existsb].
  - split; [discriminate|]. intros Hnone.
    rewrite similarity_search_unindexed in Hsearch by assumption.
    discriminate.
  - split; [intros res [= <-]; now repeat split|].
    intros _. split; [reflexivity | now intros ? [= <-]].
  - destruct (h 1%nat _ _) as [e|result];
      cbn [bind run_from fst snd existsb is_gateway_call event_call orb].
    + split; [discriminate|]. intros Hnone.
      rewrite similarity_search_unindexed in Hsearch by assumption.
      discriminate.
    + split; [intros res [= <-]; now repeat split|]. intros Hnone.
      rewrite similarity_search_unindexed in Hsearch by assumption.
      discriminate.
Qed.

End Query.

(** C3 as stated fails on the code: the response for a document that has
    no stored chunk has no field [chunks_used]. *)
Lemma query_unindexed_lacks_chunks_used :
  fst (run empty_store_backend_down
         (query (fun _ => []) (fun _ => "") [] (PStr "65f0c0ffee0000000000abcd")
            "What is the total?" 3))
  = inr not_indexed_response
  /\ result_fields_as_specified not_indexed_response = false.
Proof. split; reflexivity. Qed.

Lemma query_result_fields_unindexed :
  stored_chunks [] (PStr "65f0c0ffee0000000000abcd") = []
  /\ fst (run empty_store_backend_down
            (query (fun _ => []) (fun _ => "") []
               (PStr "65f0c0ffee0000000000abcd") "What is the total?" 3))
     = inr not_indexed_response.
Proof.
  split; [reflexivity|].
  destruct (query_result_fields (fun _ => []) (fun _ => "") []
              (PStr "65f0c0ffee0000000000abcd") "What is the total?" 3
              empty_store_backend_down) as [_ H].
  destruct (H eq_refl) as [_ H'].
  exact (H' None eq_refl).
Defined.

(** *** Indexing *)

Lemma filter_of_other (d : string) (coll : collection) :
  filter (of_document d) (filter (fun c => negb (of_document d c)) coll) = [].
Proof.
  induction coll as [|c coll IH]; simpl; [reflexivity|].
  destruct (of_document d c) eqn:E; simpl; [assumption|].
  now rewrite E.
Qed.

Lemma filter_of_other_document (d d' : string) (coll : collection) :
  d' <> d ->
  filter (of_document d') (filter (fun c => negb (of_document d c)) coll)
  = filter (of_document d') coll.
Proof.
  intros Hneq. induction coll as [|c coll IH]; simpl; [reflexivity|].
  destruct (of_document d c) eqn:E; simpl.
  - unfold of_document in *. apply String.eqb_eq in E.
    destruct (String.eqb_spec (document_id c) d'); [congruence|assumption].
  - destruct (of_document d' c); [now f_equal | assumption].
Qed.

Lemma create_many_app (coll : collection) (l : list EmbeddingChunk) :
  create_many coll l = (coll ++ l)%list.
Proof. destruct l; simpl; [now rewrite app_nil_r | reflexivity]. Qed.

Lemma enumerate_from_combine {A B : Type} (f : A -> B) (i : Z) (l : list A) :
  enumerate_from i (combine l (map f l))
  = map (fun ic => (fst ic, (snd ic, f (snd ic)))) (enumerate_from i l).
Proof.
  revert i; induction l as [|x l IH]; intros i; simpl;
    [reflexivity | now rewrite IH].
Qed.

Lemma enumerate_from_indices {A : Type} (i : Z) (l : list A) :
  map fst (enumerate_from i l)
  = map (fun k => i + Z.of_nat k) (seq 0 (List.length l)).
Proof.
  revert i; induction l as [|x l IH]; intros i; simpl; [reflexivity|].
  f_equal; [lia|]. rewrite IH, <- seq_shift, map_map.
  apply map_ext. intros k. lia.
Qed.

Section Pipeline.

Variable encode : string -> vector.

Lemma generation_of_document (d : string) (i : Z) (chunks : list string) :
  let stored :=
    map (fun ic =>
           {| document_id := d; chunk_index := fst ic;
              chunk_text := snd ic; embedding := encode (snd ic) |})
        (enumerate_from i chunks) in
  filter (of_document d) stored = stored
  /\ (forall d', d' <> d -> filter (of_document d') stored = [])
  /\ sort_by_index stored = stored.
Proof.
  revert i; induction chunks as [|c chunks IH]; intros i; simpl;
    [repeat split; reflexivity|].
  destruct (IH (i + 1)) as (Hf & Ho & Hs). simpl in Hf, Ho, Hs.
  unfold of_document at 1. simpl. rewrite String.eqb_refl.
  repeat split.
  - now rewrite Hf.
  - intros d' Hneq. unfold of_document at 1. simpl.
    destruct (String.eqb_spec d d'); [congruence|]. now apply Ho.
  - unfold sort_by_index, stable_sort in *. simpl. rewrite Hs.
    destruct chunks as [|c' chunks]; simpl; [reflexivity|].
    destruct (Z.ltb_spec (i + 1) i); [lia | reflexivity].
Qed.

Lemma generation_length (d : string) (chunks : list string) :
  List.length (generation encode d chunks) = List.length chunks.
Proof.
  unfold generation. rewrite length_map.
  generalize 0. induction chunks; intros i; simpl; auto.
Qed.

Lemma generation_indices (d : string) (chunks : list string) :
  map chunk_index (generation encode d chunks)
  = map Z.of_nat (seq 0 (List.length chunks)).
Proof.
  unfold generation. rewrite map_map. simpl.
  change (map (fun x : Z * string => fst x) (enumerate_from 0 chunks))
    with (map fst (enumerate_from 0 chunks)).
  now rewrite enumerate_from_indices.
Qed.


End Pipeline.

(** *** The range of the similarity *)

Lemma dot_self_nonneg (v : vector) : (0 <= dot v v)%R.
Proof.
  induction v as [|x v IH]; simpl; [lra|].
  pose proof (Rle_0_sqr x) as H. unfold Rsqr in H. lra.
Qed.

(** The inequality of Cauchy and Schwarz. *)
Lemma dot_squared (a b : vector) :
  (dot a b * dot a b <= dot a a * dot b b)%R.
Proof.
  revert b. induction a as [|x a IH]; intros b.
  - simpl. lra.
  - destruct b as [|y b].
    + simpl. lra.
    + cbn [dot].
      pose proof (dot_self_nonneg a) as HA.
      pose proof (dot_self_nonneg b) as HB.
      specialize (IH b).
      set (A := dot a a) in *. set (B := dot b b) in *.
      set (d := dot a b) in *.
      pose proof (Rle_0_sqr x) as Hx. pose proof (Rle_0_sqr y) as Hy.
      unfold Rsqr in Hx, Hy.
      assert (Hp : (0 <= x * x * B)%R) by now apply Rmult_le_pos.
      assert (Hr : (0 <= y * y * A)%R) by now apply Rmult_le_pos.
      assert (H4 : (4 * (x * x) * (y * y) * (d * d)
                    <= 4 * (x * x) * (y * y) * (A * B))%R).
      { apply Rmult_le_compat_l; [|exact IH].
        apply Rmult_le_pos; [|exact Hy]. apply Rmult_le_pos; [lra|exact Hx]. }
      pose proof (Rle_0_sqr (x * x * B - y * y * A)) as Hsq.
      unfold Rsqr in Hsq.
      assert (Ht : (2 * x * y * d <= x * x * B + y * y * A)%R).
      { apply Rsqr_incr_0_var; [|lra]. unfold Rsqr.
        replace (2 * x * y * d * (2 * x * y * d))%R
          with (4 * (x * x) * (y * y) * (d * d))%R by ring.
        replace ((x * x * B + y * y * A) * (x * x * B + y * y * A))%R
          with ((x * x * B - y * y * A) * (x * x * B - y * y * A)
                + 4 * (x * x) * (y * y) * (A * B))%R by ring.
        lra. }
      replace ((x * y + d) * (x * y + d))%R
        with (x * x * (y * y) + 2 * x * y * d + d * d)%R by ring.
      replace ((x * x + A) * (y * y + B))%R
        with (x * x * (y * y) + (x * x * B + y * y * A) + A * B)%R by ring.
      lra.
Qed.

Lemma dot_le_norms (a b : vector) :
  (Rabs (dot a b) <= norm a * norm b)%R.
Proof.
  unfold norm.
  rewrite <- sqrt_mult_alt by apply dot_self_nonneg.
  rewrite <- sqrt_Rsqr_abs. apply sqrt_le_1_alt. apply dot_squared.
Qed.

Lemma dot_zero (a b : vector) : Forall (fun x => x = 0%R) a -> dot a b = 0%R.
Proof.
  intros H. revert b. induction H as [|x a -> _ IH]; intros b; [reflexivity|].
  destruct b as [|y b]; [reflexivity|]. cbn [dot]. rewrite IH. lra.
Qed.

Lemma score_range (q e : vector) :
  (-1 < dot q e / denominator q e < 1)%R.
Proof.
  pose proof (dot_le_norms q e) as H.
  pose proof (denominator_positive q e) as Hd.
  assert (He : (denominator q e = norm q * norm e + epsilon)%R) by reflexivity.
  assert (Heps : (0 < epsilon)%R) by (unfold epsilon; lra).
  assert (Hb : (- (norm q * norm e) <= dot q e <= norm q * norm e)%R).
  { revert H. unfold Rabs. destruct (Rcase_abs (dot q e)); lra. }
  split; apply (Rmult_lt_reg_r (denominator q e)); try assumption;
    unfold Rdiv; rewrite Rmult_assoc, Rinv_l by lra; lra.
Qed.


(** *** What a search returns *)

Lemma similarities_chunks (q : vector) (embs : list EmbeddingChunk)
      (sims : list (R * EmbeddingChunk)) :
  similarities q embs = inr sims -> map snd sims = embs.
Proof.
  revert sims. induction embs as [|c embs IH]; intros sims; simpl.
  - now intros [= <-].
  - destruct (cosine q (embedding c)); [discriminate|].
    destruct (similarities q embs); [discriminate|].
    intros [= <-]. simpl. f_equal. now apply IH.
Qed.

Lemma take_incl {A : Type} (k : Z) (l : list A) : incl (take k l) l.
Proof.
  unfold take. intros x Hx.
  rewrite <- (firstn_skipn (Z.to_nat (clamp k (Z.of_nat (List.length l)))) l).
  apply in_or_app. now left.
Qed.

Lemma similarity_search_incl (coll : collection) (d : string) (q : vector)
      (top_k : Z) (res : list EmbeddingChunk) :
  similarity_search coll d q top_k = inr res ->
  incl res (get_by_document coll d).
Proof.
  unfold similarity_search.
  destruct (get_by_document coll d) as [|c l] eqn:E;
    [intros [= <-] x []|].
  destruct (similarities q (c :: l)) as [e|sims] eqn:Hs; [discriminate|].
  intros [= <-] x Hx. apply similarities_chunks in Hs. rewrite <- Hs.
  apply in_map_iff in Hx. destruct Hx as (p & <- & Hp).
  apply in_map. apply take_incl in Hp.
  eapply Permutation_in; [apply stable_sort_perm | exact Hp].
Qed.

Lemma get_by_document_stored (coll : collection) (d : string)
      (c : EmbeddingChunk) :
  In c (get_by_document coll d) -> document_id c = d /\ In c coll.
Proof.
  unfold get_by_document, sort_by_index. intros H.
  eapply Permutation_in in H; [|apply stable_sort_perm].
  apply filter_In in H. destruct H as [Hin Hd].
  split; [now apply String.eqb_eq in Hd | exact Hin].
Qed.

(** X8. Whatever [similarity_search] returns for a document are chunks
    stored for that document in the collection, no more of them than
    the document has: a chunk of another document is never returned. *)
Theorem similarity_search_isolated (coll : collection) (d : string)
        (q : vector) (top_k : Z) :
  match similarity_search coll d q top_k with
  | inr res =>
      Forall (fun c => document_id c = d /\ In c coll) res
      /\ (List.length res <= List.length (get_by_document coll d))%nat
  | inl _ => True
  end.
Proof.
  destruct (similarity_search coll d q top_k) as [e|res] eqn:E; [exact I|].
  split.
  - apply Forall_forall. intros c Hc. apply (get_by_document_stored coll d).
    now apply (similarity_search_incl coll d q top_k res).
  - revert E. unfold similarity_search.
    destruct (get_by_document coll d) as [|c l] eqn:Eg;
      [intros [= <-]; simpl; lia|].
    destruct (similarities q (c :: l)) as [e|sims] eqn:Hs; [discriminate|].
    intros [= <-]. apply similarities_chunks in Hs.
    rewrite <- Hs, !length_map. unfold take.
    rewrite length_firstn. unfold sort_desc.
    rewrite (Permutation_length (stable_sort_perm _ greater sims)). lia.
Qed.

Lemma similarities_raises (q : vector) (embs : list EmbeddingChunk) :
  match similarities q embs with
  | inl e =>
      e = ValueError "shapes not aligned"
      /\ Exists (fun c => List.length (embedding c) <> List.length q) embs
  | inr _ => Forall (fun c => List.length (embedding c) = List.length q) embs
  end.
Proof.
  induction embs as [|c embs IH]; simpl; [constructor|].
  unfold cosine, np_dot.
  destruct (Nat.eqb_spec (List.length q) (List.length (embedding c)))
    as [E|E].
  - destruct (similarities q embs) as [e|sims].
    + destruct IH as [-> IH]. split; [reflexivity | now right].
    + now constructor.
  - split; [reflexivity|]. left. congruence.
Qed.


(** X10. The stored embeddings having the length of the query
    embedding, the result for any [top_k] is the slice [ranked[:top_k]]
    of the full ranking: no chunk for [top_k = 0], and for a negative
    [top_k] all chunks but the [-top_k] least similar ones. *)
Theorem similarity_search_slices (coll : collection) (d : string)
        (q : vector) :
  let retrieved := get_by_document coll d in
  let k := Z.of_nat (List.length retrieved) in
  Forall (fun c => List.length (embedding c) = List.length q) retrieved ->
  exists ranked,
    similarity_search coll d q k = inr ranked
    /\ Permutation ranked retrieved
    /\ forall top_k,
        similarity_search coll d q top_k = inr (take top_k ranked)
        /\ Z.of_nat (List.length (take top_k ranked))
           = if top_k <? 0 then Z.max 0 (k + top_k) else Z.min top_k k.
Proof.
  intros retrieved k Hdim.
  set (sims := map (fun c => (score q c, c)) retrieved).
  assert (Hback : map snd sims = retrieved).
  { unfold sims. rewrite map_map. simpl. apply map_id. }
  assert (Hsearch : forall top_k,
             similarity_search coll d q top_k
             = inr (take top_k (map snd (sort_desc sims)))).
  { intros top_k. unfold similarity_search. fold retrieved.
    pose proof (similarities_scores q retrieved Hdim) as Hs. fold sims in Hs.
    unfold take. rewrite firstn_map, length_map.
    destruct retrieved as [|c l] eqn:E; [|now rewrite Hs].
    unfold sims. simpl. now rewrite firstn_nil. }
  assert (Hperm : Permutation (map snd (sort_desc sims)) retrieved).
  { rewrite <- Hback. apply Permutation_map, stable_sort_perm. }
  exists (map snd (sort_desc sims)). split; [|split; [exact Hperm|]].
  - rewrite Hsearch. f_equal. apply take_all.
    rewrite (Permutation_length Hperm). unfold k. lia.
  - intros top_k. split; [apply Hsearch|].
    unfold take. rewrite length_firstn, (Permutation_length Hperm).
    fold k. unfold clamp.
    destruct (Z.ltb_spec top_k 0); lia.
Qed.

Lemma similarity_search_slices_two_chunks :
  exists ranked,
    similarity_search two_chunks "doc" [1%R; 0%R] 2 = inr ranked
    /\ similarity_search two_chunks "doc" [1%R; 0%R] (-1)
       = inr (take (-1) ranked)
    /\ List.length (take (-1) ranked) = 1%nat.
Proof.
  destruct (similarity_search_slices two_chunks "doc" [1%R; 0%R])
    as (ranked & Hfull & Hperm & Hk).
  { unfold get_by_document. simpl. repeat constructor. }
  exists ranked. split; [exact Hfull|].
  destruct (Hk (-1)) as [Hs Hl]. split; [exact Hs|].
  unfold get_by_document in Hl. simpl in Hl. lia.
Defined.

Section QueryCalls.

Variable encode : string -> vector.
Variable repr : pyval -> string.

Lemma similarity_search_nonempty (coll : collection) (d : string)
      (q : vector) (top_k : Z) (c : EmbeddingChunk)
      (chunks : list EmbeddingChunk) :
  similarity_search coll d q top_k = inr (c :: chunks) ->
  0 <= top_k -> Z.of_nat (List.length (c :: chunks)) <= top_k.
Proof.
  unfold similarity_search.
  destruct (get_by_document coll d) as [|c0 l]; [discriminate|].
  destruct (similarities q (c0 :: l)) as [e|sims]; [discriminate|].
  intros [= E] Hk. rewrite <- E, length_map. now apply take_length.
Qed.

Lemma len_source (s : string) : len (slice s 0 100 ++ "...") <= 103.
Proof.
  rewrite PyStrFacts.len_append, PyStrFacts.len_slice by lia.
  pose proof (PyStrFacts.len_nonneg s). unfold len at 3. simpl. lia.
Qed.

(** X12. When [query] returns after a call of the gateway, its result
    lists one source for each chunk used, at least one, and at most
    [top_k] of them for [top_k >= 0]; each source is a string of at
    most 103 characters, the first 100 of the chunk and an ellipsis.
    Without a call of the gateway the result is the fixed response for
    a document that is not indexed. *)
Theorem query_sources (coll : collection) (document_id : pyval)
        (question : string) (top_k : Z) (h : env call) :
  match fst (run h (query encode repr coll document_id question top_k)) with
  | inl _ => True
  | inr res =>
      if has res "chunks_used"
      then exists srcs,
          get res "sources" PNone = PList srcs
          /\ get res "chunks_used" PNone
             = PInt (Z.of_nat (List.length srcs))
          /\ (1 <= List.length srcs)%nat
          /\ (0 <= top_k -> Z.of_nat (List.length srcs) <= top_k)
          /\ Forall (fun s => exists t, s = PStr t /\ len t <= 103) srcs
      else res = not_indexed_response
  end.
Proof.
  unfold run, query. cbn [bind perform run_from].
  destruct (h 0%nat _ (DocumentGetById document_id)) as [e|document];
    cbn [bind run_from fst]; [exact I|].
  destruct document_id as [| | | |d| |];
    try (cbn [bind run_from fst]; reflexivity).
  destruct (similarity_search coll d (embed_text encode question) top_k)
    as [e|[|c chunks]] eqn:Hsearch; cbn [lift bind run_from fst];
    [exact I | reflexivity |].
  destruct (h 1%nat _ _) as [e|result]; cbn [bind run_from fst]; [exact I|].
  cbn [has lookup String.eqb Ascii.eqb Bool.eqb get].
  eexists. split; [reflexivity|]. rewrite length_map.
  split; [reflexivity|]. split; [simpl; lia|].
  split; [intros Hk; eapply similarity_search_nonempty; eassumption|].
  apply Forall_map, Forall_forall. intros x _.
  eexists. split; [reflexivity | apply len_source].
Qed.


End QueryCalls.

Section Context.

Variable encode : string -> vector.

Local Abbreviation generation_of_document := (generation_of_document encode).
Local Abbreviation generation_length := (generation_length encode).

Lemma generation_texts (d : string) (chunks : list string) :
  map chunk_text (generation encode d chunks) = chunks.
Proof.
  unfold generation. rewrite map_map. cbn [chunk_text].
  generalize 0. induction chunks as [|c chunks IH]; intros i;
    [reflexivity|].
  cbn [enumerate_from map snd]. now rewrite IH.
Qed.

(** What one call of [index_document] leaves for the document. *)
Lemma index_document_stores (coll : collection) (d text : string) (n : nat) :
  let fuel := (String.length text + n)%nat in
  exists chunks coll',
    Embeddings.chunk_text fuel text Embeddings.default_chunk_size
      Embeddings.default_overlap = Some chunks
    /\ index_document encode fuel coll d text
       = Some (coll', Z.of_nat (List.length chunks))
    /\ get_by_document coll' d = generation encode d chunks.
Proof.
  intros fuel. subst fuel.
  destruct (EmbeddingsFacts.chunk_text_returns text n) as [chunks Hchunks].
  exists chunks,
    (fst (delete_by_document coll d) ++ generation encode d chunks)%list.
  split; [exact Hchunks|].
  destruct (generation_of_document d 0 chunks) as (Hf & Ho & Hs).
  fold (generation encode d chunks) in Hf, Ho, Hs.
  split.
  - unfold index_document. rewrite Hchunks.
    destruct chunks as [|c chunks]; [simpl; now rewrite app_nil_r|].
    unfold embed_texts. rewrite enumerate_from_combine, map_map.
    cbn [fst snd].
    change (map _ (enumerate_from 0 (c :: chunks)))
      with (generation encode d (c :: chunks)).
    now rewrite create_many_app, generation_length.
  - unfold get_by_document. simpl.
    now rewrite filter_app, filter_of_other, Hf.
Qed.

(** X11. Indexing, then reading the context back: after
    [index_document(document_id, text)], [get_document_context] with
    [max_chunks] at least the number of chunks returns the chunks of the
    text joined by blank lines; for a text of at most 500 characters it
    returns the text itself. *)
Theorem index_then_context (coll : collection) (d text : string) (n : nat) :
  let fuel := (String.length text + n)%nat in
  exists chunks coll',
    Embeddings.chunk_text fuel text Embeddings.default_chunk_size
      Embeddings.default_overlap = Some chunks
    /\ index_document encode fuel coll d text
       = Some (coll', Z.of_nat (List.length chunks))
    /\ (forall max_chunks,
           Z.of_nat (List.length chunks) <= max_chunks ->
           get_document_context coll' d max_chunks
           = join (LF ++ LF) chunks)
    /\ (len text <= Embeddings.default_chunk_size ->
        get_document_context coll' d 10 = text).
Proof.
  intros fuel.
  destruct (index_document_stores coll d text n)
    as (chunks & coll' & Hchunks & Hindex & Hget).
  exists chunks, coll'. split; [exact Hchunks|]. split; [exact Hindex|].
  assert (Hctx : forall max_chunks,
             Z.of_nat (List.length chunks) <= max_chunks ->
             get_document_context coll' d max_chunks
             = join (LF ++ LF) chunks).
  { intros max_chunks Hmax. unfold get_document_context. rewrite Hget.
    destruct (generation encode d chunks) as [|c l] eqn:Eg.
    - apply (f_equal (map chunk_text)) in Eg.
      rewrite generation_texts in Eg. now subst chunks.
    - rewrite <- Eg.
      destruct (generation_of_document d 0 chunks) as (_ & _ & Hs).
      fold (generation encode d chunks) in Hs. rewrite Hs.
      rewrite take_all by now rewrite generation_length.
      now rewrite generation_texts. }
  split; [exact Hctx|].
  intros Hshort. fold fuel in Hchunks. unfold Embeddings.chunk_text in Hchunks.
  apply Z.leb_le in Hshort. rewrite Hshort in Hchunks.
  injection Hchunks as <-. now rewrite Hctx by (simpl; lia).
Qed.

End Context.

Lemma query_sources_one_chunk :
  exists srcs,
    fst (run (backend_answers "The total is 10 EUR.")
           (query (fun _ => [1%R; 0%R]) (fun _ => "") one_chunk (PStr "doc")
              "What is the total?" 3))
    = inr [ ("answer", PStr "The total is 10 EUR.");
            ("sources", PList srcs);
            ("model_used", PStr "llama-3.1-8b-instant");
            ("chunks_used", PInt 1);
            ("has_admin_corrections", PNone) ]
    /\ List.length srcs = 1%nat.
Proof.
  pose proof (query_sources (fun _ => [1%R; 0%R]) (fun _ => "") one_chunk
                (PStr "doc") "What is the total?" 3
                (backend_answers "The total is 10 EUR.")) as H.
  cbn in H. destruct H as (srcs & [= <-] & _).
  eexists. split; reflexivity.
Defined.

Lemma index_then_context_short :
  exists coll',
    index_document (fun _ => [1%R; 0%R]) 10 two_chunks "doc" "Invoice 43"
    = Some (coll', 1)
    /\ get_document_context coll' "doc" 10 = "Invoice 43".
Proof.
  destruct (index_then_context (fun _ => [1%R; 0%R]) two_chunks "doc"
              "Invoice 43" 0)
    as (chunks & coll' & Hchunks & Hindex & _ & Hshort).
  injection Hchunks as <-.
  exists coll'. split; [exact Hindex|]. apply Hshort.
  unfold len, Embeddings.default_chunk_size. simpl. lia.
Defined.


End RetrievalFacts.

(** ** Computations with external calls *)

Module EffectsFacts.
Import Py Effects.

Section Prog.

Variable call : Type -> Type.

Lemma ensures_weaken {A : Type} (p : prog call A) (Q Q' : A -> Prop) :
  (forall a, Q a -> Q' a) -> ensures p Q -> ensures p Q'.
Proof.
  intros Himpl. induction p as [a|e|R c k IH]; simpl; auto.
Qed.

Lemma ensures_bind {A B : Type} (p : prog call A) (f : A -> prog call B)
      (Q : B -> Prop) :
  ensures p (fun a => ensures (f a) Q) -> ensures (bind p f) Q.
Proof.
  induction p as [a|e|R c k IH]; simpl; auto.
Qed.

(** What [ensures] promises holds of every run. *)
Lemma ensures_run {A : Type} (p : prog call A) (Q : A -> Prop)
      (h : env call) (n : nat) :
  ensures p Q ->
  match fst (run_from h n p) with
  | inr a => Q a
  | inl _ => True
  end.
Proof.
  revert n; induction p as [a|e|R c k IH]; intros n; simpl; auto.
  intros H. specialize (IH (h n R c) (S n) (H (h n R c))).
  destruct (run_from h (S n) (k (h n R c))). exact IH.
Qed.

Lemma returns_weaken {A : Type} (p : prog call A) (Q Q' : A -> Prop) :
  (forall a, Q a -> Q' a) -> returns p Q -> returns p Q'.
Proof.
  intros Himpl. induction p as [a|e|R c k IH]; simpl; auto.
Qed.

Lemma returns_bind {A B : Type} (p : prog call A) (f : A -> prog call B)
      (Q : B -> Prop) :
  returns p (fun a => returns (f a) Q) -> returns (bind p f) Q.
Proof.
  induction p as [a|e|R c k IH]; simpl; auto.
Qed.

Lemma returns_run {A : Type} (p : prog call A) (Q : A -> Prop)
      (h : env call) (n : nat) :
  returns p Q -> exists a, fst (run_from h n p) = inr a /\ Q a.
Proof.
  revert n; induction p as [a|e|R c k IH]; intros n; simpl.
  - intros H. now exists a.
  - intros [].
  - intros H. specialize (IH (h n R c) (S n) (H (h n R c))).
    destruct (run_from h (S n) (k (h n R c))). exact IH.
Qed.

Lemma run_from_bind {A B : Type} (p : prog call A) (f : A -> prog call B)
      (h : env call) (n : nat) :
  run_from h n (bind p f)
  = match run_from h n p with
    | (inl e, evs) => (inl e, evs)
    | (inr a, evs) =>
        let (r, evs') := run_from h (n + List.length evs) (f a) in
        (r, (evs ++ evs')%list)
    end.
Proof.
  revert n; induction p as [a|e|R c k IH]; intros n;
    cbn [bind run_from List.length].
  - rewrite Nat.add_0_r. destruct (run_from h n (f a)); reflexivity.
  - reflexivity.
  - rewrite IH. destruct (run_from h (S n) (k (h n R c))) as [[e|a] evs];
      [reflexivity|].
    cbn [List.length]. rewrite Nat.add_succ_r.
    change (S n + List.length evs)%nat with (S (n + List.length evs)).
    destruct (run_from h (S (n + List.length evs)) (f a)); reflexivity.
Qed.

Lemma ensures_True {A : Type} (p : prog call A) : ensures p (fun _ => True).
Proof. induction p as [a|e|R c k IH]; simpl; auto. Qed.

Lemma ensures_conj {A : Type} (p : prog call A) (Q Q' : A -> Prop) :
  ensures p Q -> ensures p Q' -> ensures p (fun a => Q a /\ Q' a).
Proof.
  induction p as [a|e|R c k IH]; simpl; auto.
Qed.

Section Given.

Variable assume : forall R, call R -> exn + R -> Prop.

Lemma returns_given_weaken {A : Type} (p : prog call A) (Q Q' : A -> Prop) :
  (forall a, Q a -> Q' a) ->
  returns_given assume p Q -> returns_given assume p Q'.
Proof.
  intros Himpl. induction p as [a|e|R c k IH]; simpl; auto.
Qed.

Lemma returns_given_bind {A B : Type} (p : prog call A)
      (f : A -> prog call B) (Q : B -> Prop) :
  returns_given assume p (fun a => returns_given assume (f a) Q) ->
  returns_given assume (bind p f) Q.
Proof.
  induction p as [a|e|R c k IH]; simpl; auto.
Qed.

Lemma returns_given_run {A : Type} (p : prog call A) (Q : A -> Prop)
      (h : env call) (n : nat) :
  (forall n R c, assume R c (h n R c)) ->
  returns_given assume p Q ->
  exists a, fst (run_from h n p) = inr a /\ Q a.
Proof.
  intros Hh. revert n; induction p as [a|e|R c k IH]; intros n; simpl.
  - intros H. now exists a.
  - intros [].
  - intros H. specialize (IH (h n R c) (S n) (H (h n R c) (Hh n R c))).
    destruct (run_from h (S n) (k (h n R c))). exact IH.
Qed.

End Given.

End Prog.

End EffectsFacts.

(** ** The orchestrator *)

Module OrchestratorFacts.
Import PyStr Py Effects EffectsFacts Services Orchestrator.

Section Nodes.

Variable repr : pyval -> string.
Variable extract_json_text : string -> string.
Variable json_loads : string -> option pyval.
Variable coll : Retrieval.collection.
Variable encode : string -> Retrieval.vector.

Local Abbreviation run_graph :=
  (run_graph repr extract_json_text json_loads coll encode).
Local Abbreviation classify :=
  (classify_intent_node repr extract_json_text json_loads).
Local Abbreviation node_fn :=
  (node_function repr extract_json_text json_loads coll encode).

(** C5. For every message whose lowercased text contains "export", or both
    "download" and "invoice", [classify_intent_node] returns at once,
    without any call (so whatever the state of the generation backend),
    a state with intent [export_invoices], no export filters and the
    export format "excel" when the lowercased message contains "excel"
    or "xlsx", "csv" otherwise; no other field changes. *)
Theorem classify_fast_path (state : AgentState) :
  let m := lower (user_message state) in
  contains m "export" = true
  \/ (contains m "download" = true /\ contains m "invoice" = true) ->
  exists state',
    classify state = Ret state'
    /\ (forall h : env call, run h (classify state) = (inr state', []))
    /\ intent state' = PStr "export_invoices"
    /\ export_format state'
       = PStr (if contains m "excel" || contains m "xlsx"
               then "excel" else "csv")
    /\ export_filters state' = PDict []
    /\ error state' = error state
    /\ needs_clarification state' = needs_clarification state
    /\ response state' = response state
    /\ model_used state' = model_used state.
Proof.
  intros m Hm.
  assert (Hfast : is_export_request m = true).
  { unfold is_export_request.
    destruct Hm as [-> | [-> ->]]; [reflexivity | apply orb_true_r]. }
  unfold classify_intent_node. fold m. rewrite Hfast.
  eexists. split; [reflexivity|].
  split; [intros h; reflexivity|].
  repeat split.
Qed.

(** C6. Every per-document handler (validation, force_validate,
    delete_document, get_details, rag_query), entered with a state that
    has neither a target document id nor an ambient document id, returns
    at once, without any call to the gateway, a tool or the store: it sets
    [needs_clarification], sets [clarification_question] to its own
    question, records its tool name and leaves the error, the response
    and every other field as they were. *)
Theorem handler_asks_for_document (hd : per_document_handler)
        (state : AgentState) :
  no_document state ->
  exists state',
    node_fn (handler_node hd) state = Ret state'
    /\ (forall h : env call,
           run h (node_fn (handler_node hd) state) = (inr state', []))
    /\ state' = clarify (handler_question hd)
                  (set F_tool_name (PStr (handler_tool_name hd)) state)
    /\ needs_clarification state' = true
    /\ clarification_question state' = PStr (handler_question hd)
    /\ handler_question hd <> ""
    /\ error state' = error state
    /\ response state' = response state.
Proof.
  intros [Htarget Hambient].
  exists (clarify (handler_question hd)
            (set F_tool_name (PStr (handler_tool_name hd)) state)).
  assert (Hret :
    node_fn (handler_node hd) state
    = Ret (clarify (handler_question hd)
             (set F_tool_name (PStr (handler_tool_name hd)) state))).
  { destruct hd; simpl;
      unfold validation_node, force_validate_node, delete_document_node,
        get_details_node, rag_query_node; cbn [target_document_id
        document_id set]; unfold or_; rewrite ?Htarget, ?Hambient;
      reflexivity. }
  split; [exact Hret|]. split; [intros h; now rewrite Hret|].
  repeat split. destruct hd; discriminate.
Qed.

(** *** Invariants of the nodes *)

Ltac crunch :=
  repeat first
    [ progress cbn [ensures bind try_except perform lift attempt and_then
                    Retrieval.query Retrieval.not_indexed_response
                    getitem lookup String.eqb Ascii.eqb Bool.eqb]
    | progress intros
    | match goal with
      | |- context [match ?x with _ => _ end] => destruct x eqn:?
      | |- context [and_then ?x _] => destruct x eqn:?
      | |- context [lift ?x] => destruct x eqn:?
      end ].

Lemma set_keeps_text (f : field) (v : pyval) (state : AgentState) :
  response_is_text state ->
  f <> F_response -> f <> F_clarification_question ->
  response_is_text (set f v state).
Proof. intros H Hf Hq. destruct f; try exact H; congruence. Qed.

Lemma set_response_text (text : string) (state : AgentState) :
  response_is_text state ->
  response_is_text (set F_response (PStr text) state).
Proof. intros [_ Hq]. split; [right; now exists text | exact Hq]. Qed.

Lemma set_response_question (text : string) (state : AgentState) :
  response_is_text state ->
  response_is_text
    (set F_response (or_ (clarification_question state) (PStr text)) state).
Proof.
  intros [_ Hq]. split; [|exact Hq]. cbn [response set]. unfold or_.
  destruct Hq as [->|[q ->]]; simpl.
  - right. now exists text.
  - destruct (PyStr.truthy q); right; eauto.
Qed.

Lemma clarify_keeps_text (q : string) (state : AgentState) :
  response_is_text state -> response_is_text (clarify q state).
Proof. intros [Hr _]. split; [exact Hr | right; now exists q]. Qed.

Create HintDb nodes.
#[local] Hint Resolve set_response_text set_response_question
    clarify_keeps_text : nodes.
#[local] Hint Extern 2 (response_is_text (set _ _ _)) =>
    (apply set_keeps_text; [|discriminate|discriminate]) : nodes.

Lemma classify_keeps_text (state : AgentState) :
  response_is_text state -> ensures (classify state) response_is_text.
Proof.
  intros H. unfold classify_intent_node, classification_failed.
  crunch; auto 10 with nodes.
Qed.

Lemma node_keeps_text (n : node) (state : AgentState) :
  response_is_text state -> ensures (node_fn n state) response_is_text.
Proof.
  intros H. destruct n; cbn [node_function].
  - now apply classify_keeps_text.
  - unfold validation_node. crunch; auto 10 with nodes.
  - unfold force_validate_node. crunch; auto 10 with nodes.
  - unfold delete_document_node. crunch; auto 10 with nodes.
  - unfold export_invoices_node. crunch; auto 10 with nodes.
  - unfold rag_query_node. crunch; auto 10 with nodes.
  - unfold list_documents_node. crunch; auto 10 with nodes.
  - unfold get_details_node. crunch; auto 10 with nodes.
  - unfold general_chat_node. crunch; auto 10 with nodes.
  - unfold fallback_node. crunch; auto 10 with nodes.
  - unfold response_node. crunch; auto 10 with nodes.
  - exact H.
Qed.

(** *** The graph *)

Lemma run_graph_END (fuel : nat) (state : AgentState) :
  run_graph fuel n_END state = Ret (Some (state, [])).
Proof. destruct fuel; reflexivity. Qed.

Lemma run_graph_step (fuel : nat) (n : node) (state : AgentState) :
  n <> n_END ->
  run_graph (S fuel) n state
  = (state' <- node_fn n state ;;
     n' <- lift (next_node n state') ;;
     rest <- run_graph fuel n' state' ;;
     Ret (option_map (fun sp => (fst sp, n :: snd sp)) rest))%prog.
Proof. destruct n; (reflexivity || congruence). Qed.

(** What [response_node] does. *)
Lemma response_node_cases (state : AgentState) :
  response_node repr state
  = Ret (if truthy (response state) then state
         else if truthy (error state)
              then set F_response
                     (PStr ("Sorry, something went wrong: "
                            ++ format repr (error state))) state
              else set F_response
                     (PStr "I processed your request but have no response to show.")
                     state).
Proof.
  unfold response_node.
  destruct (truthy (response state)), (truthy (error state)); reflexivity.
Qed.

Lemma response_node_nonempty (state : AgentState) :
  response_is_text state ->
  exists state' text,
    response_node repr state = Ret state'
    /\ response state' = PStr text /\ text <> "".
Proof.
  intros [Hr _]. rewrite response_node_cases.
  destruct (truthy (response state)) eqn:Ht.
  - destruct Hr as [Hr|[text Hr]]; rewrite Hr in Ht; [discriminate|].
    exists state, text. repeat split; [assumption|].
    intros ->. discriminate.
  - destruct (truthy (error state)); eexists; eexists;
      (split; [reflexivity|]); (split; [reflexivity|]); discriminate.
Qed.

Lemma run_from_response (fuel : nat) (state : AgentState) :
  response_is_text state ->
  ensures (run_graph (S fuel) n_response state) (finished_from n_response).
Proof.
  intros H. rewrite run_graph_step by discriminate.
  cbn [node_function].
  destruct (response_node_nonempty state H) as (state' & text & -> & Hr & Hne).
  cbn [bind next_node lift]. rewrite run_graph_END. cbn [bind option_map].
  exists state', []. split; [reflexivity|]. split; [reflexivity|].
  now exists text.
Qed.

(** One step of the graph from a node that is not the last one. *)
Lemma run_from_node (fuel : nat) (n : node) (state : AgentState) :
  n <> n_END ->
  response_is_text state ->
  (forall state' n',
      response_is_text state' -> next_node n state' = inr n' ->
      ensures (run_graph fuel n' state') (finished_from n')) ->
  ensures (run_graph (S fuel) n state) (finished_from n).
Proof.
  intros Hn H Hnext. rewrite run_graph_step by assumption.
  apply ensures_bind.
  eapply ensures_weaken; [|now apply node_keeps_text].
  intros state' H'. cbn beta.
  destruct (next_node n state') as [e|n'] eqn:En; cbn [lift bind];
    [exact I|].
  apply ensures_bind.
  eapply ensures_weaken; [|now apply (Hnext state' n')].
  intros rest (final & path & -> & Hlast & Htext). cbn [ensures option_map].
  exists final, (n' :: path). split; [reflexivity|].
  split; [exact Hlast | exact Htext].
Qed.

Lemma run_from_fallback (fuel : nat) (state : AgentState) :
  response_is_text state ->
  ensures (run_graph (S (S fuel)) n_fallback state) (finished_from n_fallback).
Proof.
  intros H. apply run_from_node; [discriminate | assumption |].
  intros state' n' H' [= <-]. now apply run_from_response.
Qed.

Lemma run_from_any (fuel : nat) (n : node) (state : AgentState) :
  n <> n_END -> n <> n_classify_intent ->
  response_is_text state ->
  ensures (run_graph (S (S (S fuel))) n state) (finished_from n).
Proof.
  intros Hend Hclassify H.
  destruct n; try congruence;
    try (now apply run_from_fallback);
    try (now apply run_from_response);
    (apply run_from_node; [discriminate | assumption |];
     intros state' n' H'; cbn [next_node]; unfold should_respond;
     destruct (truthy (error state') || needs_clarification state');
     intros [= <-];
     [now apply run_from_fallback | now apply run_from_response]).
Qed.

Lemma lookup_node_targets (s : string) (n : node) :
  lookup_node s intent_to_node = Some n ->
  n <> n_END /\ n <> n_classify_intent.
Proof.
  unfold intent_to_node. cbn [lookup_node].
  repeat match goal with
         | |- (if ?b then _ else _) = _ -> _ =>
             destruct b; [intros [= <-]; split; discriminate|]
         end.
  discriminate.
Qed.

Lemma route_by_intent_targets (state : AgentState) (n : node) :
  route_by_intent state = inr n -> n <> n_END /\ n <> n_classify_intent.
Proof.
  unfold route_by_intent.
  destruct (truthy (error state) || needs_clarification state);
    [intros [= <-]; split; discriminate|].
  destruct (intent state) as [| | | |s| |];
    try (intros [= <-]; split; discriminate); try discriminate.
  destruct (lookup_node s intent_to_node) as [n0|] eqn:E.
  - intros [= <-]. now apply lookup_node_targets with (s := s).
  - intros [= <-]. split; discriminate.
Qed.

Lemma run_from_classify (fuel : nat) (state : AgentState) :
  response_is_text state ->
  ensures (run_graph (4 + fuel) n_classify_intent state)
    (finished_from n_classify_intent).
Proof.
  intros H. apply run_from_node; [discriminate | assumption |].
  intros state' n' H' Hroute. cbn [next_node] in Hroute.
  destruct (route_by_intent_targets state' n' Hroute).
  now apply run_from_any.
Qed.


(** What [classify_intent_node] does off the fast path: it never raises;
    when the gateway fails, or the classification is no dict, it sets
    intent [general_chat] and clears the error; when the classification
    does not parse, the intent is the one of the keyword heuristics and
    the error is as it was. *)
Lemma classify_degrades (state : AgentState) (h : env call) :
  is_export_request (lower (user_message state)) = false ->
  exists state',
    fst (run h (classify state)) = inr state'
    /\ match h 0%nat _ (classification_request repr state) with
       | inl e => state' = classification_failed state
       | inr result =>
           match json_loads
                   (extract_json_text (Gateway.result_content result)) with
           | None =>
               let m := lower (user_message state) in
               intent state'
               = PStr (if contains m "list" && contains m "invoice"
                       then "list_documents"
                       else if contains m "export" || contains m "download"
                       then "export_invoices"
                       else if contains m "validate" then "validate_invoice"
                       else if contains m "delete" then "delete_document"
                       else if contains m "detail" || contains m "show"
                       then "get_document_details"
                       else "general_chat")
               /\ error state' = error state
           | Some (PDict items) =>
               intent state' = get items "intent" (PStr "general_chat")
               /\ error state' = error state
           | Some _ => state' = classification_failed state
           end
       end.
Proof.
  intros Hslow. unfold classify_intent_node. rewrite Hslow.
  unfold run. cbn [perform bind try_except run_from].
  destruct (h 0%nat _ (classification_request repr state)) as [e|result];
    cbn [bind try_except run_from fst]; [eexists; split; reflexivity|].
  destruct (json_loads (extract_json_text (Gateway.result_content result)))
    as [[| | | | | |items]|];
    cbn [getattr_get lift bind try_except run_from fst];
    try (eexists; split; reflexivity).
  - eexists. split; [reflexivity|]. split; reflexivity.
  - unfold keyword_classification.
    destruct (contains (lower (user_message state)) "list"
              && contains (lower (user_message state)) "invoice");
      [eexists; split; [reflexivity | split; reflexivity]|].
    destruct (contains (lower (user_message state)) "export"
              || contains (lower (user_message state)) "download");
      [eexists; split; [reflexivity | split; reflexivity]|].
    destruct (contains (lower (user_message state)) "validate");
      [eexists; split; [reflexivity | split; reflexivity]|].
    destruct (contains (lower (user_message state)) "delete");
      [eexists; split; [reflexivity | split; reflexivity]|].
    destruct (contains (lower (user_message state)) "detail"
              || contains (lower (user_message state)) "show");
      eexists; split; reflexivity || (split; reflexivity).
Qed.

(** *** Which nodes can raise *)

Ltac settle :=
  repeat first
    [ progress cbn [returns bind try_except perform lift attempt and_then
                    Retrieval.query Retrieval.not_indexed_response
                    getitem lookup String.eqb Ascii.eqb Bool.eqb]
    | progress intros
    | exact I
    | match goal with
      | |- context [match ?x with _ => _ end] => destruct x eqn:?
      | |- context [and_then ?x _] => destruct x eqn:?
      | |- context [lift ?x] => destruct x eqn:?
      end ].

Lemma guarded_returns (n : node) (state : AgentState) :
  unguarded n = false -> returns (node_fn n state) (fun _ => True).
Proof.
  destruct n; try discriminate; intros _; cbn [node_function].
  - unfold classify_intent_node. settle.
  - unfold export_invoices_node. settle.
  - unfold rag_query_node. settle.
  - unfold list_documents_node. settle.
  - unfold get_details_node. settle.
  - unfold general_chat_node. settle.
  - unfold fallback_node. settle.
  - unfold response_node. settle.
  - exact I.
Qed.

(** X14. A node never raises, whatever its collaborators answer, unless
    it is [validation], [force_validate] or [delete_document] run on a
    state with a target document: these three make their calls outside
    any [try], every other node catches what its calls raise. *)
Theorem node_raises_iff (n : node) (state : AgentState) :
  returns (node_fn n state) (fun _ => True)
  <-> unguarded n = false \/ truthy (target_document_id state) = false.
Proof.
  split.
  - destruct (unguarded n) eqn:Hn; [|now left].
    destruct (truthy (target_document_id state)) eqn:Ht; [|now right].
    intros H. exfalso. revert H.
    destruct n; try discriminate; cbn [node_function];
      unfold validation_node, force_validate_node, delete_document_node;
      cbn [target_document_id set]; rewrite Ht;
      cbn [negb bind perform returns];
      intros H; exact (H (inl (OtherError "unavailable"))).
  - intros [Hn|Ht]; [now apply guarded_returns|].
    destruct (unguarded n) eqn:Hn; [|now apply guarded_returns].
    destruct n; try discriminate; cbn [node_function];
      unfold validation_node, force_validate_node, delete_document_node;
      cbn [target_document_id set]; rewrite Ht; exact I.
Qed.
(** *** The shape of a run *)

Lemma run_tail_response (fuel : nat) (state : AgentState) :
  ensures (run_graph (S fuel) n_response state)
    (fun r => exists final, r = Some (final, [n_response])).
Proof.
  rewrite run_graph_step by discriminate. cbn [node_function].
  rewrite response_node_cases. cbn [bind next_node lift].
  rewrite run_graph_END. cbn [bind option_map ensures fst snd]. eauto.
Qed.

Lemma run_tail_fallback (fuel : nat) (state : AgentState) :
  ensures (run_graph (S (S fuel)) n_fallback state)
    (fun r => exists final, r = Some (final, [n_fallback; n_response])).
Proof.
  rewrite run_graph_step by discriminate.
  apply ensures_bind.
  eapply ensures_weaken; [|apply ensures_True].
  intros state' _. cbn [next_node lift bind].
  apply ensures_bind.
  eapply ensures_weaken; [|apply run_tail_response].
  intros r [final ->]. cbn [ensures option_map fst snd]. eauto.
Qed.

Lemma run_tail_handler (fuel : nat) (hd : node) (state : AgentState) :
  is_handler hd = true ->
  ensures (run_graph (S (S (S fuel))) hd state)
    (fun r => exists final,
         r = Some (final, [hd; n_response])
         \/ r = Some (final, [hd; n_fallback; n_response])).
Proof.
  intros Hhd.
  rewrite run_graph_step by (intros ->; discriminate).
  apply ensures_bind.
  eapply ensures_weaken; [|apply ensures_True].
  intros state' _.
  assert (Hnext : next_node hd state' = inr (should_respond state'))
    by (destruct hd; try discriminate; reflexivity).
  rewrite Hnext. cbn [lift bind]. unfold should_respond.
  destruct (truthy (error state') || needs_clarification state');
    apply ensures_bind.
  - eapply ensures_weaken; [|apply run_tail_fallback].
    intros r [final ->]. cbn [ensures option_map fst snd]. eauto.
  - eapply ensures_weaken; [|apply run_tail_response].
    intros r [final ->]. cbn [ensures option_map fst snd]. eauto.
Qed.

Lemma lookup_node_handler (s : string) (n : node) :
  lookup_node s intent_to_node = Some n ->
  is_handler n = true \/ n = n_fallback.
Proof.
  unfold intent_to_node. cbn [lookup_node].
  repeat match goal with
         | |- (if ?b then _ else _) = _ -> _ =>
             destruct b; [intros [= <-]; auto|]
         end.
  discriminate.
Qed.

Lemma route_by_intent_handler (state : AgentState) (n : node) :
  route_by_intent state = inr n -> is_handler n = true \/ n = n_fallback.
Proof.
  unfold route_by_intent.
  destruct (truthy (error state) || needs_clarification state);
    [intros [= <-]; auto|].
  destruct (intent state) as [| | | |s| |];
    try (intros [= <-]; auto); try discriminate.
  destruct (lookup_node s intent_to_node) as [n0|] eqn:E.
  - intros [= <-]. now apply lookup_node_handler with (s := s).
  - intros [= <-]. auto.
Qed.


(** *** What the fallback does to a response *)

Lemma fallback_response_truthy (state : AgentState) :
  truthy (fallback_response repr state) = true.
Proof.
  unfold fallback_response, or_.
  destruct (needs_clarification state).
  - now destruct (truthy (clarification_question state)) eqn:E.
  - now destruct (truthy (error state)).
Qed.

(** X17. When a handler leaves a state with an error or a request for
    clarification, the run goes on to [fallback], which replaces
    whatever response the handler wrote: the final response is the
    message of [fallback], for an error the text that quotes it, and
    [response_node] keeps it. *)
Theorem fallback_replaces_response (fuel : nat) (hd : node)
        (state : AgentState) (r0 : pyval) :
  let handled := set F_response r0 state in
  is_handler hd = true ->
  truthy (error state) || needs_clarification state = true ->
  next_node hd handled = inr n_fallback
  /\ run_graph (2 + fuel) n_fallback handled
     = Ret (Some (set F_response (fallback_response repr state) state,
                  [n_fallback; n_response]))
  /\ truthy (fallback_response repr state) = true
  /\ (needs_clarification state = false ->
      fallback_response repr state
      = PStr ("I encountered an issue: " ++ format repr (error state)
              ++ ". Please try again or rephrase your request.")).
Proof.
  intros handled Hhd Herr. split; [|split; [|split]].
  - destruct hd; try discriminate; cbn [next_node]; unfold should_respond;
      cbn [error needs_clarification handled set]; now rewrite Herr.
  - change (2 + fuel)%nat with (S (S fuel)).
    rewrite run_graph_step by discriminate. cbn [node_function].
    assert (Hfb : fallback_node repr handled
                  = Ret (set F_response (fallback_response repr state) state)).
    { unfold fallback_node, fallback_response, handled.
      cbn [needs_clarification error clarification_question set].
      destruct (needs_clarification state); [reflexivity|].
      destruct (truthy (error state)); reflexivity. }
    rewrite Hfb. cbn [bind next_node lift].
    rewrite run_graph_step by discriminate. cbn [node_function].
    rewrite response_node_cases. cbn [response set].
    rewrite fallback_response_truthy. cbn [bind next_node lift].
    rewrite run_graph_END. reflexivity.
  - apply fallback_response_truthy.
  - intros Hq. unfold fallback_response. rewrite Hq.
    rewrite Hq, orb_false_r in Herr. now rewrite Herr.
Qed.

(** *** Runs that need no generation backend *)

Lemma run_graph_run (h : env call) (k fuel : nat) (n n' : node)
      (state state' final : AgentState) (path : list node)
      (evs evs' all : list (event call)) :
  n <> n_END ->
  run_from h k (node_fn n state) = (inr state', evs) ->
  next_node n state' = inr n' ->
  run_from h (k + List.length evs) (run_graph fuel n' state')
  = (inr (Some (final, path)), evs') ->
  all = (evs ++ evs')%list ->
  run_from h k (run_graph (S fuel) n state)
  = (inr (Some (final, n :: path)), all).
Proof.
  intros Hn Hnode Hnext Hrest ->.
  rewrite run_graph_step by assumption.
  rewrite run_from_bind, Hnode, Hnext. cbn [lift bind].
  rewrite run_from_bind, Hrest. cbn [run_from option_map fst snd].
  now rewrite app_nil_r.
Qed.

(** The end of a run is pure: from [response], and from [fallback]. *)
Lemma run_response (h : env call) (k fuel : nat) (state : AgentState) :
  exists final,
    run_from h k (run_graph (S fuel) n_response state)
    = (inr (Some (final, [n_response])), [])
    /\ (final = state \/ exists v, final = set F_response v state).
Proof.
  rewrite run_graph_step by discriminate. cbn [node_function].
  rewrite response_node_cases. cbn [bind next_node lift].
  rewrite run_graph_END. cbn [bind option_map run_from fst snd].
  eexists. split; [reflexivity|].
  destruct (truthy (response state)); [now left|].
  destruct (truthy (error state)); right; eauto.
Qed.

Lemma run_fallback (h : env call) (k fuel : nat) (state : AgentState) :
  exists final,
    run_from h k (run_graph (S (S fuel)) n_fallback state)
    = (inr (Some (final, [n_fallback; n_response])), [])
    /\ exists v, final = set F_response v state.
Proof.
  destruct (run_response h (k + 0) fuel
              (set F_response (fallback_response repr state) state))
    as (final & Hrun & Hfinal).
  exists final. split.
  - eapply run_graph_run with (evs := []);
      [discriminate | | reflexivity | exact Hrun | reflexivity].
    cbn [node_function]. unfold fallback_node, fallback_response.
    destruct (needs_clarification state); [reflexivity|].
    destruct (truthy (error state)); reflexivity.
  - destruct Hfinal as [->|[v ->]];
      [exists (fallback_response repr state) | exists v]; reflexivity.
Qed.

(** After a handler has returned [state'], the run ends without a call,
    with a state that differs from [state'] in its response at most. *)
Lemma run_handler (h : env call) (k fuel : nat) (hd : node)
      (state state' : AgentState) (evs : list (event call)) :
  is_handler hd = true ->
  run_from h k (node_fn hd state) = (inr state', evs) ->
  exists final path,
    run_from h k (run_graph (S (S (S fuel))) hd state)
    = (inr (Some (final, hd :: path)), evs)
    /\ (path = [n_response] \/ path = [n_fallback; n_response])
    /\ (final = state' \/ exists v, final = set F_response v state').
Proof.
  intros Hhd Hnode.
  assert (Hnext : next_node hd state' = inr (should_respond state'))
    by (destruct hd; try discriminate; reflexivity).
  unfold should_respond in Hnext.
  destruct (truthy (error state') || needs_clarification state').
  - destruct (run_fallback h (k + List.length evs) fuel state')
      as (final & Hrun & Hfinal).
    exists final, [n_fallback; n_response].
    split; [|split; [now right | now right]].
    eapply run_graph_run;
      [now destruct hd | exact Hnode | exact Hnext | exact Hrun
       | now rewrite app_nil_r].
  - destruct (run_response h (k + List.length evs) (S fuel) state')
      as (final & Hrun & Hfinal).
    exists final, [n_response]. split; [|split; [now left | exact Hfinal]].
    eapply run_graph_run;
      [now destruct hd | exact Hnode | exact Hnext | exact Hrun
       | now rewrite app_nil_r].
Qed.

(** [export_invoices_node] on a state with a format and no filters. *)
Lemma export_node_run (h : env call) (k : nat) (state : AgentState)
      (fmt : string) :
  export_format state = PStr fmt -> fmt <> "" ->
  export_filters state = PDict [] ->
  exists state',
    run_from h k (export_invoices_node repr state)
    = (inr state', [Event _ (ExportInvoices (PStr fmt) PNone PNone PNone)])
    /\ intent state' = intent state
    /\ export_format state' = export_format state.
Proof.
  intros Hfmt Hne Hfilters. unfold export_invoices_node.
  cbn [export_format export_filters set]. rewrite Hfmt, Hfilters.
  assert (Ht : truthy (PStr fmt) = true) by now destruct fmt.
  unfold or_. rewrite Ht.
  cbn [truthy getattr_get lookup and_then attempt perform bind
       try_except run_from upper].
  unfold get at 1 2 3. cbn [lookup truthy].
  destruct (h k _ _) as [e|result]; cbn [bind try_except run_from].
  - eexists. split; [reflexivity|]. now split.
  - destruct (truthy (get result "success" PNone));
      cbn [run_from]; eexists; (split; [reflexivity|]); now split.
Qed.

(** X15. For every message the fast path takes for an export request,
    the whole run makes exactly one call, to the export tool with the
    inferred format and no filter, and none to the gateway; it never
    raises, and ends after [classify_intent], [export_invoices],
    possibly [fallback], and [response], with intent [export_invoices]. *)
Theorem export_run (message session_id : string)
        (document_id : option string) (fuel : nat) (h : env call) :
  let out := run h (run_agent repr extract_json_text json_loads coll encode
                      (4 + fuel) message session_id document_id) in
  is_export_request (lower message) = true ->
  snd out
  = [Event _ (ExportInvoices (PStr (fast_path_format (lower message)))
                PNone PNone PNone)]
  /\ exists final path,
      fst out = inr (Some (final, path))
      /\ (path = [n_classify_intent; n_export_invoices; n_response]
          \/ path = [n_classify_intent; n_export_invoices; n_fallback;
                     n_response])
      /\ intent final = PStr "export_invoices"
      /\ export_format final = PStr (fast_path_format (lower message)).
Proof.
  intros out Hfast. subst out. unfold run, run_agent.
  set (state1 := set F_export_filters (PDict [])
                   (set F_export_format
                      (PStr (fast_path_format (lower message)))
                      (set F_intent (PStr "export_invoices")
                         (initial_state message session_id document_id)))).
  destruct (export_node_run h 0 state1 (fast_path_format (lower message)))
    as (state' & Hnode & Hintent & Hformat);
    [reflexivity | unfold fast_path_format; now destruct (_ || _)
     | reflexivity |].
  destruct (run_handler h 0 fuel n_export_invoices state1 state' _
              eq_refl Hnode)
    as (final & path & Hrun & Hpath & Hfinal).
  assert (Hall : run_from h 0
                   (run_graph (4 + fuel) n_classify_intent
                      (initial_state message session_id document_id))
                 = (inr (Some (final, n_classify_intent
                                        :: n_export_invoices :: path)),
                    [Event _ (ExportInvoices
                                (PStr (fast_path_format (lower message)))
                                PNone PNone PNone)])).
  { change (4 + fuel)%nat with (S (S (S (S fuel)))).
    eapply run_graph_run with (state' := state1) (evs := []);
      [discriminate | | reflexivity | exact Hrun | reflexivity].
    cbn [node_function]. unfold classify_intent_node.
    cbn [user_message initial_state]. now rewrite Hfast. }
  rewrite Hall. cbn [fst snd]. split; [reflexivity|].
  exists final, (n_classify_intent :: n_export_invoices :: path).
  split; [reflexivity|]. split.
  - destruct Hpath as [-> | ->]; auto.
  - destruct Hfinal as [-> | [v ->]]; cbn [intent export_format set];
      now rewrite ?Hintent, ?Hformat.
Qed.

(** X18. With a generation backend that fails at every call, every
    message that is no export request still gets an answer: the run
    makes two calls of the gateway, goes through [classify_intent],
    [general_chat] and [response], and ends without error with the
    summary of capabilities as its response. *)
Theorem backend_down_run (message session_id : string)
        (document_id : option string) (fuel : nat) (h : env call) :
  let out := run h (run_agent repr extract_json_text json_loads coll encode
                      (4 + fuel) message session_id document_id) in
  is_export_request (lower message) = false ->
  (forall n messages system_prompt,
      exists e, h n _ (GroqInvoke messages system_prompt) = inl e) ->
  exists final,
    fst out
    = inr (Some (final, [n_classify_intent; n_general_chat; n_response]))
    /\ response final = PStr capability_summary
    /\ error final = PNone
    /\ intent final = PStr "general_chat"
    /\ List.length (snd out) = 2%nat
    /\ forallb is_gateway_call (snd out) = true.
Proof.
  intros out Hslow Hdown. subst out. unfold run, run_agent.
  set (state0 := initial_state message session_id document_id).
  set (state1 := classification_failed state0).
  set (state2 := set F_error PNone
                   (set F_response (PStr capability_summary)
                      (set F_tool_name (PStr "general_chat") state1))).
  destruct (Hdown 0%nat [user (INTENT_CLASSIFICATION_PROMPT (user_message state0)
                 (if truthy (Orchestrator.document_id state0)
                  then "User is viewing document: "
                       ++ format repr (Orchestrator.document_id state0)
                  else "No specific document selected"))]
              (Some "You are a precise intent classifier. Respond only with valid JSON."))
    as [e0 He0].
  destruct (Hdown 1%nat [user (user_message state1)]
              (Some general_chat_system_prompt)) as [e1 He1].
  assert (Hclassify : run_from h 0 (classify state0)
            = (inr state1,
               [Event _ (classification_request repr state0)])).
  { unfold classify_intent_node. cbn [user_message state0 initial_state].
    rewrite Hslow. cbn [perform bind try_except run_from].
    unfold classification_request at 1. fold state0. rewrite He0.
    reflexivity. }
  assert (Hchat : run_from h 1 (general_chat_node state1)
            = (inr state2,
               [Event _ (GroqInvoke [user (user_message state1)]
                           (Some general_chat_system_prompt))])).
  { unfold general_chat_node. cbn [perform bind try_except run_from].
    cbn [user_message set] in *. rewrite He1. reflexivity. }
  destruct (run_response h 2 (S fuel) state2) as (final & Hrun & Hfinal).
  assert (Hfinal' : final = state2).
  { destruct Hfinal as [->|[v ->]]; [reflexivity|]. revert Hrun.
    rewrite run_graph_step by discriminate. cbn [node_function].
    rewrite response_node_cases. cbn [bind next_node lift].
    rewrite run_graph_END. cbn [bind option_map run_from fst snd].
    intros [= <-]. reflexivity. }
  subst final. exists state2.
  assert (Hall : run_from h 0 (run_graph (4 + fuel) n_classify_intent state0)
                 = (inr (Some (state2, [n_classify_intent; n_general_chat;
                                        n_response])),
                    [Event _ (classification_request repr state0);
                     Event _ (GroqInvoke [user (user_message state1)]
                                (Some general_chat_system_prompt))])).
  { change (4 + fuel)%nat with (S (S (S (S fuel)))).
    eapply run_graph_run;
      [discriminate | exact Hclassify | reflexivity | | reflexivity].
    eapply run_graph_run;
      [discriminate | exact Hchat | reflexivity | exact Hrun | reflexivity]. }
  rewrite Hall. cbn [fst snd]. repeat split.
Qed.

End Nodes.



(** C8 fails on the code at this input: the message asks for a download
    as xlsx, the classifier's answer does not parse, and the keyword
    heuristics choose the format "csv" where the fast path, on the same
    message, infers "excel". *)
Theorem classify_fallback_misses_xlsx :
  exists state',
    fst (run (backend_answers "I think the user wants a download.")
           (classify_intent_node no_repr whole_text never_parses
              (initial_state "Download the report as xlsx" "s1" None)))
    = inr state'
    /\ intent state' = PStr "export_invoices"
    /\ export_format state' = PStr "csv"
    /\ error state' = PNone
    /\ fast_path_format (lower "Download the report as xlsx") = "excel".
Proof.
  eexists. split; [vm_compute; reflexivity|].
  repeat split.
Qed.

Lemma classify_fast_path_export_excel :
  contains (lower "Export all invoices to Excel") "export" = true
  /\ exists state',
      classify_intent_node no_repr whole_text never_parses
        (initial_state "Export all invoices to Excel" "s1" None)
      = Ret state'
      /\ intent state' = PStr "export_invoices"
      /\ export_format state' = PStr "excel".
Proof.
  split; [reflexivity|].
  destruct (classify_fast_path no_repr whole_text never_parses
              (initial_state "Export all invoices to Excel" "s1" None)
              (or_introl eq_refl))
    as (state' & Hret & _ & Hintent & Hformat & _).
  exists state'. repeat split; assumption.
Defined.

Lemma handler_asks_for_document_validation :
  no_document (initial_state "validate it" "s1" None)
  /\ exists state',
      node_function no_repr whole_text never_parses [] no_encoder
        n_validation (initial_state "validate it" "s1" None)
      = Ret state'
      /\ needs_clarification state' = true
      /\ clarification_question state' = PStr validation_question.
Proof.
  assert (H : no_document (initial_state "validate it" "s1" None))
    by (split; reflexivity).
  split; [exact H|].
  destruct (handler_asks_for_document no_repr whole_text never_parses []
              no_encoder h_validation _ H)
    as (state' & Hret & _ & _ & Hn & Hq & _).
  exists state'. repeat split; assumption.
Defined.

(** *** The text handed to [json.loads] *)

Lemma brace_free_cons (c : ascii) (s : string) :
  brace_free (String c s)
  = negb (Ascii.eqb c "{") && negb (Ascii.eqb c "}") && brace_free s.
Proof.
  unfold brace_free. cbn [contains startswith].
  rewrite (Ascii.eqb_sym "{"%char c), (Ascii.eqb_sym "}"%char c).
  assert (Hs : forall x, startswith x "" = true) by now intros [].
  rewrite !Hs, !andb_true_r.
  destruct (Ascii.eqb c "{"), (Ascii.eqb c "}"), (contains s "{"),
    (contains s "}"); reflexivity.
Qed.

Lemma brace_body_spec (s body : string) :
  brace_body s = Some body ->
  exists inner rest,
    body = inner ++ "}" /\ s = inner ++ "}" ++ rest
    /\ brace_free inner = true.
Proof.
  revert body. induction s as [|c s IH]; intros body; [discriminate|].
  cbn [brace_body].
  destruct (Ascii.eqb_spec c "}") as [->|Hc].
  - intros [= <-]. now exists "", s.
  - destruct (Ascii.eqb_spec c "{") as [->|Ho]; [discriminate|].
    destruct (brace_body s) as [b|]; [|discriminate].
    intros [= <-]. destruct (IH b eq_refl) as (inner & rest & -> & -> & Hf).
    exists (String c inner), rest. repeat split.
    rewrite brace_free_cons, Hf.
    apply Ascii.eqb_neq in Hc, Ho. now rewrite Hc, Ho.
Qed.

Lemma search_object_spec (s m : string) :
  search_object s = Some m ->
  exists pre inner rest,
    m = "{" ++ inner ++ "}" /\ s = pre ++ m ++ rest
    /\ brace_free inner = true.
Proof.
  revert m. induction s as [|c s IH]; intros m; [discriminate|].
  cbn [search_object].
  assert (Hskip : search_object s = Some m ->
                  exists pre inner rest,
                    m = "{" ++ inner ++ "}" /\ String c s = pre ++ m ++ rest
                    /\ brace_free inner = true).
  { intros H. destruct (IH m H) as (pre & inner & rest & -> & Hs & Hf).
    exists (String c pre), inner, rest.
    split; [reflexivity|]. split; [|exact Hf].
    rewrite Hs at 1. reflexivity. }
  destruct (Ascii.eqb_spec c "{") as [->|_]; [|exact Hskip].
  destruct (brace_body s) as [body|] eqn:Hb; [|exact Hskip].
  intros [= <-].
  destruct (brace_body_spec s body Hb) as (inner & rest & -> & -> & Hf).
  exists "", inner, rest. repeat split; [|exact Hf].
  cbn [append]. now rewrite PyStrFacts.append_assoc.
Qed.

(** An opening brace followed by braceless text and another opening
    brace starts no match. *)
Lemma brace_body_nested (a s : string) :
  brace_free a = true -> brace_body (a ++ String "{" s) = None.
Proof.
  induction a as [|c a IH]; intros Hf; [reflexivity|].
  rewrite brace_free_cons in Hf.
  apply andb_prop in Hf. destruct Hf as [Hc Hf].
  apply andb_prop in Hc. destruct Hc as [Ho Hc].
  apply negb_true_iff in Ho, Hc. cbn [append brace_body].
  now rewrite Hc, Ho, IH.
Qed.

Lemma brace_body_closed (b rest : string) :
  brace_free b = true -> brace_body (b ++ String "}" rest) = Some (b ++ "}").
Proof.
  induction b as [|c b IH]; intros Hf; [reflexivity|].
  rewrite brace_free_cons in Hf.
  apply andb_prop in Hf. destruct Hf as [Hc Hf].
  apply andb_prop in Hc. destruct Hc as [Ho Hc].
  apply negb_true_iff in Ho, Hc. cbn [append brace_body].
  now rewrite Hc, Ho, IH.
Qed.

Lemma search_object_skip (pre s : string) :
  brace_free pre = true -> search_object (pre ++ s) = search_object s.
Proof.
  induction pre as [|c pre IH]; intros Hf; [reflexivity|].
  rewrite brace_free_cons in Hf.
  apply andb_prop in Hf. destruct Hf as [Hc Hf].
  apply andb_prop in Hc. destruct Hc as [Ho _].
  apply negb_true_iff in Ho. cbn [append search_object].
  now rewrite Ho, IH.
Qed.

Lemma search_object_nested (pre a b rest : string) :
  brace_free pre = true -> brace_free a = true -> brace_free b = true ->
  search_object (pre ++ "{" ++ a ++ "{" ++ b ++ "}" ++ rest)
  = Some ("{" ++ b ++ "}").
Proof.
  intros Hpre Ha Hb. rewrite search_object_skip by assumption.
  cbn [append search_object Ascii.eqb Bool.eqb].
  rewrite brace_body_nested by assumption.
  rewrite search_object_skip by assumption.
  cbn [search_object Ascii.eqb Bool.eqb].
  now rewrite brace_body_closed.
Qed.

Lemma startswith_shorter (s a b : string) :
  startswith s (a ++ b) = true -> startswith s a = true.
Proof.
  revert s. induction a as [|c a IH]; intros s; [now destruct s|].
  destruct s as [|c' s]; cbn [append startswith]; [discriminate|].
  intros H. apply andb_prop in H. destruct H as [-> H]. now apply IH.
Qed.

Lemma contains_longer (s a b : string) :
  contains s (a ++ b) = true -> contains s a = true.
Proof.
  induction s as [|c s IH]; cbn [contains]; intros H;
    apply orb_prop in H; destruct H as [H|H]; try discriminate;
    try (apply startswith_shorter in H; now rewrite H).
  rewrite (IH H). apply orb_true_r.
Qed.


Lemma no_json_fence (text : string) :
  contains text fence = false -> contains text json_fence = false.
Proof.
  intros Hfence.
  destruct (contains text json_fence) eqn:E; [|reflexivity].
  apply (contains_longer _ fence "json") in E. congruence.
Qed.

(** X20. For an answer without code fence that holds an object with a
    nested object, as the classification prompt asks for with
    [export_filters], the text handed to [json.loads] is the nested
    object, not the answer's. *)
Theorem extract_json_text_nested (pre a b rest : string) :
  let response_text := pre ++ "{" ++ a ++ "{" ++ b ++ "}" ++ rest in
  contains response_text fence = false ->
  strip response_text = response_text ->
  brace_free pre = true -> brace_free a = true -> brace_free b = true ->
  extract_json_text response_text = "{" ++ b ++ "}".
Proof.
  intros response_text Hfence Hstrip Hpre Ha Hb.
  unfold extract_json_text.
  rewrite (no_json_fence _ Hfence), Hfence, Hstrip.
  unfold response_text. now rewrite search_object_nested.
Qed.

Lemma export_run_excel :
  snd (run empty_store_backend_down
         (run_agent no_repr whole_text never_parses [] no_encoder 4
            "Export all invoices to Excel" "s1" None))
  = [Event _ (ExportInvoices (PStr "excel") PNone PNone PNone)].
Proof.
  exact (proj1 (export_run no_repr whole_text never_parses [] no_encoder
                  "Export all invoices to Excel" "s1" None 0
                  empty_store_backend_down eq_refl)).
Defined.

Lemma fallback_replaces_response_export_failure :
  run_graph no_repr whole_text never_parses [] no_encoder 2 n_fallback
    (set F_response (PStr "Export failed: disk full")
       (set F_error (PStr "disk full")
          (initial_state "Export all invoices" "s1" None)))
  = Ret (Some (set F_response
                 (PStr "I encountered an issue: disk full. Please try again or rephrase your request.")
                 (set F_error (PStr "disk full")
                    (initial_state "Export all invoices" "s1" None)),
               [n_fallback; n_response])).
Proof.
  exact (proj1 (proj2 (fallback_replaces_response no_repr whole_text
                         never_parses [] no_encoder 0 n_export_invoices
                         (set F_error (PStr "disk full")
                            (initial_state "Export all invoices" "s1" None))
                         (PStr "Export failed: disk full")
                         eq_refl eq_refl))).
Defined.

Lemma backend_down_run_hello :
  exists final,
    fst (run empty_store_backend_down
           (run_agent no_repr whole_text never_parses [] no_encoder 4
              "Hello there" "s1" None))
    = inr (Some (final, [n_classify_intent; n_general_chat; n_response]))
    /\ response final = PStr capability_summary.
Proof.
  destruct (backend_down_run no_repr whole_text never_parses [] no_encoder
              "Hello there" "s1" None 0 empty_store_backend_down eq_refl)
    as (final & Hrun & Hresponse & _).
  - intros n messages system_prompt. eexists. reflexivity.
  - exists final. split; [exact Hrun | exact Hresponse].
Defined.

Lemma extract_json_text_nested_filters :
  extract_json_text
    ("{" ++ DQ ++ "intent" ++ DQ ++ ": " ++ DQ ++ "list_documents" ++ DQ
     ++ ", " ++ DQ ++ "export_filters" ++ DQ ++ ": {" ++ DQ ++ "vendor"
     ++ DQ ++ ": " ++ DQ ++ "Acme" ++ DQ ++ "}}")
  = "{" ++ DQ ++ "vendor" ++ DQ ++ ": " ++ DQ ++ "Acme" ++ DQ ++ "}".
Proof.
  apply (extract_json_text_nested ""
           (DQ ++ "intent" ++ DQ ++ ": " ++ DQ ++ "list_documents" ++ DQ
            ++ ", " ++ DQ ++ "export_filters" ++ DQ ++ ": ")
           (DQ ++ "vendor" ++ DQ ++ ": " ++ DQ ++ "Acme" ++ DQ)
           "}"); reflexivity.
Defined.

(** X24. When the classifier answers with an object that holds a nested
    object, [classify_intent_node] classifies from the nested object
    alone: the intent is the one the nested object gives, [general_chat]
    when it gives none, whatever intent the answer states outside it. *)
Theorem classify_reads_nested_object (repr : pyval -> string)
        (json_loads : string -> option pyval) (state : AgentState)
        (h : env call) (result : Gateway.result)
        (pre a b rest : string) (items : list (string * pyval)) :
  let answer := pre ++ "{" ++ a ++ "{" ++ b ++ "}" ++ rest in
  is_export_request (lower (user_message state)) = false ->
  h 0%nat _ (classification_request repr state) = inr result ->
  Gateway.result_content result = answer ->
  contains answer fence = false -> strip answer = answer ->
  brace_free pre = true -> brace_free a = true -> brace_free b = true ->
  json_loads ("{" ++ b ++ "}") = Some (PDict items) ->
  exists state',
    fst (run h (classify_intent_node repr extract_json_text json_loads
                  state))
    = inr state'
    /\ intent state' = get items "intent" (PStr "general_chat")
    /\ export_filters state' = get items "export_filters" (PDict [])
    /\ (lookup "intent" items = None -> intent state' = PStr "general_chat").
Proof.
  intros answer Hslow Hcall Hcontent Hfence Hstrip Hpre Ha Hb Hloads.
  unfold classify_intent_node. rewrite Hslow.
  unfold run. cbn [perform bind try_except run_from]. rewrite Hcall.
  cbn [bind try_except run_from]. rewrite Hcontent.
  assert (Hextract : extract_json_text answer = "{" ++ b ++ "}").
  { unfold extract_json_text.
    rewrite (no_json_fence _ Hfence), Hfence, Hstrip.
    unfold answer. now rewrite search_object_nested. }
  rewrite Hextract.
  rewrite Hloads. cbn [getattr_get lift bind try_except run_from fst].
  eexists. split; [reflexivity|]. cbn [intent export_filters set].
  repeat split. intros Hnone. unfold get. now rewrite Hnone.
Qed.

Lemma classify_reads_nested_object_filters :
  exists state',
    fst (run (backend_answers nested_classification)
           (classify_intent_node no_repr extract_json_text
              parses_vendor_filter
              (initial_state "Which invoices do I have from Acme?" "s1"
                 None)))
    = inr state'
    /\ intent state' = PStr "general_chat".
Proof.
  destruct (classify_reads_nested_object no_repr parses_vendor_filter
              (initial_state "Which invoices do I have from Acme?" "s1" None)
              (backend_answers nested_classification)
              {| Gateway.result_content := nested_classification;
                 Gateway.model_used := "llama-3.1-8b-instant";
                 Gateway.success := true |}
              ""
              (DQ ++ "intent" ++ DQ ++ ": " ++ DQ ++ "list_documents" ++ DQ
               ++ ", " ++ DQ ++ "export_filters" ++ DQ ++ ": ")
              (DQ ++ "vendor" ++ DQ ++ ": " ++ DQ ++ "Acme" ++ DQ)
              "}" [("vendor", PStr "Acme")])
    as (state' & Hrun & _ & _ & Hintent); try reflexivity.
  exists state'. split; [exact Hrun|]. now apply Hintent.
Defined.

End OrchestratorFacts.

(** ** The export tool *)

Module ExportToolFacts.
Import PyStr Py Effects EffectsFacts ExportTool.

Section Tool.

Variable document : Type.
Variable repr : pyval -> string.

Local Abbreviation call := (call document).
Local Abbreviation export_invoices := (export_invoices document repr).

Lemma endswith_name (a b c d e : string) :
  endswith (a ++ b ++ c ++ d ++ e) e.
Proof.
  exists (a ++ b ++ c ++ d).
  now rewrite <- !PyStrFacts.append_assoc.
Qed.


End Tool.

End ExportToolFacts.

(** ** The tool servers *)

Module RagServerFacts.
Import PyStr Py Effects EffectsFacts Services Retrieval RetrievalFacts MCP.
Import RagServer.

Lemma first_missing_spec (required : list string)
      (args : list (string * pyval)) :
  match first_missing required args with
  | None => forallb (has args) required = true
  | Some message =>
      exists before param after,
        required = (before ++ param :: after)%list
        /\ forallb (has args) before = true
        /\ has args param = false
        /\ message = "Missing required parameter: " ++ param
  end.
Proof.
  induction required as [|p required IH]; cbn [first_missing forallb];
    [reflexivity|].
  destruct (has args p) eqn:Hp.
  - destruct (first_missing required args) as [message|].
    + destruct IH as (before & param & after & -> & Hb & Hm & ->).
      exists (p :: before), param, after. cbn [forallb]. rewrite Hp.
      repeat split; assumption.
    + exact IH.
  - exists [], p, required. repeat split. exact Hp.
Qed.

(** X27. [validate_args] accepts a call exactly when the tool is
    registered and every parameter it requires is a key of the
    arguments; the values and the other keys are not looked at.
    Otherwise the error names the unknown tool or, for a registered
    tool, the first required parameter, in the order of the
    declaration, that is missing. *)
Theorem validate_args_checks (tools : registry) (tool_name : string)
        (args : list (string * pyval)) :
  match validate_args tools tool_name args with
  | None =>
      exists tool,
        get_tool tools tool_name = Some tool
        /\ forallb (has args) (required_params tool) = true
  | Some message =>
      (get_tool tools tool_name = None
       /\ message = "Unknown tool: " ++ tool_name)
      \/ exists tool before param after,
          get_tool tools tool_name = Some tool
          /\ required_params tool = (before ++ param :: after)%list
          /\ forallb (has args) before = true
          /\ has args param = false
          /\ message = "Missing required parameter: " ++ param
  end.
Proof.
  unfold validate_args.
  destruct (get_tool tools tool_name) as [tool|]; [|now left].
  pose proof (first_missing_spec (required_params tool) args) as H.
  destruct (first_missing (required_params tool) args) as [message|].
  - right. destruct H as (before & param & after & H).
    now exists tool, before, param, after.
  - now exists tool.
Qed.

Section Server.

Variable encode : string -> vector.
Variable repr : pyval -> string.

Local Abbreviation index_document := (RagServer.index_document encode).
Local Abbreviation _query_document :=
  (RagServer._query_document encode repr).
Local Abbreviation query_document_post :=
  (RagServer.query_document_post encode).

(** What the server's [index_document] leaves in the collection. *)
Lemma index_document_leaves (coll : collection) (d text : string) :
  exists chunks,
    Embeddings.chunk_text (String.length text) text
      Embeddings.default_chunk_size Embeddings.default_overlap
    = Some chunks
    /\ get_by_document (fst (index_document coll d text)) d
       = generation encode d chunks
    /\ forall d', d' <> d ->
                  get_by_document (fst (index_document coll d text)) d'
                  = get_by_document coll d'.
Proof.
  destruct (EmbeddingsFacts.chunk_text_returns text 0) as [chunks Hchunks].
  rewrite Nat.add_0_r in Hchunks.
  exists chunks. split; [exact Hchunks|].
  destruct (RetrievalFacts.generation_of_document encode d 0 chunks)
    as (Hf & Ho & Hs).
  fold (generation encode d chunks) in Hf, Ho, Hs.
  assert (Hindex :
            fst (index_document coll d text)
            = (fst (delete_by_document coll d)
               ++ generation encode d chunks)%list).
  { unfold RagServer.index_document, Retrieval.index_document.
    rewrite Hchunks.
    destruct chunks as [|c chunks]; [simpl; now rewrite app_nil_r|].
    unfold embed_texts.
    rewrite RetrievalFacts.enumerate_from_combine, map_map.
    cbn [fst snd].
    change (map _ (enumerate_from 0 (c :: chunks)))
      with (generation encode d (c :: chunks)).
    now rewrite RetrievalFacts.create_many_app. }
  rewrite Hindex. split.
  - unfold get_by_document. simpl.
    now rewrite filter_app, RetrievalFacts.filter_of_other, Hf.
  - intros d' Hneq. unfold get_by_document. simpl.
    rewrite filter_app, (Ho d' Hneq), app_nil_r.
    now rewrite RetrievalFacts.filter_of_other_document.
Qed.

Lemma returns_attempt {A : Type} (p : prog call A) (Q : A -> Prop) :
  ensures p Q ->
  returns (attempt p)
    (fun r => match r with inl _ => True | inr a => Q a end).
Proof.
  unfold attempt.
  induction p as [a|e|R c k IH];
    cbn [bind try_except returns ensures]; auto.
Qed.

Lemma query_presentable (coll : collection) (document_id : pyval)
      (question : string) (top_k : Z) :
  ensures (query encode repr coll document_id question top_k) presentable.
Proof.
  unfold query. cbn [perform bind ensures]. intros [e|document];
    cbn [bind ensures]; [exact I|].
  assert (Hnone : presentable not_indexed_response).
  { exists not_indexed_answer, []. split; reflexivity. }
  destruct document_id as [| | | |d| |];
    try (cbn [bind ensures]; exact Hnone).
  destruct (similarity_search coll d (embed_text encode question) top_k)
    as [e|[|c chunks]]; cbn [lift bind ensures];
    [exact I | exact Hnone |].
  intros [e|result]; cbn [bind ensures]; [exact I|].
  exists (Gateway.result_content result),
    (map (fun chunk => slice (chunk_text chunk) 0 100 ++ "...")
         (c :: chunks)).
  split; [reflexivity|].
  cbn [get lookup String.eqb Ascii.eqb Bool.eqb]. now rewrite map_map.
Qed.

Lemma query_document_after (coll : collection) (d question : string)
      (top_k : Z) :
  exists after,
    caught (_query_document coll d question top_k)
    = Vis _ (DocumentGetById (PStr d)) after
    /\ forall looked,
        returns (after looked) (query_document_post coll d looked).
Proof.
  eexists. split; [reflexivity|].
  intros [e|[document|]]; cbn [bind try_except returns fst snd];
    unfold RagServer.query_document_post; cbn [fst snd].
  - split; [now exists (str_of_exn e) | reflexivity].
  - set (coll' := match get_by_document coll d with
                  | [] => _
                  | _ => _
                  end).
    apply returns_bind. apply returns_bind.
    eapply returns_weaken;
      [|apply returns_attempt, (query_presentable coll' (PStr d))].
    intros [e|result]; cbn beta iota.
    + intros _. cbn [returns fst snd].
      split; [now exists (str_of_exn e) | reflexivity].
    + intros (answer & sources & Hanswer & Hsources).
      rewrite Hanswer. cbn [returns fst snd]. split; [|reflexivity].
      eexists. split; [reflexivity|]. exists answer, sources.
      split; [reflexivity|].
      cbn [get lookup String.eqb Ascii.eqb Bool.eqb]. exact Hsources.
  - split; [now exists "Document not found" | reflexivity].
Qed.

(** Whatever the collaborators answer, [query_document] returns a
    result the chat service can read and leaves the chunks of the other
    documents as they are. *)
Lemma query_document_serves (coll : collection) (d question : string)
      (top_k : Z) :
  returns (caught (_query_document coll d question top_k))
    (fun out =>
       served (fst out)
       /\ forall d', d' <> d ->
                     get_by_document (snd out) d' = get_by_document coll d').
Proof.
  destruct (query_document_after coll d question top_k)
    as (after & -> & Hafter).
  cbn [returns]. intros looked.
  eapply returns_weaken; [|apply Hafter].
  intros out [Hserved Hpost]. split; [exact Hserved|].
  intros d' Hneq. destruct looked as [e|[document|]].
  - now rewrite Hpost.
  - rewrite Hpost.
    destruct (index_document_leaves coll d (raw_text document))
      as (chunks & _ & _ & Hframe).
    destruct (get_by_document coll d); [now apply Hframe | reflexivity].
  - now rewrite Hpost.
Qed.

Lemma fst_run_vis {A R : Type} (h : env call) (c : call R)
      (k : exn + R -> prog call A) (Q : A -> Prop) :
  returns (k (h 0%nat R c)) Q ->
  exists a, fst (run h (Vis R c k)) = inr a /\ Q a.
Proof.
  intros H. unfold run. cbn [run_from].
  destruct (returns_run _ _ Q h 1 H) as (a & Ha & HQ).
  exists a. destruct (run_from h 1 (k (h 0%nat R c))). now split.
Qed.

Lemma str_arg_has (args : list (string * pyval)) (key s : string) :
  str_arg args key = Some s -> has args key = true.
Proof.
  unfold str_arg, has. now destruct (lookup key args).
Qed.

(** The call of [query_document] with arguments of the declared types
    passes [validate_args] and runs the method. *)
Lemma execute_tool_query (coll : collection) (args : list (string * pyval))
      (d question : string) (top_k : Z) :
  str_arg args "document_id" = Some d ->
  str_arg args "question" = Some question ->
  int_arg args "top_k" 3 = Some top_k ->
  execute_tool encode repr coll "query_document" args
  = Some (caught (_query_document coll d question top_k)).
Proof.
  intros Hd Hq Hk. unfold execute_tool, validate_args.
  cbn [tools _register_tools register_tool assign get_tool name
       query_document_tool get_document_context_tool index_document_tool
       String.eqb Ascii.eqb Bool.eqb required_params first_missing].
  rewrite (str_arg_has _ _ _ Hd), (str_arg_has _ _ _ Hq).
  now rewrite Hd, Hq, Hk.
Qed.

(** X28. The tool [query_document], called with arguments of the
    declared types, never raises: it returns a result. When the lookup
    of the document raises, the result is without success and carries
    the error; for a document the store does not know it is "Document
    not found"; in both cases the collection is left as it is. For a
    document the store knows, one without stored chunks is indexed
    first, from its text, and stays indexed whatever becomes of the
    query; one with stored chunks is not indexed again. The chunks of
    the other documents are never touched. *)
Theorem query_document_indexes (coll : collection)
        (args : list (string * pyval)) (d question : string) (top_k : Z)
        (h : env call) :
  str_arg args "document_id" = Some d ->
  str_arg args "question" = Some question ->
  int_arg args "top_k" 3 = Some top_k ->
  exists tool result coll',
    execute_tool encode repr coll "query_document" args = Some tool
    /\ fst (run h tool) = inr (result, coll')
    /\ (forall d', d' <> d ->
                   get_by_document coll' d' = get_by_document coll d')
    /\ match h 0%nat _ (DocumentGetById (PStr d)) with
       | inl e => result = failure (str_of_exn e) /\ coll' = coll
       | inr None => result = failure "Document not found" /\ coll' = coll
       | inr (Some document) =>
           exists chunks,
             Embeddings.chunk_text (String.length (raw_text document))
               (raw_text document) Embeddings.default_chunk_size
               Embeddings.default_overlap
             = Some chunks
             /\ get_by_document coll' d
                = match get_by_document coll d with
                  | [] => generation encode d chunks
                  | stored => stored
                  end
       end.
Proof.
  intros Hd Hq Hk.
  exists (caught (_query_document coll d question top_k)).
  rewrite (execute_tool_query coll args d question top_k Hd Hq Hk).
  destruct (query_document_after coll d question top_k)
    as (after & -> & Hafter).
  destruct (fst_run_vis h _ _ _ (Hafter (h 0%nat _ (DocumentGetById (PStr d)))))
    as ([result coll'] & Hrun & _ & Hpost).
  exists result, coll'. split; [reflexivity|]. split; [exact Hrun|].
  destruct (h 0%nat _ (DocumentGetById (PStr d))) as [e|[document|]].
  - injection Hpost as -> ->. repeat split.
  - cbn [snd] in Hpost. subst coll'.
    destruct (index_document_leaves coll d (raw_text document))
      as (chunks & Hchunks & Hget & Hframe).
    split.
    + intros d' Hneq. destruct (get_by_document coll d);
        [now apply Hframe | reflexivity].
    + exists chunks. split; [exact Hchunks|].
      destruct (get_by_document coll d) eqn:E; [exact Hget | exact E].
  - injection Hpost as -> ->. repeat split.
Qed.

End Server.

Lemma query_document_indexes_one_invoice :
  exists tool result coll',
    execute_tool (fun _ => [1%R; 0%R]) (fun _ => "") two_chunks
      "query_document"
      [("document_id", PStr "inv"); ("question", PStr "What is the total?")]
    = Some tool
    /\ fst (run (one_invoice "The total is 10 EUR.") tool)
       = inr (result, coll')
    /\ get_by_document coll' "doc" = get_by_document two_chunks "doc"
    /\ List.length (get_by_document coll' "inv") = 1%nat.
Proof.
  destruct (query_document_indexes (fun _ => [1%R; 0%R]) (fun _ => "")
              two_chunks
              [("document_id", PStr "inv");
               ("question", PStr "What is the total?")]
              "inv" "What is the total?" 3
              (one_invoice "The total is 10 EUR.")
              eq_refl eq_refl eq_refl)
    as (tool & result & coll' & Htool & Hrun & Hframe & Hindexed).
  exists tool, result, coll'. split; [exact Htool|].
  split; [exact Hrun|]. split.
  - apply Hframe. discriminate.
  - cbn [one_invoice] in Hindexed.
    destruct Hindexed as (chunks & Hchunks & ->).
    injection Hchunks as <-. reflexivity.
Defined.

End RagServerFacts.

(** ** The chat service *)

Module ChatFacts.
Import PyStr Py Effects EffectsFacts Services Orchestrator OrchestratorFacts.
Import Chat.

(** What the agent ensures, it ensures when the chat service runs it,
    and the chat service catches what it raises. *)
Lemma attempt_agent {A : Type} (p : prog Services.call A) (Q : A -> Prop) :
  ensures p Q ->
  returns_given stores_answer (attempt (core p))
    (fun r => match r with inl _ => True | inr a => Q a end).
Proof.
  unfold attempt.
  induction p as [a|e|R c k IH]; cbn [core bind try_except returns_given
                                      ensures]; auto.
Qed.

(** What the core returns whatever its collaborators answer, it returns
    when the chat service runs it. *)
Lemma core_returns {A : Type} (p : prog Services.call A) (Q : A -> Prop) :
  returns p Q -> returns_given stores_answer (core p) Q.
Proof.
  induction p as [a|e|R c k IH]; cbn [core returns returns_given]; auto.
Qed.

Lemma session_of_request (request : ChatRequest.t) :
  returns_given stores_answer (session_of request)
    (fun session_id =>
       forall s, ChatRequest.session_id request = Some s ->
                 s <> "" -> session_id = s).
Proof.
  unfold session_of. destruct (ChatRequest.session_id request) as [s|].
  - destruct s as [|c s]; cbn [PyStr.truthy perform returns_given].
    + intros r [v ->]. cbn [returns_given]. intros s [= <-]. congruence.
    + intros s' [= <-] _. reflexivity.
  - cbn [perform returns_given]. intros r [v ->].
    cbn [returns_given]. discriminate.
Qed.

Lemma previews_of_strings (strings : list string) :
  traverse preview (map PStr strings)
  = inr (map PStr (map (fun s => slice s 0 50) strings)).
Proof.
  induction strings as [|s l IH]; [reflexivity|].
  cbn [map traverse preview and_then]. now rewrite IH.
Qed.

Section Service.

Variable repr : pyval -> string.
Variable extract_json_text : string -> string.
Variable json_loads : string -> option pyval.
Variable coll : Retrieval.collection.
Variable encode : string -> Retrieval.vector.

Local Abbreviation node_fn :=
  (node_function repr extract_json_text json_loads coll encode).
Local Abbreviation run_graph :=
  (run_graph repr extract_json_text json_loads coll encode).

Ltac crunch :=
  repeat first
    [ progress cbn [ensures bind try_except perform lift attempt and_then
                    Retrieval.query Retrieval.not_indexed_response
                    getitem lookup get String.eqb Ascii.eqb Bool.eqb]
    | progress intros
    | match goal with
      | |- context [match ?x with _ => _ end] => destruct x eqn:?
      | |- context [and_then ?x _] => destruct x eqn:?
      | |- context [lift ?x] => destruct x eqn:?
      end ].

Lemma set_keeps_typed (f : field) (v : pyval) (state : AgentState) :
  typed state -> f <> F_tool_name -> f <> F_sources ->
  typed (set f v state).
Proof. intros H Hf Hq. destruct f; try exact H; congruence. Qed.

Lemma set_tool_name_typed (name : string) (state : AgentState) :
  typed state -> typed (set F_tool_name (PStr name) state).
Proof. intros [_ Hs]. split; [right; now exists name | exact Hs]. Qed.

Lemma clarify_keeps_typed (q : string) (state : AgentState) :
  typed state -> typed (clarify q state).
Proof. intros H. exact H. Qed.

Lemma set_sources_typed (strings : list string) (state : AgentState) :
  typed state -> typed (set F_sources (PList (map PStr strings)) state).
Proof. intros [Ht _]. split; [exact Ht | now exists strings]. Qed.

Lemma set_sources_mapped {A : Type} (f : A -> string) (l : list A)
      (state : AgentState) :
  typed state ->
  typed (set F_sources (PList (map (fun x => PStr (f x)) l)) state).
Proof.
  intros [Ht _]. split; [exact Ht|]. exists (map f l).
  cbn [Orchestrator.sources set]. now rewrite map_map.
Qed.

Ltac keep :=
  repeat first
    [ exact I
    | assumption
    | apply clarify_keeps_typed
    | apply set_tool_name_typed
    | apply set_sources_mapped
    | apply (set_sources_typed [])
    | apply set_keeps_typed; [|discriminate|discriminate] ].

Lemma node_keeps_typed (n : node) (state : AgentState) :
  typed state -> ensures (node_fn n state) typed.
Proof.
  intros H. destruct n; cbn [node_function].
  - unfold classify_intent_node, classification_failed. crunch; keep.
  - unfold validation_node. crunch; keep.
  - unfold force_validate_node. crunch; keep.
  - unfold delete_document_node. crunch; keep.
  - unfold export_invoices_node. crunch; keep.
  - unfold rag_query_node. crunch; keep.
  - unfold list_documents_node. crunch; keep.
  - unfold get_details_node. crunch; keep.
  - unfold general_chat_node. crunch; keep.
  - unfold fallback_node. crunch; keep.
  - unfold response_node. crunch; keep.
  - exact H.
Qed.

(** An invariant of the nodes holds of the state a run ends with. *)
Lemma run_graph_keeps (Inv : AgentState -> Prop) :
  (forall n state, Inv state -> ensures (node_fn n state) Inv) ->
  forall fuel n state,
    Inv state ->
    ensures (run_graph fuel n state)
      (fun r => match r with
                | Some (final, _) => Inv final
                | None => True
                end).
Proof.
  intros Hnode. induction fuel as [|fuel IH]; intros n state HI.
  - destruct n; cbn [Orchestrator.run_graph ensures]; auto.
  - destruct n;
      try (rewrite OrchestratorFacts.run_graph_step by discriminate;
           apply ensures_bind;
           eapply ensures_weaken; [|now apply Hnode];
           intros state' HI'; cbn beta;
           match goal with
           | |- context [lift ?x] => destruct x as [e|n']
           end; cbn [lift bind ensures]; [exact I|];
           apply ensures_bind;
           eapply ensures_weaken; [|now apply (IH n' state')];
           intros [[final path]|]; cbn [ensures option_map fst]; auto).
    cbn [Orchestrator.run_graph ensures]. exact HI.
Qed.

Lemma initial_state_typed (message session_id : string)
      (document_id : option string) :
  response_is_text (initial_state message session_id document_id)
  /\ typed (initial_state message session_id document_id).
Proof.
  repeat split; try (now left). now exists [].
Qed.

(** What the agent hands to the chat service. *)
Lemma run_agent_presentable (fuel : nat) (message session_id : string)
      (document_id : option string) :
  ensures (run_agent repr extract_json_text json_loads coll encode
             (4 + fuel) message session_id document_id)
    (fun r => exists final path text,
         r = Some (final, path)
         /\ Orchestrator.response final = PStr text /\ text <> ""
         /\ is_text (Orchestrator.clarification_question final)
         /\ typed final).
Proof.
  destruct (initial_state_typed message session_id document_id)
    as [Htext Htyped].
  unfold run_agent.
  pose proof (OrchestratorFacts.run_from_classify repr extract_json_text
                json_loads coll encode fuel _ Htext) as Hend.
  pose proof (run_graph_keeps response_is_text
                (OrchestratorFacts.node_keeps_text repr extract_json_text
                   json_loads coll encode)
                (4 + fuel) n_classify_intent _ Htext) as Hkeeps.
  pose proof (run_graph_keeps typed node_keeps_typed
                (4 + fuel) n_classify_intent _ Htyped) as Hkeept.
  eapply ensures_weaken;
    [|exact (ensures_conj _ _ _ _ Hend (ensures_conj _ _ _ _ Hkeeps Hkeept))].
  intros r ((final & path & -> & _ & text & Hresponse & Hne)
            & [_ Hq] & Ht).
  exists final, (n_classify_intent :: path), text. auto.
Qed.

Lemma strings_field (field : string) (strings : list string) :
  optional_str_list_field field (PList (map PStr strings))
  = inr (Some strings).
Proof.
  unfold optional_str_list_field.
  assert (H : traverse (str_field field) (map PStr strings) = inr strings).
  { induction strings as [|s l IH]; [reflexivity|].
    cbn [map traverse str_field and_then]. now rewrite IH. }
  now rewrite H.
Qed.

Lemma text_field (field : string) (v : pyval) :
  is_text v -> exists o, optional_str_field field v = inr o.
Proof. intros [->|[text ->]]; eexists; reflexivity. Qed.

(** X25. [global_chat] always answers: when the store of chat messages
    and the draw of a session id do not fail, it returns a response with
    a text that is not empty, whatever the agent and its collaborators
    do, an exception of the agent included; the session is the one of
    the request when it names one. *)
Theorem global_chat_answers (request : ChatRequest.t) (fuel : nat)
        (h : env call) :
  (forall n R (c : call R), stores_answer R c (h n R c)) ->
  exists chat_response,
    fst (run h (global_chat repr extract_json_text json_loads coll encode
                  (4 + fuel) request))
    = inr (Some chat_response)
    /\ ChatResponse.response chat_response <> ""
    /\ forall s, ChatRequest.session_id request = Some s -> s <> "" ->
                 ChatResponse.session_id chat_response = s.
Proof.
  intros Hh.
  destruct (returns_given_run call stores_answer
              (global_chat repr extract_json_text json_loads coll encode
                 (4 + fuel) request)
              (fun r => exists chat_response,
                   r = Some chat_response
                   /\ ChatResponse.response chat_response <> ""
                   /\ forall s, ChatRequest.session_id request = Some s ->
                                s <> "" ->
                                ChatResponse.session_id chat_response = s)
              h 0 Hh) as (r & Hrun & chat_response & -> & Hne & Hs).
  2: { exists chat_response. auto. }
  unfold global_chat. apply returns_given_bind.
  assert (Hsession : returns_given stores_answer (session_of request)
            (fun session_id =>
               forall s, ChatRequest.session_id request = Some s ->
                         s <> "" -> session_id = s)).
  { unfold session_of. destruct (ChatRequest.session_id request) as [s|].
    - destruct s as [|c s]; cbn [PyStr.truthy perform returns_given].
      + intros r [v ->]. cbn [returns_given]. intros s [= <-]. congruence.
      + intros s' [= <-] _. reflexivity.
    - cbn [perform returns_given]. intros r [v ->].
      cbn [returns_given]. discriminate. }
  eapply returns_given_weaken; [|exact Hsession].
  intros session_id Hid. cbn beta.
  cbn [perform bind returns_given]. intros r [v ->].
  cbn [bind]. apply returns_given_bind.
  eapply returns_given_weaken;
    [|apply attempt_agent, (run_agent_presentable fuel)].
  intros [e|ran].
  - intros _. cbn [returns_given]. eexists. split; [reflexivity|].
    split; [discriminate | exact Hid].
  - intros (final & path & text & -> & Hresponse & Hne & Hq & Ht & Hsources).
    rewrite Hresponse.
    assert (Htruthy : truthy (PStr text) = true) by now destruct text.
    unfold or_. rewrite Htruthy.
    cbn [str_field lift bind perform returns_given].
    intros r' [v' ->]. cbn [bind returns_given].
    destruct (text_field "tool_used" _ Ht) as [tool ->].
    destruct Hsources as [strings ->]. rewrite strings_field.
    destruct (text_field "clarification_question" _ Hq) as [question ->].
    cbn [lift bind returns_given]. eexists. split; [reflexivity|].
    split; [exact Hne | exact Hid].
Qed.

(** X29. [document_chat] always answers: when the store of chat
    messages and the draw of a session id do not fail, it returns a
    response, whatever the document store, the retrieval and the
    gateway do, a failure of the tool being told in the text of the
    response. The response names the tool [rag_query], lists sources,
    asks for no clarification and keeps the session of a request that
    names one; the chunks of the other documents are left as they
    are. *)
Theorem document_chat_answers (document_id : string)
        (request : ChatRequest.t) (h : env call) :
  (forall n R (c : call R), stores_answer R c (h n R c)) ->
  exists chat_response coll',
    fst (run h (document_chat repr coll encode document_id request))
    = inr (Some (chat_response, coll'))
    /\ ChatResponse.tool_used chat_response = Some "rag_query"
    /\ ChatResponse.sources chat_response <> None
    /\ ChatResponse.needs_clarification chat_response = false
    /\ (forall s, ChatRequest.session_id request = Some s -> s <> "" ->
                  ChatResponse.session_id chat_response = s)
    /\ (forall d, d <> document_id ->
                  Retrieval.get_by_document coll' d
                  = Retrieval.get_by_document coll d).
Proof.
  intros Hh.
  destruct (returns_given_run call stores_answer
              (document_chat repr coll encode document_id request)
              (fun r => exists chat_response coll',
                   r = Some (chat_response, coll')
                   /\ ChatResponse.tool_used chat_response = Some "rag_query"
                   /\ ChatResponse.sources chat_response <> None
                   /\ ChatResponse.needs_clarification chat_response = false
                   /\ (forall s, ChatRequest.session_id request = Some s ->
                                 s <> "" ->
                                 ChatResponse.session_id chat_response = s)
                   /\ (forall d, d <> document_id ->
                                 Retrieval.get_by_document coll' d
                                 = Retrieval.get_by_document coll d))
              h 0 Hh) as (r & Hrun & chat_response & coll' & -> & H).
  2: { exists chat_response, coll'. split; [exact Hrun | exact H]. }
  unfold document_chat. apply returns_given_bind.
  eapply returns_given_weaken; [|apply session_of_request].
  intros session_id Hid. cbn beta.
  cbn [perform bind returns_given]. intros r [v ->]. cbn [bind].
  rewrite (RagServerFacts.execute_tool_query encode repr coll
             [ ("document_id", PStr document_id);
               ("question", PStr (ChatRequest.message request)) ]
             document_id (ChatRequest.message request) 3
             eq_refl eq_refl eq_refl).
  apply returns_given_bind.
  eapply returns_given_weaken;
    [|apply core_returns, RagServerFacts.query_document_serves].
  intros [result coll'] [Hserved Hframe]. cbn [fst snd] in *.
  unfold RagServer.served in Hserved.
  destruct (MCP.success result).
  - destruct Hserved as (items & -> & answer & sources & Hanswer & Hsources).
    cbn [getattr_get]. unfold get at 1. rewrite Hanswer, Hsources.
    cbn [lift bind fst snd iterate and_then].
    rewrite previews_of_strings.
    cbn [lift bind str_field]. rewrite !strings_field.
    cbn [lift bind perform returns_given]. intros r' [v' ->].
    cbn [bind returns_given]. eexists. eexists. split; [reflexivity|].
    cbn. repeat split; try assumption; discriminate.
  - cbn [lift bind fst snd iterate and_then traverse str_field
         optional_str_list_field perform returns_given]. intros r' [v' ->].
    cbn [bind returns_given]. eexists. eexists. split; [reflexivity|].
    cbn. repeat split; try assumption; discriminate.
Qed.

End Service.

Lemma global_chat_answers_agent_failure :
  exists chat_response,
    fst (run (chat_env (store_rejects_ids "{}"))
           (global_chat no_repr whole_text parses_delete_abc [] no_encoder 4
              {| ChatRequest.message := "Please delete invoice abc";
                 ChatRequest.session_id := Some "s1" |}))
    = inr (Some chat_response)
    /\ ChatResponse.response chat_response <> "".
Proof.
  destruct (global_chat_answers no_repr whole_text parses_delete_abc []
              no_encoder
              {| ChatRequest.message := "Please delete invoice abc";
                 ChatRequest.session_id := Some "s1" |}
              0 (chat_env (store_rejects_ids "{}")))
    as (chat_response & Hrun & Hne & _).
  - intros n R c. destruct c; simpl; eauto.
  - exists chat_response. split; [exact Hrun | exact Hne].
Defined.

Lemma document_chat_answers_unknown_document :
  exists chat_response coll',
    fst (run (chat_env (backend_answers "The total is 10 EUR."))
           (document_chat no_repr Retrieval.two_chunks no_encoder "inv"
              {| ChatRequest.message := "What is the total?";
                 ChatRequest.session_id := Some "s1" |}))
    = inr (Some (chat_response, coll'))
    /\ ChatResponse.tool_used chat_response = Some "rag_query"
    /\ ChatResponse.session_id chat_response = "s1".
Proof.
  destruct (document_chat_answers no_repr Retrieval.two_chunks no_encoder
              "inv"
              {| ChatRequest.message := "What is the total?";
                 ChatRequest.session_id := Some "s1" |}
              (chat_env (backend_answers "The total is 10 EUR.")))
    as (chat_response & coll' & Hrun & Htool & _ & _ & Hsession & _).
  - intros n R c. destruct c; simpl; eauto.
  - exists chat_response, coll'. split; [exact Hrun|].
    split; [exact Htool|]. apply Hsession; [reflexivity | discriminate].
Defined.

End ChatFacts.
